(** * RV32IMZ UART bootloader: integrity engine, transport reader,
      image validator, update session and boot controller.

    Shallow embedding of
    [distribution/rv32imz_full_soc/firmware/bootloader/bootloader.c].

    - [uint32_t] and [uint8_t] values are [Z] with the wrap-around written
      out ([u32], [u8], [sub32], [not32]).
    - Memory-mapped registers are volatile: every read is answered by the
      hardware.  The hardware is an oracle giving, for each register, the
      value returned by its n-th read; the program state counts the reads
      and logs every access in a trace.
    - Busy-wait loops need not terminate; they run on fuel, and a run that
      exhausts its fuel reports [OutOfFuel] together with the state reached. *)

From Stdlib Require Import ZArith List Bool Lia String Ascii.
Import ListNotations.
Local Open Scope Z_scope.

(** ** Fixed-width arithmetic *)

Definition u32 (x : Z) : Z := x mod 2 ^ 32.
Definition u8 (x : Z) : Z := x mod 256.
Definition sub32 (a b : Z) : Z := u32 (a - b).
Definition not32 (x : Z) : Z := u32 (Z.lnot x).

(** ** Bootloader constants *)

Definition BOOT_MAGIC : Z := 0xB007ABCD.
Definition APP_START_ADDR : Z := 0x00004000.
Definition TIMEOUT_MS : Z := 3000.
Definition MAX_APP_SIZE : Z := 16 * 1024.
Definition UART_TX_EMPTY : Z := Z.shiftl 1 1.
Definition UART_RX_READY : Z := Z.shiftl 1 0.

(** [sizeof(firmware_header_t)]: five packed [uint32_t] fields. *)
Definition sizeof_header : Z := 20.

Record firmware_header_t : Type := mk_header {
  magic : Z;
  version : Z;
  size : Z;
  crc32 : Z;
  reserved : Z
}.

(** ** Arrays and pointers

    A [uint8_t] or [uint32_t] array is a list indexed from 0; a store
    outside the array is undefined in C and is a no-op here (the program
    never performs one: [receive_firmware] asks for 20 bytes into the
    20-byte header and for at most 128 into the 128-byte buffer).  A [const uint8_t*]
    that is only read is the function [i |-> data[i]]. *)

Fixpoint store_nat (l : list Z) (i : nat) (v : Z) : list Z :=
  match l, i with
  | [], _ => []
  | _ :: t, O => v :: t
  | h :: t, S i' => h :: store_nat t i' v
  end.

Definition store (l : list Z) (i : Z) (v : Z) : list Z :=
  store_nat l (Z.to_nat i) v.

Definition index (l : list Z) (i : Z) : Z := nth (Z.to_nat i) l 0.

(** ** CRC32 implementation *)

(** Body of the inner [j] loop of [crc32_init_table]. *)
Definition crc32_bit (crc : Z) : Z :=
  if negb (Z.land crc 1 =? 0)
  then Z.lxor (Z.shiftr crc 1) 0xEDB88320
  else Z.shiftr crc 1.

(** [for (int j = 0; j < 8; j++)] generalised to [j] rounds. *)
Fixpoint crc32_bits (j : nat) (crc : Z) : Z :=
  match j with
  | O => crc
  | S j' => crc32_bits j' (crc32_bit crc)
  end.

(** Outer loop of [crc32_init_table]: [n] iterations left, counter [i]. *)
Fixpoint crc32_fill (n : nat) (i : Z) (table : list Z) : list Z :=
  match n with
  | O => table
  | S n' => crc32_fill n' (i + 1) (store table i (crc32_bits 8 i))
  end.

(** The byte loop shared by [crc32_calculate] and [receive_firmware]:
    [crc = crc32_table[(crc ^ byte) & 0xFF] ^ (crc >> 8)]. *)
Definition crc32_step (table : list Z) (crc byte : Z) : Z :=
  Z.lxor (index table (Z.land (Z.lxor crc byte) 0xFF)) (Z.shiftr crc 8).

(** [for (uint32_t i = 0; i < length; i++)] over [data], [n] iterations
    left, counter [i]. *)
Fixpoint crc32_loop (table : list Z) (data : Z -> Z) (n : nat) (i : Z)
    (crc : Z) : Z :=
  match n with
  | O => crc
  | S n' =>
      let byte := u8 (data i) in
      crc32_loop table data n' (i + 1) (crc32_step table crc byte)
  end.

(** ** Program state *)

Inductive reg : Type := UART_TX_DATA | UART_STATUS | TIMER_VALUE.

Inductive event : Type :=
| EvRead (r : reg) (v : Z)
| EvWrite (r : reg) (v : Z)
| EvCsrci (* [csrci mstatus, 0x8] *).

(** The globals of the translation unit ([crc32_table],
    [crc32_table_initialized], the function-static [last_dot]), the memory
    holding the application region, the number of reads already made of
    each input register and the access trace (most recent event first). *)
Record world : Type := mk_world {
  crc32_table : list Z;
  crc32_table_initialized : bool;
  last_dot : Z;
  mem : Z -> Z;
  n_timer : nat;
  n_status : nat;
  n_data : nat;
  trace : list event
}.

(** State at reset: statics are zero-initialised. *)
Definition reset_world (m : Z -> Z) : world :=
  mk_world (repeat 0 256) false 0 m 0 0 0 [].

Definition set_table (t : list Z) (b : bool) (w : world) : world :=
  mk_world t b (last_dot w) (mem w) (n_timer w) (n_status w) (n_data w)
           (trace w).

Definition set_last_dot (d : Z) (w : world) : world :=
  mk_world (crc32_table w) (crc32_table_initialized w) d (mem w) (n_timer w)
           (n_status w) (n_data w) (trace w).

Definition crc32_init_table (w : world) : world :=
  if crc32_table_initialized w then w
  else set_table (crc32_fill 256 0 (crc32_table w)) true w.

Definition crc32_calculate (data : Z -> Z) (length : Z) (w : world)
    : Z * world :=
  let w1 := crc32_init_table w in
  let crc := 0xFFFFFFFF in
  let crc := crc32_loop (crc32_table w1) data (Z.to_nat length) 0 crc in
  (not32 crc, w1).

(** The accumulation of [receive_firmware] (lines 253-277) with the
    transport taken out: the table is initialised, every chunk is folded
    into the running value by the byte loop, and the value is complemented
    once after the last chunk. *)
Definition crc32_fold_chunk (table : list Z) (crc : Z) (chunk : list Z) : Z :=
  crc32_loop table (index chunk) (List.length chunk) 0 crc.

Definition crc32_incremental (chunks : list (list Z)) (w : world)
    : Z * world :=
  let w1 := crc32_init_table w in
  let crc := fold_left (crc32_fold_chunk (crc32_table w1)) chunks 0xFFFFFFFF in
  (not32 crc, w1).

(** One-call CRC of a byte sequence held in an array. *)
Definition crc32_of_bytes (b : list Z) (w : world) : Z * world :=
  crc32_calculate (index b) (Z.of_nat (List.length b)) w.

(** ** Reference CRC32, following the specification's words: reflected,
    polynomial 0xEDB88320, initial value 0xFFFFFFFF, final complement. *)

Definition reflected_step (x : Z) : Z :=
  Z.lxor (Z.shiftr x 1) (if Z.testbit x 0 then 0xEDB88320 else 0).

Definition reflected_byte (crc byte : Z) : Z :=
  Nat.iter 8 reflected_step (Z.lxor crc byte).

Definition reflected_crc32 (bytes : list Z) : Z :=
  Z.lxor (fold_left reflected_byte bytes 0xFFFFFFFF) 0xFFFFFFFF.

Definition bytes_at (data : Z -> Z) (n : nat) : list Z :=
  map (fun i => u8 (data (Z.of_nat i))) (seq 0 n).

Definition is_byte (b : Z) : Prop := 0 <= b < 256.

(** The table is either untouched since reset or fully built. *)
Definition table_inv (w : world) : Prop :=
  List.length (crc32_table w) = 256%nat /\
  (crc32_table_initialized w = true ->
   forall i, 0 <= i < 256 -> index (crc32_table w) i = crc32_bits 8 i).

(** ** Memory and the packed little-endian header *)

Definition load8 (m : Z -> Z) (a : Z) : Z := u8 (m (u32 a)).

Definition load32 (m : Z -> Z) (a : Z) : Z :=
  load8 m a + 2 ^ 8 * load8 m (a + 1) + 2 ^ 16 * load8 m (a + 2)
  + 2 ^ 24 * load8 m (a + 3).

(** [(firmware_header_t* )addr] *)
Definition read_header (m : Z -> Z) (addr : Z) : firmware_header_t :=
  mk_header (load32 m addr) (load32 m (addr + 4)) (load32 m (addr + 8))
            (load32 m (addr + 12)) (load32 m (addr + 16)).

(** A header held in a byte array, as filled through [(uint8_t* )&header]. *)
Definition header_of_bytes (b : list Z) : firmware_header_t :=
  read_header (index b) 0.

(** ** Hardware and the execution monad *)

(** The hardware answers the n-th read of a register; whatever the device
    does, one execution reads one such sequence per register.  A read
    yields the 32 bits of the register. *)
Record hardware : Type := mk_hardware {
  timer_in : nat -> Z;
  status_in : nat -> Z;
  data_in : nat -> Z;
  (* indeterminate initial bytes of the uninitialised stack locals *)
  uninit : nat -> Z
}.

Inductive stop : Type :=
| OutOfFuel            (* still running when the fuel ran out *)
| Jumped (entry : Z)   (* control was transferred to the application *)
| Hang                 (* reached the empty [while(1);] *).

Inductive outcome (A : Type) : Type :=
| Ret (a : A)
| Stop (s : stop).
Arguments Ret {A} a.
Arguments Stop {A} s.

(** A computation takes the fuel for its loops and the current state. *)
Definition M (A : Type) : Type := nat -> world -> outcome A * world.

Definition ret {A : Type} (a : A) : M A := fun _ w => (Ret a, w).

Definition bind {A B : Type} (c : M A) (k : A -> M B) : M B :=
  fun fuel w =>
    match c fuel w with
    | (Ret a, w') => k a fuel w'
    | (Stop s, w') => (Stop s, w')
    end.

Declare Scope fw_scope.
Delimit Scope fw_scope with fw.
Notation "x <- c ;; k" := (bind c (fun x => k))
  (at level 61, c at next level, right associativity) : fw_scope.
Notation "' p <- c ;; k" := (bind c (fun x => match x with p => k end))
  (at level 61, p pattern, c at next level, right associativity) : fw_scope.
Notation "c ;; k" := (bind c (fun _ => k))
  (at level 61, right associativity) : fw_scope.
Local Open Scope fw_scope.

(** [while]: the body maps the loop variables to [inl] of their next
    values (next iteration) or [inr] of the loop's result ([break] or
    [return]).  Each iteration takes one unit of fuel. *)
Fixpoint loop_n {S A : Type} (body : S -> M (S + A)) (n : nat) (s : S)
    (fuel : nat) (w : world) : outcome A * world :=
  match n with
  | O => (Stop OutOfFuel, w)
  | Datatypes.S n' =>
      match body s fuel w with
      | (Ret (inl s'), w') => loop_n body n' s' fuel w'
      | (Ret (inr a), w') => (Ret a, w')
      | (Stop st, w') => (Stop st, w')
      end
  end.

Definition while {S A : Type} (body : S -> M (S + A)) (s : S) : M A :=
  fun fuel w => loop_n body fuel s fuel w.

Definition continue {S A : Type} (s : S) : M (S + A) := ret (inl s).
Definition break {S A : Type} (a : A) : M (S + A) := ret (inr a).

Definition get_world : M world := fun _ w => (Ret w, w).
Definition modify (f : world -> world) : M unit := fun _ w => (Ret tt, f w).
Definition lift {A : Type} (f : world -> A * world) : M A :=
  fun _ w => let (a, w') := f w in (Ret a, w').
Definition stop_with {A : Type} (s : stop) : M A := fun _ w => (Stop s, w).

Definition log (e : event) (w : world) : world :=
  mk_world (crc32_table w) (crc32_table_initialized w) (last_dot w) (mem w)
           (n_timer w + match e with EvRead TIMER_VALUE _ => 1 | _ => 0 end)
           (n_status w + match e with EvRead UART_STATUS _ => 1 | _ => 0 end)
           (n_data w + match e with EvRead UART_TX_DATA _ => 1 | _ => 0 end)
           (e :: trace w).

(** State reached from [w] by the accesses [evs] (most recent first). *)
Definition advance (evs : list event) (w : world) : world :=
  fold_right log w evs.

(** Characters written to the UART and bytes read from it, in time order. *)
Fixpoint tx_of (t : list event) : list Z :=
  match t with
  | [] => []
  | EvWrite UART_TX_DATA v :: t' => tx_of t' ++ [v]
  | _ :: t' => tx_of t'
  end.

Fixpoint rx_of (t : list event) : list Z :=
  match t with
  | [] => []
  | EvRead UART_TX_DATA v :: t' => rx_of t' ++ [u8 v]
  | _ :: t' => rx_of t'
  end.

Definition chars (s : string) : list Z :=
  map (fun c => Z.of_nat (nat_of_ascii c)) (list_ascii_of_string s).

Definition crlf : string := String "013" (String "010" EmptyString).

Section Firmware.

Variable hw : hardware.

(** *** Register access *)

Definition read_reg (r : reg) : M Z := fun _ w =>
  let v := u32 match r with
               | TIMER_VALUE => timer_in hw (n_timer w)
               | UART_STATUS => status_in hw (n_status w)
               | UART_TX_DATA => data_in hw (n_data w)
               end in
  (Ret v, log (EvRead r v) w).

Definition write_reg (r : reg) (v : Z) : M unit := fun _ w =>
  (Ret tt, log (EvWrite r (u32 v)) w).

(** *** Basic I/O functions *)

Definition uart_putc (c : Z) : M unit :=
  while (fun _ : unit =>
           s <- read_reg UART_STATUS ;;
           if negb (negb (Z.land s UART_TX_EMPTY =? 0))
           then continue tt else break tt) tt ;;
  write_reg UART_TX_DATA c.

Fixpoint uart_puts (str : string) : M unit :=
  match str with
  | EmptyString => ret tt
  | String c str' => uart_putc (Z.of_nat (nat_of_ascii c)) ;; uart_puts str'
  end.

Definition hex_digit (nibble : Z) : Z :=
  if nibble <? 10 then 48 + nibble else 65 + nibble - 10.

(** [for (int i = 28; i >= 0; i -= 4)]: [n] digits left, [i = 4 * (n - 1)]. *)
Fixpoint uart_put_hex_digits (n : nat) (value : Z) : M unit :=
  match n with
  | O => ret tt
  | Datatypes.S n' =>
      let i := 4 * Z.of_nat n' in
      let nibble := Z.land (Z.shiftr value i) 0xF in
      uart_putc (hex_digit nibble) ;; uart_put_hex_digits n' value
  end.

Definition uart_put_hex (value : Z) : M unit :=
  uart_puts "0x" ;; uart_put_hex_digits 8 value.

Definition uart_rx_ready : M bool :=
  s <- read_reg UART_STATUS ;;
  ret (negb (Z.land s UART_RX_READY =? 0)).

(** The received character is the low byte of the data register. *)
Definition uart_getc : M Z :=
  while (fun _ : unit =>
           r <- uart_rx_ready ;;
           if negb r then continue tt else break tt) tt ;;
  v <- read_reg UART_TX_DATA ;;
  ret (u8 v).

Definition get_time_ms : M Z :=
  t <- read_reg TIMER_VALUE ;;
  ret (t / 50000).

Definition delay_ms (ms : Z) : M unit :=
  start <- get_time_ms ;;
  while (fun _ : unit =>
           now <- get_time_ms ;;
           if sub32 now start <? ms then continue tt else break tt) tt.

(** *** UART protocol functions *)

Definition uart_receive_bytes (buffer : list Z) (length timeout_ms : Z)
    : M (bool * list Z) :=
  start_time <- get_time_ms ;;
  while (fun '(buffer, received) =>
           if received <? length then
             now <- get_time_ms ;;
             if sub32 now start_time >? timeout_ms then
               break (false, buffer)
             else
               r <- uart_rx_ready ;;
               if r then
                 c <- uart_getc ;;
                 continue (store buffer received c, received + 1)
               else continue (buffer, received)
           else break (true, buffer))
        (buffer, 0).

(** *** Application management *)

Definition verify_application (addr : Z) : M bool :=
  w <- get_world ;;
  let header := read_header (mem w) addr in
  if negb (magic header =? BOOT_MAGIC) then
    uart_puts ("No valid application (bad magic)" ++ crlf) ;;
    ret false
  else if size header >? MAX_APP_SIZE then
    uart_puts ("Application too large" ++ crlf) ;;
    ret false
  else
    let app_data := fun i => load8 (mem w) (addr + sizeof_header + i) in
    calc_crc <- lift (crc32_calculate app_data
                        (sub32 (size header) sizeof_header)) ;;
    if negb (calc_crc =? crc32 header) then
      uart_puts "CRC check failed - Expected: " ;;
      uart_put_hex (crc32 header) ;;
      uart_puts ", Calculated: " ;;
      uart_put_hex calc_crc ;;
      uart_puts crlf ;;
      ret false
    else ret true.

(** The call [app()] hands control over; what follows it in the source
    runs only if the application returns. *)
Definition jump_to_application (addr : Z) : M unit :=
  uart_puts ("Jumping to application..." ++ crlf) ;;
  delay_ms 100 ;;
  modify (log EvCsrci) ;;
  let app_entry := u32 (addr + sizeof_header) in
  stop_with (Jumped app_entry).

(** *** Firmware update functions *)

(** One pass of [while (remaining > 0)] in [receive_firmware] (lines
    260-275) on the loop variables [remaining], [crc] and [buffer]; a
    [return false] from inside the loop leaves it with [None]. *)
Definition receive_chunk (s : Z * Z * list Z)
    : M (Z * Z * list Z + option Z) :=
  let '(remaining, crc, buffer) := s in
  if remaining >? 0 then
    let chunk := if remaining >? 128 then 128 else remaining in
    '(ok, buffer) <- uart_receive_bytes buffer chunk 5000 ;;
    if negb ok then
      uart_puts (crlf ++ "ERROR: Data timeout" ++ crlf) ;;
      break None
    else
      w <- get_world ;;
      let crc := crc32_loop (crc32_table w) (index buffer)
                            (Z.to_nat chunk) 0 crc in
      uart_putc 46 ;;
      continue (remaining - chunk, crc, buffer)
  else break (Some crc).

(** Lines 277-289: the CRC comparison and the final report. *)
Definition finish_session (header : firmware_header_t) (r : option Z)
    : M bool :=
  match r with
  | None => ret false
  | Some crc =>
      let crc := not32 crc in
      uart_puts (" done" ++ crlf) ;;
      if negb (crc =? crc32 header) then
        uart_puts ("ERROR: CRC mismatch!" ++ crlf) ;;
        ret false
      else
        uart_puts ("Firmware update successful!" ++ crlf) ;;
        uart_puts ("Note: This is a simulation - actual flash programming would occur here" ++ crlf) ;;
        ret true
  end.

(** Lines 239-247 and 255: the report before the payload is received. *)
Definition announce_firmware (header : firmware_header_t) : M unit :=
  uart_puts "Firmware version: " ;;
  uart_put_hex (version header) ;;
  uart_puts (crlf ++ "Size: ") ;;
  uart_put_hex (size header) ;;
  uart_puts (" bytes" ++ crlf) ;;
  uart_puts ("Simulating flash programming..." ++ crlf) ;;
  uart_puts "Programming".

(** Lines 226-289 of [receive_firmware]: the session from the header
    checks on, for the header just received. *)
Definition receive_firmware_after_header (header : firmware_header_t)
    : M bool :=
  if negb (magic header =? BOOT_MAGIC) then
    uart_puts "ERROR: Invalid magic - " ;;
    uart_put_hex (magic header) ;;
    uart_puts crlf ;;
    ret false
  else if size header >? MAX_APP_SIZE then
    uart_puts ("ERROR: Firmware too large" ++ crlf) ;;
    ret false
  else
    announce_firmware header ;;
    let buffer0 := map (uninit hw) (seq 20 128) in
    let remaining := size header in
    let crc := 0xFFFFFFFF in
    modify crc32_init_table ;;
    r <- while receive_chunk (remaining, crc, buffer0) ;;
    finish_session header r.

Definition receive_firmware : M bool :=
  let header0 := map (uninit hw) (seq 0 20) in
  uart_puts ("Waiting for firmware header (30s timeout)..." ++ crlf) ;;
  '(ok, hbytes) <- uart_receive_bytes header0 sizeof_header 30000 ;;
  if negb ok then
    uart_puts ("ERROR: Header timeout" ++ crlf) ;;
    ret false
  else
    receive_firmware_after_header (header_of_bytes hbytes).

(** One pass of the 3-second [while] of [check_for_update_request]
    (lines 296-313); [Some b] is a [return b] from inside the loop, [None]
    the loop condition failing. *)
Definition poll_update_request (start : Z) (_ : unit)
    : M (unit + option bool) :=
  now <- get_time_ms ;;
  if sub32 now start <? TIMEOUT_MS then
    rdy <- uart_rx_ready ;;
    if rdy then
      c <- uart_getc ;;
      if (c =? 85) || (c =? 117) then break (Some true)
      else break (Some false)
    else
      now <- get_time_ms ;;
      let elapsed := sub32 now start in
      w <- get_world ;;
      (if elapsed / 500 >? last_dot w then
         uart_putc 46 ;;
         modify (fun w => set_last_dot (u32 (last_dot w + 1)) w)
       else ret tt) ;;
      continue tt
  else break None.

Definition check_for_update_request : M bool :=
  uart_puts ("Press 'U' for update mode (3s timeout)..." ++ crlf) ;;
  start <- get_time_ms ;;
  r <- while (poll_update_request start) tt ;;
  match r with
  | Some b => ret b
  | None => uart_puts crlf ;; ret false
  end.

(** *** Main bootloader function *)

Definition banner : M unit :=
  uart_puts crlf ;;
  uart_puts ("===========================================" ++ crlf) ;;
  uart_puts ("  RV32IMZ Bootloader v1.0" ++ crlf) ;;
  uart_puts ("  5-Level CHB Inverter Controller" ++ crlf) ;;
  uart_puts ("===========================================" ++ crlf) ;;
  uart_puts ("Build: Dec 16, 2025" ++ crlf) ;;
  uart_puts crlf.

(** One pass of the recovery [while (1)] body. *)
Definition recovery_iteration : M unit :=
  ok <- receive_firmware ;;
  (if ok then uart_puts ("Recovery successful! Please reset to boot." ++ crlf)
   else ret tt) ;;
  delay_ms 1000.

Definition recovery_loop : M unit :=
  while (fun _ : unit => recovery_iteration ;; continue tt) tt.

Definition update_mode : M unit :=
  uart_puts (crlf ++ ">>> UPDATE MODE <<<" ++ crlf) ;;
  uart_puts ("Waiting for firmware upload..." ++ crlf) ;;
  ok <- receive_firmware ;;
  if ok then
    uart_puts ("Update completed successfully!" ++ crlf) ;;
    uart_puts ("Rebooting in 2 seconds..." ++ crlf) ;;
    delay_ms 2000 ;;
    uart_puts ("Reboot simulation - please reset manually" ++ crlf) ;;
    stop_with Hang
  else
    uart_puts ("Update failed! Attempting to boot existing app..." ++ crlf).

(** The recovery branch of [bootloader_main] (lines 356-366). *)
Definition enter_recovery : M unit :=
  uart_puts (crlf ++ "ERROR: No valid application found!" ++ crlf) ;;
  uart_puts ("Entering recovery mode..." ++ crlf) ;;
  uart_puts ("Send firmware via UART to recover." ++ crlf) ;;
  recovery_loop.

(** Lines 369-379: report the application and jump to it. *)
Definition boot_application : M unit :=
  uart_puts ("Application verified OK!" ++ crlf) ;;
  w <- get_world ;;
  let header := read_header (mem w) APP_START_ADDR in
  uart_puts "App version: " ;;
  uart_put_hex (version header) ;;
  uart_puts (crlf ++ "App size: ") ;;
  uart_put_hex (size header) ;;
  uart_puts (" bytes" ++ crlf) ;;
  jump_to_application APP_START_ADDR.

(** Lines 353-379: verify the resident application and boot or recover. *)
Definition verify_and_boot : M unit :=
  uart_puts ("Verifying application..." ++ crlf) ;;
  ok <- verify_application APP_START_ADDR ;;
  if negb ok then enter_recovery else boot_application.

Definition bootloader_main : M unit :=
  banner ;;
  upd <- check_for_update_request ;;
  (if upd then update_mode else ret tt) ;;
  verify_and_boot.

Definition main : M Z :=
  bootloader_main ;;
  ret 0.

End Firmware.

(** ** Scripted hardware for concrete runs

    The transmitter is always empty, the receiver is ready during the
    first [k] status reads, the data register yields [bytes] in order and
    every timer read is [tick] timer counts after the previous one. *)
Definition scripted_hw (k : nat) (bytes : list Z) (tick : Z) : hardware :=
  mk_hardware (fun i => tick * Z.of_nat i)
              (fun i => if (i <? k)%nat then 3 else 2)
              (fun i => nth i bytes 0)
              (fun _ => 0).

Definition text_of (w : world) : list Z := tx_of (trace w).

(** ** Specification vocabulary *)

(** Partial correctness: whatever the fuel, a run from [w] that ends with
    outcome [r] in state [w'] satisfies [Q w r w'].  Running out of fuel is
    an outcome like the others, so [Q] also constrains the states a run
    passes through. *)
Definition hoare {A : Type} (c : M A) (Q : world -> outcome A -> world -> Prop)
    : Prop :=
  forall fuel w r w', c fuel w = (r, w') -> Q w r w'.

(** A computation that only accesses registers: the final state is the
    initial one advanced by the accesses [evs]. *)
Definition io_spec {A : Type} (c : M A)
    (Q : world -> outcome A -> list event -> Prop) : Prop :=
  hoare c (fun w r w' => exists evs, w' = advance evs w /\ Q w r evs).

(** Total correctness: with enough fuel the run returns, in a state and
    with a value satisfying [Q]. *)
Definition terminates {A : Type} (c : M A) (w : world)
    (Q : A -> world -> Prop) : Prop :=
  exists fuel a w',
    Q a w' /\ forall fuel', (fuel <= fuel')%nat -> c fuel' w = (Ret a, w').

(** Output-only behaviour: nothing is read from the data register, a
    returning run has written exactly [text], and a run still short of
    fuel has written a prefix of it. *)
Definition emits {A : Type} (text : list Z)
    : world -> outcome A -> list event -> Prop :=
  fun _ r evs =>
    rx_of evs = [] /\
    match r with
    | Ret _ => tx_of evs = text
    | Stop OutOfFuel => exists rest, text = tx_of evs ++ rest
    | Stop _ => False
    end.

(** The transmitter never stays busy forever. *)
Definition tx_live (hw : hardware) : Prop :=
  forall n, exists k,
    Z.land (u32 (status_in hw (n + k))) UART_TX_EMPTY <> 0.

(** The text of [uart_put_hex]: "0x" and eight upper-case digits. *)
Definition hex_text (value : Z) : list Z :=
  chars "0x" ++
  map (fun k => hex_digit (Z.land (Z.shiftr value (4 * Z.of_nat k)) 0xF))
      (rev (seq 0 8)).

(** Accesses that neither write a character nor read a byte. *)
Definition quiet (e : list event) : Prop := tx_of e = [] /\ rx_of e = [].

(** Milliseconds shown by a timer reading, as [get_time_ms] computes them. *)
Definition ms_of (v : Z) : Z := v / 50000.

Definition is_timer_read (e : event) : Prop :=
  match e with EvRead TIMER_VALUE _ => True | _ => False end.

Definition is_status_read (e : event) : Prop :=
  match e with EvRead UART_STATUS _ => True | _ => False end.

(** [e] (most recent first) starts with the timer read [v0] and ends with
    the timer read [v1]. *)
Definition timed (v0 v1 : Z) (e : list event) : Prop :=
  exists mid, e = EvRead TIMER_VALUE v1 :: mid ++ [EvRead TIMER_VALUE v0].

(** What [uart_receive_bytes buffer length timeout_ms] guarantees about
    its outcome [r] and its accesses [e]. *)
Definition receive_post (buffer : list Z) (length timeout_ms : Z)
    (r : outcome (bool * list Z)) (e : list event) : Prop :=
  tx_of e = [] /\
  Z.of_nat (List.length (rx_of e)) <= Z.max 0 length /\
  Forall is_byte (rx_of e) /\
  match r with
  | Ret (ok, buffer') =>
      (Z.max 0 length <= Z.of_nat (List.length buffer) ->
       buffer' = rx_of e ++ skipn (List.length (rx_of e)) buffer) /\
      (ok = true -> Z.of_nat (List.length (rx_of e)) = Z.max 0 length) /\
      (ok = false ->
       Z.of_nat (List.length (rx_of e)) < length /\
       exists v0 v1, timed v0 v1 e /\
                     sub32 (ms_of v1) (ms_of v0) > timeout_ms)
  | Stop OutOfFuel => True
  | Stop _ => False
  end.

(** ** Image validation as the specification words it: a decision on an
    already-parsed header and an already-computed payload CRC. *)

Inductive verdict : Type := Valid | InvalidMagic | OversizedImage | CrcMismatch.

Definition validate (h : firmware_header_t) (payload_crc : Z) : verdict :=
  if negb (magic h =? BOOT_MAGIC) then InvalidMagic
  else if size h >? MAX_APP_SIZE then OversizedImage
  else if negb (payload_crc =? crc32 h) then CrcMismatch
  else Valid.

Definition is_valid (v : verdict) : bool :=
  match v with Valid => true | _ => false end.

(** The payload CRC that [verify_application addr] computes in state [w]:
    [crc32_calculate] over [size - sizeof(firmware_header_t)] bytes (an
    unsigned 32-bit difference) from [addr + sizeof(firmware_header_t)]. *)
Definition resident_payload_length (w : world) (addr : Z) : Z :=
  sub32 (size (read_header (mem w) addr)) sizeof_header.

Definition resident_payload_crc (w : world) (addr : Z) : Z :=
  fst (crc32_calculate (fun i => load8 (mem w) (addr + sizeof_header + i))
                       (resident_payload_length w addr) w).

(** Diagnostic text of [verify_application] for each verdict. *)
Definition verify_text (h : firmware_header_t) (calc_crc : Z) (v : verdict)
    : list Z :=
  match v with
  | Valid => []
  | InvalidMagic => chars ("No valid application (bad magic)" ++ crlf)
  | OversizedImage => chars ("Application too large" ++ crlf)
  | CrcMismatch =>
      chars "CRC check failed - Expected: " ++ hex_text (crc32 h) ++
      chars ", Calculated: " ++ hex_text calc_crc ++ chars crlf
  end.

(** Every computation of the given kind returns when given enough fuel. *)
Definition total {A : Type} (c : M A) : Prop :=
  forall w, terminates c w (fun _ _ => True).

(** A loop started in state [w] with loop variables [s] leaves with a
    result satisfying [Q] once the loop counter and the fuel are large
    enough. *)
Definition loop_terminates {S A : Type} (body : S -> M (S + A)) (s : S)
    (w : world) (Q : A -> world -> Prop) : Prop :=
  exists F a w',
    Q a w' /\
    forall n fuel, (F <= n)%nat -> (F <= fuel)%nat ->
                   loop_n body n s fuel w = (Ret a, w').

(** Output-only behaviour that returns the value [a]. *)
Definition emits_ret {A : Type} (text : list Z) (a : A)
    : world -> outcome A -> list event -> Prop :=
  fun w r e => emits text w r e /\ forall b, r = Ret b -> b = a.

(** ** Concrete images and headers for worked examples *)

(** Little-endian bytes of a 32-bit value and the 20 bytes of a header. *)
Definition le32 (x : Z) : list Z :=
  [x mod 256; (x / 2 ^ 8) mod 256; (x / 2 ^ 16) mod 256; (x / 2 ^ 24) mod 256].

Definition header_bytes (h : firmware_header_t) : list Z :=
  le32 (magic h) ++ le32 (version h) ++ le32 (size h) ++ le32 (crc32 h)
  ++ le32 (reserved h).

(** Memory holding [bytes] from [APP_START_ADDR] on and zero elsewhere. *)
Definition image_at (bytes : list Z) : Z -> Z :=
  fun a => if APP_START_ADDR <=? a
           then nth (Z.to_nat (a - APP_START_ADDR)) bytes 0 else 0.

(** Hardware on which nothing ever arrives: transmitter always empty,
    receiver never ready; each timer read is one second after the
    previous one. *)
Definition idle_hw : hardware := scripted_hw 0 [] 50000000.

(** The payload DE AD BE EF has CRC32 0x7C9CA35A, and so has the payload
    DE AD BE EF 84 0E 22 93. *)
Definition payload4 : list Z := [0xDE; 0xAD; 0xBE; 0xEF].
Definition payload8 : list Z := payload4 ++ [0x84; 0x0E; 0x22; 0x93].

Definition header_size24 : firmware_header_t :=
  mk_header BOOT_MAGIC 1 24 0x7C9CA35A 0.
Definition header_size28 : firmware_header_t :=
  mk_header BOOT_MAGIC 1 28 0x7C9CA35A 0.

Definition image_size24 : Z -> Z := image_at (header_bytes header_size24 ++ payload8).
Definition image_size28 : Z -> Z := image_at (header_bytes header_size28 ++ payload8).

(** An image whose header says [size = 0]. *)
Definition image_size0 : Z -> Z :=
  image_at (header_bytes (mk_header BOOT_MAGIC 1 0 0 0)).

(** A receiver that has two bytes to give and then goes quiet. *)
Definition two_byte_hw : hardware := scripted_hw 4 [0x11; 0x22] 50000000.

(** ** Update session vocabulary *)

(** The table holds the entries [crc32_init_table] writes. *)
Definition table_ok (w : world) : Prop :=
  forall i, 0 <= i < 256 -> index (crc32_table w) i = crc32_bits 8 i.

(** [n] progress dots. *)
Definition dots (n : Z) : list Z := repeat 46 (Z.to_nat n).

Definition data_timeout_text : list Z :=
  chars (crlf ++ "ERROR: Data timeout" ++ crlf).

(** What the payload loop of a session for [sz] bytes guarantees. *)
Definition chunk_loop_post (sz : Z) (r : outcome (option Z))
    (e : list event) : Prop :=
  Forall is_byte (rx_of e) /\
  Z.of_nat (List.length (rx_of e)) <= sz /\
  match r with
  | Ret (Some crc) =>
      Z.of_nat (List.length (rx_of e)) = sz /\
      crc = fold_left reflected_byte (rx_of e) 0xFFFFFFFF /\
      tx_of e = dots ((sz + 127) / 128)
  | Ret None =>
      Z.of_nat (List.length (rx_of e)) < sz /\
      tx_of e = dots (Z.of_nat (List.length (rx_of e)) / 128)
                ++ data_timeout_text
  | Stop OutOfFuel => True
  | Stop _ => False
  end.

Definition announce_text (h : firmware_header_t) : list Z :=
  chars "Firmware version: " ++ hex_text (version h) ++
  chars (crlf ++ "Size: ") ++ hex_text (size h) ++
  chars (" bytes" ++ crlf) ++
  chars ("Simulating flash programming..." ++ crlf) ++
  chars "Programming".

Definition success_text : list Z :=
  chars ("Firmware update successful!" ++ crlf) ++
  chars ("Note: This is a simulation - actual flash programming would occur here" ++ crlf).

Definition crc_mismatch_text : list Z := chars ("ERROR: CRC mismatch!" ++ crlf).

Definition header_ok (h : firmware_header_t) : bool :=
  (magic h =? BOOT_MAGIC) && negb (size h >? MAX_APP_SIZE).

(** Return value and output of the session after the header [h], as
    functions of the payload bytes [p] it consumed. *)
Definition session_result (h : firmware_header_t) (p : list Z) : bool :=
  header_ok h &&
  negb (Z.of_nat (List.length p) <? size h) &&
  (reflected_crc32 p =? crc32 h).

Definition session_text (h : firmware_header_t) (p : list Z) : list Z :=
  if negb (magic h =? BOOT_MAGIC) then
    chars "ERROR: Invalid magic - " ++ hex_text (magic h) ++ chars crlf
  else if size h >? MAX_APP_SIZE then
    chars ("ERROR: Firmware too large" ++ crlf)
  else
    announce_text h ++
    if Z.of_nat (List.length p) <? size h then
      dots (Z.of_nat (List.length p) / 128) ++ data_timeout_text
    else
      dots ((size h + 127) / 128) ++ chars (" done" ++ crlf) ++
      if reflected_crc32 p =? crc32 h then success_text
      else crc_mismatch_text.

Definition prompt_text : list Z :=
  chars ("Waiting for firmware header (30s timeout)..." ++ crlf).

Definition header_timeout_text : list Z :=
  chars ("ERROR: Header timeout" ++ crlf).

(** The same for the whole of [receive_firmware], as functions of all the
    bytes [rx] it consumed: the first 20 are the header. *)
Definition firmware_result (rx : list Z) : bool :=
  negb (Z.of_nat (List.length rx) <? sizeof_header) &&
  session_result (header_of_bytes (firstn 20 rx)) (skipn 20 rx).

Definition firmware_text (rx : list Z) : list Z :=
  prompt_text ++
  if Z.of_nat (List.length rx) <? sizeof_header then header_timeout_text
  else session_text (header_of_bytes (firstn 20 rx)) (skipn 20 rx).

(** Postcondition of the session after the header [h]. *)
Definition session_post (h : firmware_header_t) (w : world)
    (r : outcome bool) (w' : world) : Prop :=
  exists e,
    (w' = advance e w \/ w' = advance e (crc32_init_table w)) /\
    Forall is_byte (rx_of e) /\
    Z.of_nat (List.length (rx_of e)) <= (if header_ok h then size h else 0) /\
    (header_ok h = false -> w' = advance e w) /\
    match r with
    | Ret b =>
        b = session_result h (rx_of e) /\
        tx_of e = session_text h (rx_of e) /\
        (header_ok h = true -> w' = advance e (crc32_init_table w))
    | Stop OutOfFuel => True
    | Stop _ => False
    end.

(** Postcondition of [receive_firmware]. *)
Definition firmware_post (w : world) (r : outcome bool) (w' : world) : Prop :=
  exists e,
    (w' = advance e w \/ w' = advance e (crc32_init_table w)) /\
    Forall is_byte (rx_of e) /\
    (sizeof_header <= Z.of_nat (List.length (rx_of e)) ->
     let h := header_of_bytes (firstn 20 (rx_of e)) in
     Z.of_nat (List.length (rx_of e))
     <= sizeof_header + (if header_ok h then size h else 0)) /\
    match r with
    | Ret b =>
        b = firmware_result (rx_of e) /\
        tx_of e = firmware_text (rx_of e)
    | Stop OutOfFuel => True
    | Stop _ => False
    end.

(** Accesses made by printing: status reads and data-register writes. *)
Definition is_output (ev : event) : Prop :=
  match ev with
  | EvRead UART_STATUS _ | EvWrite UART_TX_DATA _ => True
  | _ => False
  end.

Definition output_only (e : list event) : Prop := Forall is_output e.

(** A header declaring one byte more than the application region holds. *)
Definition header_one_over : firmware_header_t :=
  mk_header BOOT_MAGIC 1 (MAX_APP_SIZE + 1) 0 0.

(** ** Update scenarios

    Scenario A: the header announces [size = 24] and carries the true
    CRC32 of the 4-byte payload DE AD BE EF; the sender transmits the 20
    header bytes and those 4 payload bytes, then nothing more.  The
    receiver is ready for exactly the 192 status reads the session makes
    up to the 24th byte; timer reads are 100 ms apart. *)
Definition scenario_a_hw : hardware :=
  scripted_hw 192 (header_bytes header_size24 ++ payload4) 5000000.

(** Scenario B: [size = 24], 24 payload bytes follow the header, and the
    stored CRC is the CRC of scenario A with its lowest bit flipped. *)
Definition header_bad_crc : firmware_header_t :=
  mk_header BOOT_MAGIC 1 24 0x7C9CA35B 0.

Definition payload24 : list Z := payload4 ++ repeat 0 20.

Definition scenario_b_hw : hardware :=
  scripted_hw 232 (header_bytes header_bad_crc ++ payload24) 5000000.

(** [pat] occurs in [l] as a contiguous run. *)
Fixpoint starts_with (pat l : list Z) : bool :=
  match pat, l with
  | [], _ => true
  | _ :: _, [] => false
  | p :: pat', x :: l' => (p =? x) && starts_with pat' l'
  end.

Fixpoint occurs (pat l : list Z) : bool :=
  starts_with pat l ||
  match l with
  | [] => false
  | _ :: l' => occurs pat l'
  end.

(** ** Boot controller vocabulary *)

(** The receiver never has a byte. *)
Definition no_input (hw : hardware) : Prop :=
  forall n, Z.land (u32 (status_in hw n)) UART_RX_READY = 0.

(** Milliseconds shown by the [i]-th timer read. *)
Definition ms_at (hw : hardware) (i : nat) : Z := ms_of (u32 (timer_in hw i)).

(** The clock makes progress: after any timer read [n] and for any wait
    [T] of at most 30 s, there are two consecutive later reads that both
    show more than [T] ms elapsed since read [n]. *)
Definition clock_live (hw : hardware) : Prop :=
  forall n T, T <= 30000 ->
    exists k, forall j, (k <= j <= k + 1)%nat ->
      sub32 (ms_at hw (n + 1 + j)) (ms_at hw n) > T.

(** Verdict on the image resident at [addr] in memory [m], with the
    payload CRC taken by the reference algorithm over the
    [size - sizeof(firmware_header_t)] bytes (a 32-bit difference) that
    follow the header. *)
Definition resident_verdict (m : Z -> Z) (addr : Z) : verdict :=
  let h := read_header m addr in
  validate h (reflected_crc32
                (bytes_at (fun i => load8 m (addr + sizeof_header + i))
                          (Z.to_nat (sub32 (size h) sizeof_header)))).

(** Accesses of one update session on which nothing arrived, and of an
    idle wait of at least [ms] milliseconds. *)
Definition failed_attempt (es : list event) : Prop :=
  rx_of es = [] /\ tx_of es = prompt_text ++ header_timeout_text.

Definition idle_delay (ms : Z) (ed : list event) : Prop :=
  quiet ed /\ Forall is_timer_read ed /\
  exists v0 v1, timed v0 v1 ed /\ ms <= sub32 (ms_of v1) (ms_of v0).

(** [n] failed attempts, each followed by its one-second delay (most
    recent first). *)
Inductive recovery_trace : nat -> list event -> Prop :=
| recovery_nil : recovery_trace 0 []
| recovery_cons (n : nat) (e es ed : list event) :
    recovery_trace n e -> failed_attempt es -> idle_delay 1000 ed ->
    recovery_trace (S n) (ed ++ es ++ e).

(** The software-visible state is untouched: same memory, same table. *)
Definition same_image (w w' : world) : Prop :=
  mem w' = mem w /\
  crc32_table w' = crc32_table w /\
  crc32_table_initialized w' = crc32_table_initialized w.

(** A clock cycling through 0 s, 31 s and 62 s, a transmitter that is
    always empty and a receiver that never has a byte. *)
Definition three_phase_hw : hardware :=
  mk_hardware (fun i => nth (i mod 3) [0; 1550000000; 3100000000] 0)
              (fun _ => 2) (fun _ => 0) (fun _ => 0).

(** An application region holding a header with a wrong magic. *)
Definition image_wrong_magic : Z -> Z :=
  image_at (header_bytes (mk_header 0xDEADBEEF 1 24 0x7C9CA35A 0) ++ payload4).

(** [w'] is reached from [w] without touching the application region or
    spoiling the table, the trace only growing. *)
Definition frame (w w' : world) : Prop :=
  mem w' = mem w /\ (table_inv w -> table_inv w') /\
  exists e, trace w' = e ++ trace w.

(** Outcomes open to code that neither jumps to the application nor
    enters the final empty loop. *)
Definition benign {A : Type} (r : outcome A) : Prop :=
  match r with
  | Ret _ | Stop OutOfFuel => True
  | Stop _ => False
  end.

Definition tame {A : Type} (c : M A) : Prop :=
  hoare c (fun w r w' => frame w w' /\ benign r).

(** Code that is still running whenever it is observed. *)
Definition never_returns {A : Type} (c : M A) : Prop :=
  hoare c (fun w r w' => frame w w' /\ r = Stop OutOfFuel).

(** ** Vocabulary for the remaining functions *)

(** Status reads that found the transmitter busy, or the receiver empty. *)
Definition busy_reads (mask : Z) (e : list event) : Prop :=
  Forall (fun ev => exists v, ev = EvRead UART_STATUS v /\ Z.land v mask = 0) e.

(** Decoding of the digits [uart_put_hex] prints. *)
Definition hex_digit_value (c : Z) : Z := if c <? 58 then c - 48 else c - 55.

Definition hex_decode (digits : list Z) : Z :=
  fold_left (fun acc c => 16 * acc + hex_digit_value c) digits 0.

Definition is_hex_digit (c : Z) : Prop := 48 <= c <= 57 \/ 65 <= c <= 70.

(** A transmitter that is busy for the first two status reads. *)
Definition slow_tx_hw : hardware :=
  mk_hardware (fun _ => 0) (fun i => if (i <? 2)%nat then 0 else 2)
              (fun _ => 0) (fun _ => 0).

(** A receiver whose byte 0x155 arrives at the third status read. *)
Definition late_rx_hw : hardware :=
  mk_hardware (fun _ => 0) (fun i => if (i <? 2)%nat then 2 else 3)
              (fun _ => 0x155) (fun _ => 0).

(** A timer read just before it wraps, then just after. *)
Definition wrapping_hw : hardware :=
  mk_hardware (fun i => if (i <? 1)%nat then 2 ^ 32 - 1 else 0)
              (fun _ => 2) (fun _ => 0) (fun _ => 0).

(** Memory [m] with the byte at address [p] replaced by [v]. *)
Definition poke (m : Z -> Z) (p v : Z) : Z -> Z :=
  fun a => if a =? p then v else m a.

(** What [bootloader_main] prints from "Application verified OK!" to the
    jump, for the resident header [h]. *)
Definition boot_text (h : firmware_header_t) : list Z :=
  chars ("Application verified OK!" ++ crlf) ++
  chars "App version: " ++ hex_text (version h) ++
  chars (crlf ++ "App size: ") ++ hex_text (size h) ++
  chars (" bytes" ++ crlf) ++
  chars ("Jumping to application..." ++ crlf).

(** The only ways a run of [bootloader_main] can be over: in the
    application, in the empty loop after an update, or still running. *)
Definition allowed_stop (s : stop) : Prop :=
  s = Jumped (APP_START_ADDR + sizeof_header) \/ s = Hang \/ s = OutOfFuel.

(** Code that does not return, and code that may. *)
Definition final_outcome {A : Type} (r : outcome A) : Prop :=
  match r with Ret _ => False | Stop s => allowed_stop s end.

Definition orderly {A : Type} (r : outcome A) : Prop :=
  match r with Ret _ => True | Stop s => allowed_stop s end.

(** A 50 MHz timer that wraps while the recovery loop is in its first
    inter-attempt delay: the readings are, in ticks, the start and the
    end of the offer window (52.896 s, 55.896 s), the start and the
    timeout of the first session (55.897 s, 85.8985 s), the two readings
    of the first delay (200 ticks apart, the counter passing 2^32 in
    between), then a second session and a second delay of 1001 ms.  The
    transmitter is always empty and nothing is ever received. *)
Definition wrap_hw : hardware :=
  mk_hardware
    (fun i => nth i [2644800000; 2794800000; 2794850000; 4294925000;
                     4294967200; 104;
                     100000; 1500150000; 1500200000; 1550250000] 0)
    (fun _ => 2) (fun _ => 0) (fun _ => 0).

(** The position of the first occurrence of [ev] in [t]. *)
Fixpoint find_event (ev_is : event -> bool) (t : list event) : nat :=
  match t with
  | [] => O
  | e :: t' => if ev_is e then O else Datatypes.S (find_event ev_is t')
  end.

(** A complete upload as [receive_firmware] counts it: a header whose
    size field is 4 and whose crc32 field is the CRC32 of DE AD BE EF,
    then those four bytes; the receiver always has the next byte ready. *)
Definition header_size4 : firmware_header_t :=
  mk_header BOOT_MAGIC 1 4 0x7C9CA35A 0.

Definition upload_hw : hardware :=
  scripted_hw 2000 (header_bytes header_size4 ++ payload4) 5000000.

(** An operator who has pressed 'U'. *)
Definition key_hw : hardware := scripted_hw 2000 [85] 5000000.

(** An image with an empty payload and a zero crc32 field. *)
Definition image_size20 : Z -> Z :=
  image_at (header_bytes (mk_header BOOT_MAGIC 1 20 0 0)).

(** The state at reset with an empty memory. *)
Definition blank : world := reset_world (fun _ => 0).

(** ** Recovery with input *)

(** A receiver that has announced a byte announces one again at some
    later status read: what a latched RX_READY flag gives the code, whose
    every wait for a byte follows a status read that showed one. *)
Definition rx_steady (hw : hardware) : Prop :=
  forall n, Z.land (u32 (status_in hw n)) UART_RX_READY <> 0 ->
    exists k, Z.land (u32 (status_in hw (n + 1 + k))) UART_RX_READY <> 0.

(** What the recovery loop prints after a session that returned [ok]. *)
Definition pass_report (ok : bool) : list Z :=
  if ok then chars ("Recovery successful! Please reset to boot." ++ crlf)
  else [].

(** [n] complete passes of the recovery loop (most recent first): each a
    complete update session [es], whatever its result, then the report
    [em] of a success, then the wait [ed]. *)
Inductive recovery_passes : nat -> list event -> Prop :=
| passes_nil : recovery_passes 0 []
| passes_cons (n : nat) (e es em ed : list event) :
    recovery_passes n e ->
    tx_of es = firmware_text (rx_of es) ->
    rx_of em = [] ->
    tx_of em = pass_report (firmware_result (rx_of es)) ->
    idle_delay 1000 ed ->
    recovery_passes (S n) (ed ++ em ++ es ++ e).

(** More fuel does not change a run that has returned. *)
Definition monotone {A : Type} (c : M A) : Prop :=
  forall fuel fuel' w a w',
    c fuel w = (Ret a, w') -> (fuel <= fuel')%nat -> c fuel' w = (Ret a, w').

(** A timer that counts seconds from 0 to 39 and starts again, one
    second per reading; a receiver that is silent for the first 300
    status reads and from then on always has the next byte of a complete
    upload (then zero bytes) ready. *)
Definition sawtooth (i : nat) : Z := Z.of_nat (i mod 40) * 50000000.

Definition late_upload_hw : hardware :=
  mk_hardware sawtooth
              (fun i => if (i <? 300)%nat then 2 else 3)
              (fun i => nth i (header_bytes header_size4 ++ payload4) 0)
              (fun _ => 0).

(** * Theorems *)

(** ** Integrity engine *)

Example crc32_check_value :
  fst (crc32_of_bytes [49; 50; 51; 52; 53; 54; 55; 56; 57] (reset_world (fun _ => 0)))
  = 0xCBF43926.
Proof. vm_compute. reflexivity. Qed.

Example reflected_check_value :
  reflected_crc32 [49; 50; 51; 52; 53; 54; 55; 56; 57] = 0xCBF43926.
Proof. vm_compute. reflexivity. Qed.

Lemma land_1_odd (x : Z) : Z.land x 1 = if Z.odd x then 1 else 0.
Proof.
  change 1 with (Z.ones 1) at 1.
  rewrite Z.land_ones by lia. change (2 ^ 1) with 2. apply Zmod_odd.
Qed.

Lemma crc32_bit_reflected (x : Z) : crc32_bit x = reflected_step x.
Proof.
  unfold crc32_bit, reflected_step.
  rewrite land_1_odd, Z.bit0_odd.
  destruct (Z.odd x); simpl negb; cbv iota.
  - reflexivity.
  - now rewrite Z.lxor_0_r.
Qed.

Lemma crc32_bits_iter (j : nat) (x : Z) :
  crc32_bits j x = Nat.iter j reflected_step x.
Proof.
  revert x. induction j as [|j IH]; intros x.
  - reflexivity.
  - cbn [crc32_bits]. rewrite IH, crc32_bit_reflected.
    now rewrite <- Nat.iter_succ_r.
Qed.

Ltac bits_case :=
  repeat match goal with
         | |- context [Z.testbit ?x ?n] => destruct (Z.testbit x n)
         end; reflexivity.

Lemma reflected_step_lxor (a b : Z) :
  reflected_step (Z.lxor a b) = Z.lxor (reflected_step a) (reflected_step b).
Proof.
  unfold reflected_step. rewrite Z.shiftr_lxor, Z.lxor_spec.
  apply Z.bits_inj'; intros n Hn.
  destruct (Z.testbit a 0), (Z.testbit b 0); cbn [xorb];
    rewrite !Z.lxor_spec; rewrite ?Z.bits_0; bits_case.
Qed.

Lemma iter_reflected_lxor (j : nat) (a b : Z) :
  Nat.iter j reflected_step (Z.lxor a b)
  = Z.lxor (Nat.iter j reflected_step a) (Nat.iter j reflected_step b).
Proof.
  induction j as [|j IH]; [reflexivity|].
  rewrite !Nat.iter_succ, IH. apply reflected_step_lxor.
Qed.

Lemma reflected_step_shiftl (y k : Z) :
  0 <= k -> reflected_step (Z.shiftl y (k + 1)) = Z.shiftl y k.
Proof.
  intros Hk. unfold reflected_step.
  rewrite Z.shiftl_spec_low by lia.
  rewrite Z.shiftr_shiftl_l by lia.
  rewrite Z.lxor_0_r. f_equal. lia.
Qed.

Lemma iter_reflected_shiftl (j : nat) (y : Z) :
  Nat.iter j reflected_step (Z.shiftl y (Z.of_nat j)) = y.
Proof.
  induction j as [|j IH].
  - apply Z.shiftl_0_r.
  - rewrite Nat.iter_succ_r.
    replace (Z.of_nat (S j)) with (Z.of_nat j + 1) by lia.
    rewrite reflected_step_shiftl by lia. exact IH.
Qed.

Lemma split_low_byte (x : Z) :
  x = Z.lxor (Z.land x 0xFF) (Z.shiftl (Z.shiftr x 8) 8).
Proof.
  apply Z.bits_inj'; intros n Hn.
  rewrite Z.lxor_spec, Z.land_spec.
  change 0xFF with (Z.ones 8).
  destruct (Z_lt_le_dec n 8) as [Hlt|Hge].
  - rewrite Z.ones_spec_low by lia.
    rewrite Z.shiftl_spec_low by lia.
    now rewrite andb_true_r, xorb_false_r.
  - rewrite Z.ones_spec_high by lia.
    rewrite Z.shiftl_spec by lia.
    rewrite Z.shiftr_spec by lia.
    rewrite andb_false_r, xorb_false_l. f_equal. lia.
Qed.

(** Eight bit steps of a value are the eight bit steps of its low byte,
    XORed with the remaining bits shifted down: the identity that makes the
    byte-at-a-time table algorithm correct. *)
Lemma reflected_low_byte (x : Z) :
  Nat.iter 8 reflected_step x
  = Z.lxor (Nat.iter 8 reflected_step (Z.land x 0xFF)) (Z.shiftr x 8).
Proof.
  rewrite (split_low_byte x) at 1.
  rewrite iter_reflected_lxor. f_equal.
  exact (iter_reflected_shiftl 8 (Z.shiftr x 8)).
Qed.

Lemma shiftr_lxor_byte (crc b : Z) :
  is_byte b -> Z.shiftr (Z.lxor crc b) 8 = Z.shiftr crc 8.
Proof.
  intros Hb. rewrite Z.shiftr_lxor.
  replace (Z.shiftr b 8) with 0; [apply Z.lxor_0_r|].
  rewrite Z.shiftr_div_pow2 by lia. symmetry.
  apply Z.div_small. unfold is_byte in Hb. change (2 ^ 8) with 256. lia.
Qed.

Lemma land_FF_range (x : Z) : 0 <= Z.land x 0xFF < 256.
Proof.
  change 0xFF with (Z.ones 8). rewrite Z.land_ones by lia.
  change (2 ^ 8) with 256. apply Z.mod_pos_bound. lia.
Qed.

Lemma store_nat_length (l : list Z) (i : nat) (v : Z) :
  List.length (store_nat l i v) = List.length l.
Proof.
  revert i; induction l as [|h t IH]; intros [|i]; cbn; auto.
Qed.

Lemma store_nat_nth (l : list Z) (i k : nat) (v d : Z) :
  (i < List.length l)%nat ->
  nth k (store_nat l i v) d = if Nat.eqb k i then v else nth k l d.
Proof.
  revert i k; induction l as [|h t IH]; intros i k Hi; cbn in Hi; [lia|].
  destruct i as [|i], k as [|k]; cbn; auto.
  apply IH. lia.
Qed.

Lemma store_length (l : list Z) (i v : Z) :
  List.length (store l i v) = List.length l.
Proof. apply store_nat_length. Qed.

Lemma index_store (l : list Z) (i k v : Z) :
  0 <= i -> 0 <= k -> (Z.to_nat i < List.length l)%nat ->
  index (store l i v) k = if k =? i then v else index l k.
Proof.
  intros Hi Hk Hlen. unfold index, store.
  rewrite store_nat_nth by assumption.
  destruct (Z.eqb_spec k i) as [->|Hne].
  - now rewrite Nat.eqb_refl.
  - destruct (Nat.eqb_spec (Z.to_nat k) (Z.to_nat i)); [lia|reflexivity].
Qed.

Lemma crc32_fill_length (n : nat) (i : Z) (t : list Z) :
  List.length (crc32_fill n i t) = List.length t.
Proof.
  revert i t; induction n as [|n IH]; intros i t; cbn [crc32_fill]; auto.
  now rewrite IH, store_length.
Qed.

Lemma crc32_fill_index (n : nat) (i k : Z) (t : list Z) :
  0 <= i -> 0 <= k -> (Z.to_nat i + n <= List.length t)%nat ->
  index (crc32_fill n i t) k
  = if (i <=? k) && (k <? i + Z.of_nat n) then crc32_bits 8 k else index t k.
Proof.
  revert i t; induction n as [|n IH]; intros i t Hi Hk Hlen.
  - cbn [crc32_fill].
    destruct (Z.leb_spec i k), (Z.ltb_spec k (i + Z.of_nat 0)); cbn; auto; lia.
  - cbn [crc32_fill]. rewrite IH; try lia.
    2:{ rewrite store_length. lia. }
    rewrite index_store by lia.
    destruct (Z.leb_spec (i + 1) k), (Z.ltb_spec k (i + 1 + Z.of_nat n)),
      (Z.leb_spec i k), (Z.ltb_spec k (i + Z.of_nat (S n))),
      (Z.eqb_spec k i); cbn; subst; auto; lia.
Qed.

Lemma crc32_init_table_inv (w : world) :
  table_inv w ->
  table_inv (crc32_init_table w) /\ crc32_table_initialized (crc32_init_table w) = true.
Proof.
  intros [Hlen Hok]. unfold crc32_init_table.
  destruct (crc32_table_initialized w) eqn:E.
  - repeat split; auto.
  - unfold set_table, table_inv; cbn [crc32_table crc32_table_initialized].
    repeat split.
    + now rewrite crc32_fill_length.
    + intros _ i Hi. rewrite crc32_fill_index by lia.
      destruct (Z.leb_spec 0 i), (Z.ltb_spec i (0 + Z.of_nat 256)); cbn; auto; lia.
Qed.

Lemma crc32_init_table_idem (w : world) :
  crc32_table_initialized w = true -> crc32_init_table w = w.
Proof. unfold crc32_init_table. now intros ->. Qed.

Lemma reset_world_inv (m : Z -> Z) : table_inv (reset_world m).
Proof. split; [reflexivity|discriminate]. Qed.

(** One table-driven byte step is eight reflected bit steps. *)
Lemma crc32_step_reflected (table : list Z) (crc b : Z) :
  (forall i, 0 <= i < 256 -> index table i = crc32_bits 8 i) ->
  is_byte b ->
  crc32_step table crc b = reflected_byte crc b.
Proof.
  intros Ht Hb. unfold crc32_step, reflected_byte.
  rewrite (reflected_low_byte (Z.lxor crc b)).
  rewrite shiftr_lxor_byte by assumption.
  rewrite Ht by apply land_FF_range.
  now rewrite crc32_bits_iter.
Qed.

Lemma u8_is_byte (x : Z) : is_byte (u8 x).
Proof. apply Z.mod_pos_bound. lia. Qed.

Lemma crc32_loop_reflected (table : list Z) (data : Z -> Z) (n : nat)
    (i : nat) (crc : Z) :
  (forall k, 0 <= k < 256 -> index table k = crc32_bits 8 k) ->
  crc32_loop table data n (Z.of_nat i) crc
  = fold_left reflected_byte
      (map (fun k => u8 (data (Z.of_nat k))) (seq i n)) crc.
Proof.
  intros Ht. revert i crc; induction n as [|n IH]; intros i crc.
  - reflexivity.
  - cbn [crc32_loop seq map fold_left].
    rewrite crc32_step_reflected by (auto using u8_is_byte).
    replace (Z.of_nat i + 1) with (Z.of_nat (S i)) by lia.
    apply IH.
Qed.

Lemma crc32_loop_fold (table : list Z) (data : Z -> Z) (n i : nat) (crc : Z) :
  crc32_loop table data n (Z.of_nat i) crc
  = fold_left (crc32_step table)
      (map (fun k => u8 (data (Z.of_nat k))) (seq i n)) crc.
Proof.
  revert i crc; induction n as [|n IH]; intros i crc; [reflexivity|].
  cbn [crc32_loop seq map fold_left].
  replace (Z.of_nat i + 1) with (Z.of_nat (S i)) by lia.
  apply IH.
Qed.

Lemma map_index_seq (l : list Z) (f : Z -> Z) :
  map (fun k => f (index l (Z.of_nat k))) (seq 0 (List.length l)) = map f l.
Proof.
  induction l as [|h t IH]; [reflexivity|].
  cbn [List.length seq map]. f_equal.
  rewrite <- seq_shift, map_map, <- IH.
  apply map_ext. intros k. unfold index. now rewrite !Nat2Z.id.
Qed.

Lemma crc32_fold_chunk_fold (table : list Z) (crc : Z) (chunk : list Z) :
  crc32_fold_chunk table crc chunk
  = fold_left (crc32_step table) (map u8 chunk) crc.
Proof.
  unfold crc32_fold_chunk.
  rewrite (crc32_loop_fold table (index chunk) (List.length chunk) 0).
  now rewrite map_index_seq.
Qed.

Lemma fold_chunks_concat (table : list Z) (chunks : list (list Z)) (crc : Z) :
  fold_left (crc32_fold_chunk table) chunks crc
  = crc32_fold_chunk table crc (List.concat chunks).
Proof.
  revert crc; induction chunks as [|c cs IH]; intros crc; [reflexivity|].
  cbn [fold_left List.concat]. rewrite IH.
  rewrite !crc32_fold_chunk_fold, map_app, fold_left_app. reflexivity.
Qed.

(** C3: folding the chunks of any partition of a byte sequence one at a
    time into the running accumulator (started at 0xFFFFFFFF, complemented
    once at the end) gives the same 32-bit value, and leaves the same
    state, as one call of [crc32_calculate] over the assembled sequence. *)
Theorem crc32_incremental_agrees (w : world) (chunks : list (list Z)) :
  crc32_incremental chunks w = crc32_of_bytes (List.concat chunks) w.
Proof.
  unfold crc32_incremental, crc32_of_bytes, crc32_calculate.
  rewrite fold_chunks_concat, Nat2Z.id. reflexivity.
Qed.

Lemma lxor_range (a b n : Z) :
  0 <= n -> 0 <= a < 2 ^ n -> 0 <= b < 2 ^ n -> 0 <= Z.lxor a b < 2 ^ n.
Proof.
  intros Hn Ha Hb.
  assert (H0 : 0 <= Z.lxor a b) by (apply Z.lxor_nonneg; lia).
  split; [assumption|].
  destruct (Z.eq_dec (Z.lxor a b) 0) as [E|Hne].
  { rewrite E. apply Z.pow_pos_nonneg; lia. }
  assert (Hpos : 0 < Z.lxor a b) by lia.
  assert (Hn' : 0 < n).
  { destruct (Z.eq_dec n 0) as [->|]; [|lia].
    change (2 ^ 0) with 1 in Ha, Hb.
    replace a with 0 in Hne by lia. replace b with 0 in Hne by lia.
    now elim Hne. }
  apply Z.log2_lt_pow2; [assumption|].
  eapply Z.le_lt_trans; [apply Z.log2_lxor; lia|].
  apply Z.max_lub_lt.
  - destruct (Z.eq_dec a 0) as [->|]; [cbn; lia|apply Z.log2_lt_pow2; lia].
  - destruct (Z.eq_dec b 0) as [->|]; [cbn; lia|apply Z.log2_lt_pow2; lia].
Qed.

Lemma reflected_step_range (x : Z) :
  0 <= x < 2 ^ 32 -> 0 <= reflected_step x < 2 ^ 32.
Proof.
  intros Hx. unfold reflected_step. apply lxor_range; [lia| |].
  - rewrite Z.shiftr_div_pow2 by lia. change (2 ^ 1) with 2.
    split; [apply Z.div_pos; lia|].
    apply Z.div_lt_upper_bound; lia.
  - destruct (Z.testbit x 0); lia.
Qed.

Lemma reflected_byte_range (crc b : Z) :
  0 <= crc < 2 ^ 32 -> is_byte b -> 0 <= reflected_byte crc b < 2 ^ 32.
Proof.
  intros Hc Hb. unfold reflected_byte.
  assert (H0 : 0 <= Z.lxor crc b < 2 ^ 32).
  { apply lxor_range; [lia|assumption|]. unfold is_byte in Hb. lia. }
  do 8 (rewrite Nat.iter_succ; apply reflected_step_range).
  exact H0.
Qed.

Lemma reflected_fold_range (bytes : list Z) (crc : Z) :
  Forall is_byte bytes -> 0 <= crc < 2 ^ 32 ->
  0 <= fold_left reflected_byte bytes crc < 2 ^ 32.
Proof.
  intros Hb; revert crc; induction Hb as [|b bs Hb _ IH]; intros crc Hc.
  - exact Hc.
  - cbn [fold_left]. apply IH. now apply reflected_byte_range.
Qed.

Lemma not32_lxor (x : Z) : 0 <= x < 2 ^ 32 -> not32 x = Z.lxor x 0xFFFFFFFF.
Proof.
  intros Hx. unfold not32, u32.
  change 0xFFFFFFFF with (Z.ones 32).
  rewrite <- Z.land_ones by lia.
  apply Z.bits_inj'; intros n Hn.
  rewrite Z.land_spec, Z.lxor_spec, Z.lnot_spec by lia.
  destruct (Z_lt_le_dec n 32).
  - rewrite Z.ones_spec_low by lia.
    now rewrite andb_true_r, xorb_true_r.
  - rewrite Z.ones_spec_high by lia.
    rewrite andb_false_r, xorb_false_r. symmetry.
    apply Z.bits_above_log2; [lia|].
    destruct (Z.eq_dec x 0) as [->|]; [cbn; lia|].
    apply Z.lt_le_trans with 32; [apply Z.log2_lt_pow2; lia|lia].
Qed.

Lemma bytes_at_Forall (data : Z -> Z) (n : nat) : Forall is_byte (bytes_at data n).
Proof.
  unfold bytes_at. apply Forall_forall. intros x Hx.
  apply in_map_iff in Hx as (k & <- & _). apply u8_is_byte.
Qed.

(** C4: [crc32_init_table] runs before the table is read, every entry [i]
    of the built table is eight reflected bit steps (shift right by one,
    XOR 0xEDB88320 when the low bit was set) started from [i], and hence
    [crc32_calculate] is the reflected CRC32 with initial value 0xFFFFFFFF
    and final complement of the bytes it is given, also from the reset
    state where the table is still all zero. *)
Theorem crc32_table_is_reference (w : world) (data : Z -> Z) (length : Z) :
  table_inv w ->
  let w1 := crc32_init_table w in
  crc32_table_initialized w1 = true /\
  List.length (crc32_table w1) = 256%nat /\
  (forall i, 0 <= i < 256 ->
     index (crc32_table w1) i = Nat.iter 8 reflected_step i) /\
  crc32_calculate data length w
  = (reflected_crc32 (bytes_at data (Z.to_nat length)), w1).
Proof.
  intros Hinv w1.
  destruct (crc32_init_table_inv w Hinv) as [[Hlen Htab] Hinit].
  fold w1 in Hlen, Htab, Hinit. specialize (Htab Hinit).
  repeat split; auto.
  - intros i Hi. rewrite Htab by assumption. apply crc32_bits_iter.
  - unfold crc32_calculate. fold w1. f_equal.
    rewrite (crc32_loop_reflected _ data (Z.to_nat length) 0) by assumption.
    unfold reflected_crc32. fold (bytes_at data (Z.to_nat length)).
    apply not32_lxor. apply reflected_fold_range; [apply bytes_at_Forall|lia].
Qed.

Lemma crc32_table_is_reference_witness :
  let w := reset_world (fun _ => 0) in
  let data := index [49; 50; 51; 52; 53; 54; 55; 56; 57] in
  table_inv w /\
  crc32_calculate data 9 w = (0xCBF43926, crc32_init_table w).
Proof.
  split; [apply reset_world_inv|].
  exact (proj2 (proj2 (proj2
    (crc32_table_is_reference (reset_world (fun _ => 0))
       (index [49; 50; 51; 52; 53; 54; 55; 56; 57]) 9
       (reset_world_inv _))))).
Defined.

(** ** The execution monad *)

Lemma advance_app (e2 e1 : list event) (w : world) :
  advance (e2 ++ e1) w = advance e2 (advance e1 w).
Proof. unfold advance. apply fold_right_app. Qed.

Lemma advance_fields (evs : list event) (w : world) :
  crc32_table (advance evs w) = crc32_table w /\
  crc32_table_initialized (advance evs w) = crc32_table_initialized w /\
  last_dot (advance evs w) = last_dot w /\
  mem (advance evs w) = mem w /\
  trace (advance evs w) = evs ++ trace w.
Proof.
  induction evs as [|e evs IH]; cbn; [tauto|].
  destruct IH as (? & ? & ? & ? & ?). repeat split; auto. now f_equal.
Qed.

Lemma advance_table evs w : crc32_table (advance evs w) = crc32_table w.
Proof. apply advance_fields. Qed.
Lemma advance_initialized evs w :
  crc32_table_initialized (advance evs w) = crc32_table_initialized w.
Proof. apply advance_fields. Qed.
Lemma advance_last_dot evs w : last_dot (advance evs w) = last_dot w.
Proof. apply advance_fields. Qed.
Lemma advance_mem evs w : mem (advance evs w) = mem w.
Proof. apply advance_fields. Qed.
Lemma advance_trace evs w : trace (advance evs w) = evs ++ trace w.
Proof. apply advance_fields. Qed.

Lemma tx_of_app (a b : list event) : tx_of (a ++ b) = tx_of b ++ tx_of a.
Proof.
  induction a as [|e a IH]; cbn [app tx_of]; [now rewrite app_nil_r|].
  destruct e as [r v|[] v|]; auto. now rewrite IH, app_assoc.
Qed.

Lemma rx_of_app (a b : list event) : rx_of (a ++ b) = rx_of b ++ rx_of a.
Proof.
  induction a as [|e a IH]; cbn [app rx_of]; [now rewrite app_nil_r|].
  destruct e as [[] v|r v|]; auto. now rewrite IH, app_assoc.
Qed.

Lemma bind_inv {A B : Type} (c : M A) (k : A -> M B) fuel w r w' :
  bind c k fuel w = (r, w') ->
  (exists a w1, c fuel w = (Ret a, w1) /\ k a fuel w1 = (r, w')) \/
  (exists s, c fuel w = (Stop s, w') /\ r = Stop s).
Proof.
  unfold bind. destruct (c fuel w) as [[a|s] w1]; intros H.
  - left; eauto.
  - right. inversion H; subst. eauto.
Qed.

Lemma hoare_conseq {A : Type} (c : M A) (Q Q' : world -> outcome A -> world -> Prop) :
  hoare c Q -> (forall w r w', Q w r w' -> Q' w r w') -> hoare c Q'.
Proof. unfold hoare; eauto. Qed.

Lemma hoare_bind {A B : Type} (c : M A) (k : A -> M B) Q1 Q2
    (Q : world -> outcome B -> world -> Prop) :
  hoare c Q1 ->
  (forall a, hoare (k a) (Q2 a)) ->
  (forall w a w1 r w2, Q1 w (Ret a) w1 -> Q2 a w1 r w2 -> Q w r w2) ->
  (forall w s w1, Q1 w (Stop s) w1 -> Q w (Stop s) w1) ->
  hoare (bind c k) Q.
Proof.
  intros Hc Hk Hret Hstop fuel w r w' Hrun.
  apply bind_inv in Hrun as [(a & w1 & H1 & H2)|(s & H1 & ->)].
  - eapply Hret; [eapply Hc|eapply Hk]; eassumption.
  - eapply Hstop, Hc; eassumption.
Qed.

Lemma hoare_loop_n {S A : Type} (body : S -> M (S + A))
    (I : world -> S -> world -> Prop)
    (Q : world -> outcome A -> world -> Prop) (w0 : world) :
  (forall s fuel w r w',
      I w0 s w -> body s fuel w = (r, w') ->
      match r with
      | Ret (inl s') => I w0 s' w'
      | Ret (inr a) => Q w0 (Ret a) w'
      | Stop st => Q w0 (Stop st) w'
      end) ->
  (forall s w, I w0 s w -> Q w0 (Stop OutOfFuel) w) ->
  forall n s fuel w r w',
    I w0 s w -> loop_n body n s fuel w = (r, w') -> Q w0 r w'.
Proof.
  intros Hbody Hfuel n; induction n as [|n IH]; intros s fuel w r w' HI Hrun.
  - cbn in Hrun. inversion Hrun; subst. eauto.
  - cbn [loop_n] in Hrun.
    destruct (body s fuel w) as [[[s'|a]|st] w1] eqn:E;
      pose proof (Hbody _ _ _ _ _ HI E) as Hb; cbn in Hb.
    + eapply IH; eassumption.
    + inversion Hrun; subst. exact Hb.
    + inversion Hrun; subst. exact Hb.
Qed.

Lemma hoare_while {S A : Type} (body : S -> M (S + A))
    (I : world -> S -> world -> Prop)
    (Q : world -> outcome A -> world -> Prop) (s0 : S) :
  (forall w0, I w0 s0 w0) ->
  (forall w0 s fuel w r w',
      I w0 s w -> body s fuel w = (r, w') ->
      match r with
      | Ret (inl s') => I w0 s' w'
      | Ret (inr a) => Q w0 (Ret a) w'
      | Stop st => Q w0 (Stop st) w'
      end) ->
  (forall w0 s w, I w0 s w -> Q w0 (Stop OutOfFuel) w) ->
  hoare (while body s0) Q.
Proof.
  intros H0 Hbody Hfuel fuel w r w' Hrun. unfold while in Hrun.
  eapply (hoare_loop_n body I Q w (Hbody w) (Hfuel w)); [apply H0|exact Hrun].
Qed.

(** *** Rules for register-only computations *)

Lemma io_conseq {A : Type} (c : M A) (Q Q' : world -> outcome A -> list event -> Prop) :
  io_spec c Q -> (forall w r e, Q w r e -> Q' w r e) -> io_spec c Q'.
Proof.
  intros Hc HQ fuel w r w' Hrun.
  destruct (Hc _ _ _ _ Hrun) as (evs & -> & H). eauto.
Qed.

Lemma io_ret {A : Type} (a : A) (Q : world -> outcome A -> list event -> Prop) :
  (forall w, Q w (Ret a) []) -> io_spec (ret a) Q.
Proof.
  intros HQ fuel w r w' Hrun. inversion Hrun; subst.
  exists []. split; [reflexivity|apply HQ].
Qed.

Lemma io_bind {A B : Type} (c : M A) (k : A -> M B) Q1 Q2
    (Q : world -> outcome B -> list event -> Prop) :
  io_spec c Q1 ->
  (forall a, io_spec (k a) (Q2 a)) ->
  (forall w a e1 r e2,
      Q1 w (Ret a) e1 -> Q2 a (advance e1 w) r e2 -> Q w r (e2 ++ e1)) ->
  (forall w s e, Q1 w (Stop s) e -> Q w (Stop s) e) ->
  io_spec (bind c k) Q.
Proof.
  intros Hc Hk Hret Hstop. unfold io_spec.
  eapply hoare_bind; [exact Hc|exact Hk| |].
  - intros w a w1 r w2 (e1 & -> & H1) (e2 & -> & H2).
    exists (e2 ++ e1). split; [now rewrite advance_app|eauto].
  - intros w s w1 (e & -> & H1). eauto.
Qed.

Lemma io_while {S A : Type} (body : S -> M (S + A))
    (I : world -> S -> list event -> Prop)
    (Q : world -> outcome A -> list event -> Prop) (s0 : S) :
  (forall w0, I w0 s0 []) ->
  (forall s, io_spec (body s) (fun w r e =>
      forall w0 e0, w = advance e0 w0 -> I w0 s e0 ->
      match r with
      | Ret (inl s') => I w0 s' (e ++ e0)
      | Ret (inr a) => Q w0 (Ret a) (e ++ e0)
      | Stop st => Q w0 (Stop st) (e ++ e0)
      end)) ->
  (forall w0 s e0, I w0 s e0 -> Q w0 (Stop OutOfFuel) e0) ->
  io_spec (while body s0) Q.
Proof.
  intros H0 Hbody Hfuel. unfold io_spec.
  apply (hoare_while body
           (fun w0 s w => exists e0, w = advance e0 w0 /\ I w0 s e0)).
  - intros w0. exists []. split; [reflexivity|apply H0].
  - intros w0 s fuel w r w' (e0 & -> & HI) Hrun.
    destruct (Hbody s _ _ _ _ Hrun) as (e & -> & Hb).
    specialize (Hb w0 e0 eq_refl HI).
    destruct r as [[s'|a]|st]; exists (e ++ e0);
      (split; [now rewrite advance_app|exact Hb]).
  - intros w0 s w (e0 & -> & HI). eauto.
Qed.

Section Proofs.

Variable hw : hardware.

Lemma io_read_reg (r : reg) :
  io_spec (read_reg hw r)
    (fun _ res e => exists v, res = Ret v /\ e = [EvRead r v] /\
                              0 <= v < 2 ^ 32).
Proof.
  intros fuel w res w' Hrun. unfold read_reg in Hrun.
  inversion Hrun; subst; clear Hrun.
  match goal with |- context [EvRead r ?x] => set (v := x) end.
  exists [EvRead r v]. split; [reflexivity|].
  exists v. repeat split; try reflexivity; apply Z.mod_pos_bound; lia.
Qed.

Lemma io_write_reg (r : reg) (v : Z) :
  io_spec (write_reg r v)
    (fun _ res e => res = Ret tt /\ e = [EvWrite r (u32 v)]).
Proof.
  intros fuel w res w' Hrun. inversion Hrun; subst.
  exists [EvWrite r (u32 v)]. split; [reflexivity|]. auto.
Qed.


(** *** Basic I/O functions *)

(** Waiting for the transmitter reads the status register only. *)
Lemma io_wait_tx :
  io_spec (while (fun _ : unit =>
                    s <- read_reg hw UART_STATUS ;;
                    if negb (negb (Z.land s UART_TX_EMPTY =? 0))
                    then continue tt else break tt) tt)
    (fun _ r e => quiet e /\ (r = Ret tt \/ r = Stop OutOfFuel)).
Proof.
  apply (io_while _ (fun _ _ e => quiet e)).
  - intros _. split; reflexivity.
  - intros []. eapply io_bind with
      (Q2 := fun s _ (r : outcome (unit + unit)) e =>
               e = [] /\ exists x, r = Ret x).
    + apply io_read_reg.
    + intros s. destruct (negb (negb (Z.land s UART_TX_EMPTY =? 0)));
        apply io_ret; intros; eauto.
    + intros w a e1 r e2 (v & Hv & -> & _) (-> & x & ->) w0 e0 _ [Ht Hr].
      cbn [app]. destruct x as [[]|[]]; repeat split; cbn; auto.
    + intros w s e (v & Hv & _). discriminate.
  - intros w0 s e0 H. auto.
Qed.

Lemma io_uart_putc (c : Z) : io_spec (uart_putc hw c) (emits [u32 c]).
Proof.
  unfold uart_putc.
  eapply io_bind; [apply io_wait_tx|intros; apply io_write_reg| |].
  - intros w a e1 r e2 [[Ht Hr] _] [-> ->].
    split; [rewrite rx_of_app, Hr; reflexivity|].
    rewrite tx_of_app, Ht. reflexivity.
  - intros w s e [[Ht Hr] [H|H]]; [discriminate|].
    inversion H; subst. split; [assumption|].
    exists [u32 c]. now rewrite Ht.
Qed.

(** Sequencing two output-only computations concatenates their texts. *)
Lemma io_seq_emits {A B : Type} (c : M A) (k : A -> M B) (t1 t2 : list Z) :
  io_spec c (emits t1) -> (forall a, io_spec (k a) (emits t2)) ->
  io_spec (bind c k) (emits (t1 ++ t2)).
Proof.
  intros Hc Hk. eapply io_bind; [exact Hc|exact Hk| |].
  - intros w a e1 r e2 [Hr1 Ht1] [Hr2 Ht2]. cbn in Ht1.
    split; [rewrite rx_of_app, Hr1, Hr2; reflexivity|].
    rewrite tx_of_app, Ht1. destruct r as [b|[| |]]; auto.
    + now rewrite Ht2.
    + destruct Ht2 as (rest & ->). exists rest. now rewrite app_assoc.
  - intros w s e [Hr Ht]. split; [assumption|].
    destruct s; auto. destruct Ht as (rest & ->).
    exists (rest ++ t2). now rewrite app_assoc.
Qed.

Lemma io_emits_nil {A : Type} (a : A) : io_spec (ret a) (emits []).
Proof. apply io_ret. intros; split; reflexivity. Qed.

Lemma u32_ascii (c : ascii) : u32 (Z.of_nat (nat_of_ascii c)) = Z.of_nat (nat_of_ascii c).
Proof.
  apply Z.mod_small. pose proof (nat_ascii_bounded c).
  change (2 ^ 32) with 4294967296. lia.
Qed.

Lemma chars_cons (c : ascii) (s : string) :
  chars (String c s) = Z.of_nat (nat_of_ascii c) :: chars s.
Proof. reflexivity. Qed.

Lemma chars_app (s t : string) : chars (s ++ t) = chars s ++ chars t.
Proof.
  induction s as [|c s IH]; [reflexivity|].
  cbn [append]. rewrite !chars_cons, IH. reflexivity.
Qed.

Lemma io_uart_puts (str : string) : io_spec (uart_puts hw str) (emits (chars str)).
Proof.
  induction str as [|c str IH]; cbn [uart_puts].
  - apply io_emits_nil.
  - rewrite chars_cons.
    change (?x :: chars str) with ([x] ++ chars str).
    apply io_seq_emits; [|intros; exact IH].
    rewrite <- (u32_ascii c) at 2. apply io_uart_putc.
Qed.


Lemma hex_digit_u32 (x : Z) :
  u32 (hex_digit (Z.land x 0xF)) = hex_digit (Z.land x 0xF).
Proof.
  assert (H : 0 <= Z.land x 0xF < 16).
  { change 0xF with (Z.ones 4). rewrite Z.land_ones by lia.
    apply Z.mod_pos_bound. reflexivity. }
  apply Z.mod_small. unfold hex_digit.
  change (2 ^ 32) with 4294967296.
  destruct (Z.ltb_spec (Z.land x 0xF) 10); lia.
Qed.

Lemma io_uart_put_hex_digits (n : nat) (value : Z) :
  io_spec (uart_put_hex_digits hw n value)
    (emits (map (fun k => hex_digit (Z.land (Z.shiftr value (4 * Z.of_nat k)) 0xF))
                (rev (seq 0 n)))).
Proof.
  induction n as [|n IH]; cbn [uart_put_hex_digits].
  - apply io_emits_nil.
  - rewrite seq_S, rev_app_distr. cbn [rev app map Nat.add].
    change (?x :: ?l) with ([x] ++ l).
    apply io_seq_emits; [|intros; exact IH].
    rewrite <- hex_digit_u32 at 2. apply io_uart_putc.
Qed.

Lemma io_uart_put_hex (value : Z) :
  io_spec (uart_put_hex hw value) (emits (hex_text value)).
Proof.
  unfold uart_put_hex, hex_text.
  apply io_seq_emits; [apply io_uart_puts|intros; apply io_uart_put_hex_digits].
Qed.

Lemma io_uart_rx_ready :
  io_spec (uart_rx_ready hw)
    (fun _ r e => exists v, e = [EvRead UART_STATUS v] /\
                            r = Ret (negb (Z.land v UART_RX_READY =? 0))).
Proof.
  unfold uart_rx_ready.
  eapply io_bind; [apply io_read_reg| | |].
  - intros s. apply io_ret with
      (Q := fun _ r e => e = [] /\ r = Ret (negb (Z.land s UART_RX_READY =? 0))).
    auto.
  - intros w a e1 r e2 (v & Hv & -> & _) (-> & ->).
    inversion Hv; subst. exists v. auto.
  - intros w s e (v & Hv & _). discriminate.
Qed.

Lemma io_wait_rx :
  io_spec (while (fun _ : unit =>
                    r <- uart_rx_ready hw ;;
                    if negb r then continue tt else break tt) tt)
    (fun _ r e => quiet e /\ (r = Ret tt \/ r = Stop OutOfFuel)).
Proof.
  apply (io_while _ (fun _ _ e => quiet e)).
  - intros _. split; reflexivity.
  - intros []. eapply io_bind with
      (Q2 := fun s _ (r : outcome (unit + unit)) e =>
               e = [] /\ exists x, r = Ret x).
    + apply io_uart_rx_ready.
    + intros s. destruct (negb s); apply io_ret; intros; eauto.
    + intros w a e1 r e2 (v & -> & _) (-> & x & ->) w0 e0 _ [Ht Hr].
      cbn [app]. destruct x as [[]|[]]; repeat split; cbn; auto.
    + intros w s e (v & _ & Hv). discriminate.
  - intros w0 s e0 H. auto.
Qed.

Lemma io_read_data :
  io_spec (v <- read_reg hw UART_TX_DATA ;; ret (u8 v))
    (fun _ (r : outcome Z) e =>
       exists v, e = [EvRead UART_TX_DATA v] /\ r = Ret (u8 v)).
Proof.
  eapply io_bind; [apply io_read_reg| | |].
  - intros v. apply io_ret with
      (Q := fun _ r e => e = [] /\ r = Ret (u8 v)). auto.
  - intros w a e1 r e2 (v & Hv & -> & _) (-> & ->).
    inversion Hv; subst. exists v. auto.
  - intros w s e (v & Hv & _). discriminate.
Qed.

Lemma io_uart_getc :
  io_spec (uart_getc hw)
    (fun _ r e =>
       tx_of e = [] /\
       match r with
       | Ret c => rx_of e = [c] /\ is_byte c
       | Stop OutOfFuel => rx_of e = []
       | Stop _ => False
       end).
Proof.
  unfold uart_getc.
  eapply io_bind; [apply io_wait_rx|intros a; apply io_read_data| |].
  - intros w a e1 r e2 [[Ht Hr] _] (v & -> & ->).
    rewrite tx_of_app, Ht. split; [reflexivity|].
    rewrite rx_of_app, Hr. split; [reflexivity|apply u8_is_byte].
  - intros w s e [[Ht Hr] [H|H]]; [discriminate|].
    inversion H; subst. auto.
Qed.

Lemma io_get_time_ms :
  io_spec (get_time_ms hw)
    (fun _ r e => exists v, e = [EvRead TIMER_VALUE v] /\ r = Ret (ms_of v) /\
                            0 <= v < 2 ^ 32).
Proof.
  unfold get_time_ms.
  eapply io_bind; [apply io_read_reg| | |].
  - intros t. apply io_ret with
      (Q := fun _ r e => e = [] /\ r = Ret (t / 50000)). auto.
  - intros w a e1 r e2 (v & Hv & -> & Hr) (-> & ->).
    inversion Hv; subst. exists v. auto.
  - intros w s e (v & Hv & _). discriminate.
Qed.

Ltac bind_step H a w1 H1 :=
  apply bind_inv in H as [(a & w1 & H1 & H)|(?s & H1 & ->)].

Ltac ret_inv H :=
  unfold ret, continue, break in H; inversion H; subst; clear H.

Lemma io_delay_ms (ms : Z) :
  io_spec (delay_ms hw ms)
    (fun _ r e =>
       quiet e /\ Forall is_timer_read e /\
       match r with
       | Ret _ => exists v0 v1, timed v0 v1 e /\
                                ~ sub32 (ms_of v1) (ms_of v0) < ms
       | Stop OutOfFuel => True
       | Stop _ => False
       end).
Proof.
  unfold delay_ms.
  eapply io_bind with
    (Q2 := fun start _ (r : outcome unit) e =>
             quiet e /\ Forall is_timer_read e /\
             match r with
             | Ret _ => exists v1 mid, e = EvRead TIMER_VALUE v1 :: mid /\
                                       ~ sub32 (ms_of v1) start < ms
             | Stop OutOfFuel => True
             | Stop _ => False
             end);
    [apply io_get_time_ms| | |].
  - intros start.
    apply (io_while _ (fun _ _ e => quiet e /\ Forall is_timer_read e)).
    + intros _. repeat split; constructor.
    + intros [] fuel w r w' Hrun.
      bind_step Hrun now w1 H1;
        apply io_get_time_ms in H1 as (e1 & -> & v & -> & Hv & _);
        [|discriminate].
      inversion Hv; subst; clear Hv.
      exists [EvRead TIMER_VALUE v]. split.
      { destruct (sub32 (ms_of v) start <? ms); ret_inv Hrun; reflexivity. }
      intros w0 e0 _ [[Ht Hr] Hall]. cbn [app].
      assert (Hq : quiet (EvRead TIMER_VALUE v :: e0)) by (split; assumption).
      assert (Ha : Forall is_timer_read (EvRead TIMER_VALUE v :: e0))
        by (constructor; [exact I|assumption]).
      destruct (Z.ltb_spec (sub32 (ms_of v) start) ms); ret_inv Hrun; auto.
      repeat split; auto. exists v, e0. split; [reflexivity|lia].
    + intros w0 s e0 [Hq Hall]. auto.
  - intros w a e1 r e2 (v & -> & Ha & _) ([Ht Hr] & Hall & Hres).
    inversion Ha; subst; clear Ha.
    repeat split.
    + rewrite tx_of_app, Ht. reflexivity.
    + rewrite rx_of_app, Hr. reflexivity.
    + apply Forall_app. split; [assumption|]. constructor; [exact I|constructor].
    + destruct r as [[]|[| |]]; auto.
      destruct Hres as (v1 & mid & -> & Hge).
      exists v, v1. split; [exists mid; reflexivity|assumption].
  - intros w s e (v & _ & Hv & _). discriminate.
Qed.

Lemma store_app (pre rest : list Z) (b c k : Z) :
  k = Z.of_nat (List.length pre) ->
  store (pre ++ b :: rest) k c = pre ++ c :: rest.
Proof.
  intros ->. unfold store. rewrite Nat2Z.id.
  induction pre as [|p pre IH]; cbn; [reflexivity|now f_equal].
Qed.

Lemma skipn_cons_nth (l : list Z) (n : nat) :
  (n < List.length l)%nat -> skipn n l = nth n l 0 :: skipn (S n) l.
Proof.
  revert n; induction l as [|h t IH]; intros n Hn; cbn in Hn; [lia|].
  destruct n as [|n]; [reflexivity|]. cbn [skipn nth]. apply IH. lia.
Qed.

(** *** Transport reader *)

Lemma io_uart_receive_bytes (buffer : list Z) (length timeout_ms : Z) :
  io_spec (uart_receive_bytes hw buffer length timeout_ms)
    (fun _ r e => receive_post buffer length timeout_ms r e).
Proof.
  unfold uart_receive_bytes.
  set (inv := fun (s : list Z * Z) (e : list event) =>
         tx_of e = [] /\
         snd s = Z.of_nat (List.length (rx_of e)) /\
         snd s <= Z.max 0 length /\
         Forall is_byte (rx_of e) /\
         (Z.max 0 length <= Z.of_nat (List.length buffer) ->
          fst s = rx_of e ++ skipn (List.length (rx_of e)) buffer)).
  eapply io_bind with
    (Q2 := fun start _ (r : outcome (bool * list Z)) e =>
             match r with
             | Ret (ok, buffer') =>
                 inv (buffer', Z.of_nat (List.length (rx_of e))) e /\
                 (ok = true -> Z.of_nat (List.length (rx_of e)) = Z.max 0 length) /\
                 (ok = false ->
                  Z.of_nat (List.length (rx_of e)) < length /\
                  exists v1 mid, e = EvRead TIMER_VALUE v1 :: mid /\
                                 sub32 (ms_of v1) start > timeout_ms)
             | Stop OutOfFuel => exists s, inv s e
             | Stop _ => False
             end);
    [apply io_get_time_ms| | |].
  - intros start.
    apply (io_while _ (fun _ s e => inv s e)).
    + intros _. unfold inv; cbn. repeat split; auto; lia.
    + intros [buf received] fuel w r w' Hrun.
      destruct (Z.ltb_spec received length) as [Hlt|Hge].
      2:{ ret_inv Hrun. exists []. split; [reflexivity|].
          intros w0 e0 _ Hinv. cbn [app].
          destruct Hinv as (Ht & Hrcv & Hle & Hb & Hbuf); unfold inv; cbn [fst snd] in *.
          subst received.
          repeat split; auto; try lia; discriminate. }
      bind_step Hrun now w1 H1;
        apply io_get_time_ms in H1 as (e1 & -> & v & -> & Hv & _);
        [|discriminate].
      inversion Hv; subst; clear Hv.
      destruct (Z.gtb_spec (sub32 (ms_of v) start) timeout_ms) as [Hto|Hto].
      { ret_inv Hrun. exists [EvRead TIMER_VALUE v]. split; [reflexivity|].
        intros w0 e0 _ Hinv. cbn [app].
        destruct Hinv as (Ht & Hrcv & Hle & Hb & Hbuf); unfold inv; cbn [fst snd] in *.
        subst received. cbn [rx_of].
        repeat split; auto; try discriminate; try lia.
        exists v, e0. split; [reflexivity|lia]. }
      bind_step Hrun rdy w2 H2;
        apply io_uart_rx_ready in H2 as (e2 & -> & vs & -> & Hr);
        [|discriminate].
      inversion Hr; subst; clear Hr.
      destruct (negb (Z.land vs UART_RX_READY =? 0)).
      2:{ ret_inv Hrun.
          exists ([EvRead UART_STATUS vs] ++ [EvRead TIMER_VALUE v]).
          split; [now rewrite advance_app|].
          intros w0 e0 _ Hinv. exact Hinv. }
      bind_step Hrun c w3 H3;
        apply io_uart_getc in H3 as (e3 & -> & Ht3 & Hc).
      * ret_inv Hrun. destruct Hc as [Hrx3 Hbyte].
        exists (e3 ++ [EvRead UART_STATUS vs] ++ [EvRead TIMER_VALUE v]).
        split; [now rewrite !advance_app|].
        intros w0 e0 _ Hinv.
        destruct Hinv as (Ht & Hrcv & Hle & Hb & Hbuf); unfold inv; cbn [fst snd] in *.
        subst received. unfold inv; cbn [fst snd].
        rewrite <- !app_assoc. cbn [app].
        rewrite tx_of_app, rx_of_app. cbn [tx_of rx_of].
        rewrite Ht, Ht3, Hrx3, length_app. cbn [List.length].
        repeat split; auto; try lia.
        -- apply Forall_app. split; [assumption|]. constructor; auto.
        -- intros Hlen. rewrite (Hbuf Hlen).
           rewrite skipn_cons_nth by lia.
           rewrite (store_app _ _ _ c) by reflexivity.
           rewrite <- app_assoc. cbn [app].
           do 3 f_equal. lia.
      * destruct s; try contradiction.
        exists (e3 ++ [EvRead UART_STATUS vs] ++ [EvRead TIMER_VALUE v]).
        split; [now rewrite !advance_app|].
        intros w0 e0 _ Hinv. exists (buf, received).
        destruct Hinv as (Ht & Hrcv & Hle & Hb & Hbuf); unfold inv; cbn [fst snd] in *.
        unfold inv; cbn [fst snd].
        rewrite <- !app_assoc. cbn [app].
        rewrite tx_of_app, rx_of_app. cbn [tx_of rx_of].
        rewrite Ht, Ht3, Hc, !app_nil_r. cbn [app]. repeat split; auto.
    + intros w0 s e0 Hinv. eauto.
  - intros w a e1 r e2 (v & -> & Ha & _) Hres.
    inversion Ha; subst; clear Ha. unfold receive_post.
    rewrite tx_of_app, rx_of_app. cbn [tx_of rx_of app].
    destruct r as [[ok buffer']|[| |]]; try contradiction.
    + destruct Hres as ((Ht & _ & Hle & Hb & Hbuf) & Htrue & Hfalse).
      cbn [fst snd] in *. rewrite Ht.
      repeat split; auto; try (apply Hfalse; assumption).
      destruct (Hfalse H) as (_ & v1 & mid & -> & Hgt).
      exists v, v1. split; [exists mid; reflexivity|assumption].
    + destruct Hres as (s & Ht & Hrcv & Hle & Hb & _). rewrite Ht.
      repeat split; auto. lia.
  - intros w s e (v & _ & Hv & _). discriminate.
Qed.

(** *** Total correctness *)

Lemma terminates_ret {A : Type} (a : A) (w : world) (Q : A -> world -> Prop) :
  Q a w -> terminates (ret a) w Q.
Proof. intros HQ. exists 0%nat, a, w. split; [assumption|reflexivity]. Qed.

Lemma terminates_bind {A B : Type} (c : M A) (k : A -> M B) (w : world)
    (Q1 : A -> world -> Prop) (Q : B -> world -> Prop) :
  terminates c w Q1 ->
  (forall a w1, Q1 a w1 -> terminates (k a) w1 Q) ->
  terminates (bind c k) w Q.
Proof.
  intros (f1 & a & w1 & H1 & R1) Hk.
  destruct (Hk a w1 H1) as (f2 & b & w2 & H2 & R2).
  exists (Nat.max f1 f2), b, w2. split; [assumption|].
  intros fuel Hf. unfold bind. rewrite R1 by lia. apply R2. lia.
Qed.

Lemma terminates_conseq {A : Type} (c : M A) (w : world)
    (Q Q' : A -> world -> Prop) :
  terminates c w Q -> (forall a w', Q a w' -> Q' a w') -> terminates c w Q'.
Proof. intros (f & a & w' & H & R) HQ. exists f, a, w'. auto. Qed.

(** A terminating run satisfies every partial-correctness specification. *)
Lemma terminates_hoare {A : Type} (c : M A) (w : world)
    (Q0 : A -> world -> Prop) (Q : world -> outcome A -> world -> Prop) :
  terminates c w Q0 -> hoare c Q ->
  terminates c w (fun a w' => Q0 a w' /\ Q w (Ret a) w').
Proof.
  intros (f & a & w' & H & R) Hh. exists f, a, w'.
  split; [|assumption]. split; [assumption|].
  apply (Hh f). apply R. lia.
Qed.

Lemma total_ret {A : Type} (a : A) : total (ret a).
Proof. intros w. now apply terminates_ret. Qed.

Lemma total_bind {A B : Type} (c : M A) (k : A -> M B) :
  total c -> (forall a, total (k a)) -> total (bind c k).
Proof.
  intros Hc Hk w. eapply terminates_bind; [apply Hc|].
  intros a w1 _. apply Hk.
Qed.

Lemma loop_terminates_while {S A : Type} (body : S -> M (S + A)) s w
    (Q : A -> world -> Prop) :
  loop_terminates body s w Q -> terminates (while body s) w Q.
Proof.
  intros (F & a & w' & HQ & R). exists F, a, w'. split; [assumption|].
  intros fuel Hf. unfold while. now apply R.
Qed.

Lemma loop_terminates_step {S A : Type} (body : S -> M (S + A)) s w
    (Q : A -> world -> Prop) :
  terminates (body s) w
    (fun r w' => match r with
                 | inl s' => loop_terminates body s' w' Q
                 | inr a => Q a w'
                 end) ->
  loop_terminates body s w Q.
Proof.
  intros (f & [s'|a] & w1 & H & R).
  - destruct H as (F & a & w' & HQ & R').
    exists (Datatypes.S (Nat.max f F)), a, w'. split; [assumption|].
    intros n fuel Hn Hf. destruct n as [|n]; [lia|].
    cbn [loop_n]. rewrite R by lia. apply R'; lia.
  - exists (Datatypes.S f), a, w1. split; [assumption|].
    intros n fuel Hn Hf. destruct n as [|n]; [lia|].
    cbn [loop_n]. now rewrite R by lia.
Qed.

Section Transmitter.

Hypothesis tx_ok : tx_live hw.

Lemma wait_tx_terminates (k : nat) (w : world) :
  Z.land (u32 (status_in hw (n_status w + k))) UART_TX_EMPTY <> 0 ->
  loop_terminates
    (fun _ : unit =>
       s <- read_reg hw UART_STATUS ;;
       if negb (negb (Z.land s UART_TX_EMPTY =? 0))
       then continue tt else break tt) tt w (fun _ _ => True).
Proof.
  revert w; induction k as [|k IH]; intros w Hk; apply loop_terminates_step.
  - rewrite Nat.add_0_r in Hk.
    exists 0%nat, (inr tt), (log (EvRead UART_STATUS (u32 (status_in hw (n_status w)))) w).
    split; [exact I|]. intros fuel _.
    unfold bind, read_reg.
    destruct (Z.eqb_spec (Z.land (u32 (status_in hw (n_status w))) UART_TX_EMPTY) 0);
      [contradiction|reflexivity].
  - destruct (Z.eqb_spec (Z.land (u32 (status_in hw (n_status w))) UART_TX_EMPTY) 0)
      as [E|E].
    + exists 0%nat, (inl tt), (log (EvRead UART_STATUS (u32 (status_in hw (n_status w)))) w).
      split.
      * apply IH. cbn [log n_status].
        replace (n_status w + 1 + k)%nat with (n_status w + Datatypes.S k)%nat by lia.
        exact Hk.
      * intros fuel _. unfold bind, read_reg. rewrite E. reflexivity.
    + exists 0%nat, (inr tt), (log (EvRead UART_STATUS (u32 (status_in hw (n_status w)))) w).
      split; [exact I|]. intros fuel _.
      unfold bind, read_reg.
      destruct (Z.eqb_spec (Z.land (u32 (status_in hw (n_status w))) UART_TX_EMPTY) 0);
        [contradiction|reflexivity].
Qed.

Lemma total_uart_putc (c : Z) : total (uart_putc hw c).
Proof.
  intros w. unfold uart_putc.
  eapply terminates_bind.
  - apply loop_terminates_while.
    destruct (tx_ok (n_status w)) as (k & Hk).
    exact (wait_tx_terminates k w Hk).
  - intros [] w1 _. exists 0%nat, tt, (log (EvWrite UART_TX_DATA (u32 c)) w1).
    split; [exact I|reflexivity].
Qed.

Lemma total_uart_puts (str : string) : total (uart_puts hw str).
Proof.
  induction str as [|c str IH]; cbn [uart_puts].
  - apply total_ret.
  - apply total_bind; [apply total_uart_putc|intros; exact IH].
Qed.

Lemma total_uart_put_hex (value : Z) : total (uart_put_hex hw value).
Proof.
  unfold uart_put_hex. apply total_bind; [apply total_uart_puts|intros _].
  generalize 8%nat. intros n; induction n as [|n IH]; cbn [uart_put_hex_digits].
  - apply total_ret.
  - apply total_bind; [apply total_uart_putc|intros; exact IH].
Qed.

End Transmitter.

Lemma io_ret_emits_ret {A : Type} (a : A) : io_spec (ret a) (emits_ret [] a).
Proof.
  apply io_ret. intros w. split; [split; reflexivity|].
  intros b H. now inversion H.
Qed.

Lemma io_seq_emits_ret {A B : Type} (c : M A) (k : A -> M B) (t1 t2 : list Z)
    (b : B) :
  io_spec c (emits t1) -> (forall a, io_spec (k a) (emits_ret t2 b)) ->
  io_spec (bind c k) (emits_ret (t1 ++ t2) b).
Proof.
  intros Hc Hk. eapply io_bind; [exact Hc|exact Hk| |].
  - intros w a e1 r e2 [Hr1 Ht1] [[Hr2 Ht2] Hb]. cbn in Ht1.
    split; [|exact Hb].
    split; [rewrite rx_of_app, Hr1, Hr2; reflexivity|].
    rewrite tx_of_app, Ht1. destruct r as [x|[| |]]; auto.
    + now rewrite Ht2.
    + destruct Ht2 as (rest & ->). exists rest. now rewrite app_assoc.
  - intros w s e [Hr Ht]. split; [|discriminate]. split; [assumption|].
    destruct s; auto. destruct Ht as (rest & ->).
    exists (rest ++ t2). now rewrite app_assoc.
Qed.

(** [uart_puts text ;; ret a] *)
Lemma io_puts_ret {A : Type} (str : string) (a : A) :
  io_spec (uart_puts hw str ;; ret a) (emits_ret (chars str) a).
Proof.
  rewrite <- (app_nil_r (chars str)).
  apply io_seq_emits_ret; [apply io_uart_puts|intros; apply io_ret_emits_ret].
Qed.

(** ** Image validator *)

Lemma verify_application_spec (addr : Z) :
  hoare (verify_application hw addr)
    (fun w r w' =>
       let h := read_header (mem w) addr in
       let calc := resident_payload_crc w addr in
       let v := validate h calc in
       exists e,
         w' = advance e (match v with
                         | InvalidMagic | OversizedImage => w
                         | _ => crc32_init_table w
                         end) /\
         emits_ret (verify_text h calc v) (is_valid v) w r e).
Proof.
  intros fuel w r w' Hrun. cbv zeta.
  unfold verify_application in Hrun.
  unfold bind at 1 in Hrun. cbn [get_world] in Hrun.
  unfold validate.
  destruct (negb (magic (read_header (mem w) addr) =? BOOT_MAGIC)) eqn:Em.
  { apply io_puts_ret in Hrun as (e & -> & H). exists e. auto. }
  destruct (size (read_header (mem w) addr) >? MAX_APP_SIZE) eqn:Es.
  { apply io_puts_ret in Hrun as (e & -> & H). exists e. auto. }
  unfold bind at 1 in Hrun. unfold lift in Hrun.
  unfold resident_payload_crc, resident_payload_length.
  destruct (crc32_calculate
              (fun i => load8 (mem w) (addr + sizeof_header + i))
              (sub32 (size (read_header (mem w) addr)) sizeof_header) w)
    as [calc w1] eqn:Ec.
  assert (Hw1 : w1 = crc32_init_table w).
  { unfold crc32_calculate in Ec. now inversion Ec. }
  subst w1. cbn [fst].
  destruct (negb (calc =? crc32 (read_header (mem w) addr))) eqn:Ecrc.
  - cbn [verify_text is_valid].
    revert Hrun. generalize (crc32_init_table w). intros w1 Hrun.
    assert (Hspec : io_spec
      (uart_puts hw "CRC check failed - Expected: " ;;
       uart_put_hex hw (crc32 (read_header (mem w) addr)) ;;
       uart_puts hw ", Calculated: " ;;
       uart_put_hex hw calc ;;
       uart_puts hw crlf ;; ret false)
      (emits_ret (chars "CRC check failed - Expected: " ++
                  hex_text (crc32 (read_header (mem w) addr)) ++
                  chars ", Calculated: " ++ hex_text calc ++
                  chars crlf ++ []) false)).
    { repeat (apply io_seq_emits_ret;
              [first [apply io_uart_puts|apply io_uart_put_hex]|intros _]).
      apply io_ret_emits_ret. }
    apply Hspec in Hrun as (e & -> & H). exists e.
    rewrite app_nil_r in H. auto.
  - ret_inv Hrun. exists []. split; [reflexivity|].
    split; [split; reflexivity|]. intros b H. now inversion H.
Qed.

Lemma load8_range (m : Z -> Z) (a : Z) : 0 <= load8 m a < 256.
Proof. apply u8_is_byte. Qed.

Lemma load32_range (m : Z -> Z) (a : Z) : 0 <= load32 m a < 2 ^ 32.
Proof.
  unfold load32.
  pose proof (load8_range m a). pose proof (load8_range m (a + 1)).
  pose proof (load8_range m (a + 2)). pose proof (load8_range m (a + 3)).
  change (2 ^ 8) with 256. change (2 ^ 16) with 65536.
  change (2 ^ 24) with 16777216. change (2 ^ 32) with 4294967296. lia.
Qed.

Lemma validate_valid_iff (h : firmware_header_t) (c : Z) :
  validate h c = Valid <->
  magic h = BOOT_MAGIC /\ size h <= MAX_APP_SIZE /\ crc32 h = c.
Proof.
  unfold validate.
  destruct (Z.eqb_spec (magic h) BOOT_MAGIC) as [Hm|Hm],
    (Z.gtb_spec (size h) MAX_APP_SIZE) as [Hs|Hs],
    (Z.eqb_spec c (crc32 h)) as [Hc|Hc]; cbn;
    (split; [intros H; try discriminate H|intros (H1 & H2 & H3)]);
    try (repeat split; (assumption || lia || congruence));
    unfold MAX_APP_SIZE in *; try lia; try congruence.
Qed.

Lemma validate_order (h : firmware_header_t) (c : Z) :
  (magic h <> BOOT_MAGIC -> validate h c = InvalidMagic) /\
  (magic h = BOOT_MAGIC -> size h > MAX_APP_SIZE ->
   validate h c = OversizedImage) /\
  (magic h = BOOT_MAGIC -> size h <= MAX_APP_SIZE -> crc32 h <> c ->
   validate h c = CrcMismatch).
Proof.
  unfold validate.
  destruct (Z.eqb_spec (magic h) BOOT_MAGIC), (Z.gtb_spec (size h) MAX_APP_SIZE),
    (Z.eqb_spec c (crc32 h)); cbn; repeat split; intros; try reflexivity;
    unfold MAX_APP_SIZE in *; try lia; congruence.
Qed.

Lemma total_get_world : total get_world.
Proof. intros w. exists 0%nat, w, w. split; [exact I|reflexivity]. Qed.

Lemma total_lift {A : Type} (f : world -> A * world) : total (lift f).
Proof.
  intros w. exists 0%nat, (fst (f w)), (snd (f w)). split; [exact I|].
  intros fuel _. unfold lift. now destruct (f w).
Qed.

Ltac total_tac tx :=
  repeat first
    [ apply total_ret
    | apply (total_uart_puts tx)
    | apply (total_uart_put_hex tx)
    | apply (total_uart_putc tx)
    | apply total_get_world
    | apply total_lift
    | apply total_bind; [|intros ?] ].

Lemma total_verify_application (addr : Z) :
  tx_live hw -> total (verify_application hw addr).
Proof.
  intros tx. unfold verify_application.
  apply total_bind; [apply total_get_world|intros w0].
  destruct (negb (magic (read_header (mem w0) addr) =? BOOT_MAGIC));
    [total_tac tx|].
  destruct (size (read_header (mem w0) addr) >? MAX_APP_SIZE);
    [total_tac tx|].
  apply total_bind; [apply total_lift|intros calc].
  destruct (negb (calc =? crc32 (read_header (mem w0) addr))); total_tac tx.
Qed.

Lemma crc32_init_table_mem (w : world) : mem (crc32_init_table w) = mem w.
Proof. unfold crc32_init_table. now destruct (crc32_table_initialized w). Qed.

Lemma crc32_init_table_trace (w : world) : trace (crc32_init_table w) = trace w.
Proof. unfold crc32_init_table. now destruct (crc32_table_initialized w). Qed.

Lemma verify_application_valid_run (addr : Z) (w : world) :
  validate (read_header (mem w) addr) (resident_payload_crc w addr) = Valid ->
  forall fuel,
    verify_application hw addr fuel w = (Ret true, crc32_init_table w).
Proof.
  intros Hv fuel. unfold validate in Hv.
  unfold verify_application. unfold bind at 1. cbn [get_world].
  destruct (negb (magic (read_header (mem w) addr) =? BOOT_MAGIC));
    [discriminate|].
  destruct (size (read_header (mem w) addr) >? MAX_APP_SIZE); [discriminate|].
  unfold resident_payload_crc, resident_payload_length in Hv.
  unfold bind, lift.
  destruct (crc32_calculate _ _ w) as [c w1] eqn:Ec. cbn [fst] in Hv.
  destruct (negb (c =? crc32 (read_header (mem w) addr))); [discriminate|].
  unfold crc32_calculate in Ec. now inversion Ec.
Qed.

(** C1 (amended): every run of [verify_application] is decided by
    [validate] on the header at [addr] and the CRC computed over the
    resident payload: it returns true exactly when the verdict is [Valid],
    which holds iff magic, size bound and CRC all pass; the checks
    short-circuit in the order magic, size, CRC; the diagnostic names the
    first failed check; the call returns whenever the transmitter is live.
    For a valid image and the same payload CRC, changing the magic or the
    stored CRC, or raising the size above the capacity, gives a non-Valid
    verdict, while any other size within the capacity stays [Valid]. *)
Theorem verify_application_validates (addr : Z) (w : world) :
  let h := read_header (mem w) addr in
  let calc := resident_payload_crc w addr in
  (forall fuel r w',
      verify_application hw addr fuel w = (r, w') ->
      exists e,
        emits_ret (verify_text h calc (validate h calc))
                  (is_valid (validate h calc)) w r e /\
        mem w' = mem w /\ trace w' = e ++ trace w) /\
  (tx_live hw ->
   terminates (verify_application hw addr) w
     (fun b _ => b = is_valid (validate h calc))) /\
  (validate h calc = Valid ->
   forall fuel,
     verify_application hw addr fuel w = (Ret true, crc32_init_table w)) /\
  (validate h calc = Valid <->
   magic h = BOOT_MAGIC /\ size h <= MAX_APP_SIZE /\ crc32 h = calc) /\
  (magic h <> BOOT_MAGIC -> validate h calc = InvalidMagic) /\
  (magic h = BOOT_MAGIC -> size h > MAX_APP_SIZE ->
   validate h calc = OversizedImage) /\
  (magic h = BOOT_MAGIC -> size h <= MAX_APP_SIZE -> crc32 h <> calc ->
   validate h calc = CrcMismatch) /\
  (validate h calc = Valid ->
   forall h',
     (magic h' <> magic h -> validate h' calc = InvalidMagic) /\
     (magic h' = magic h -> size h' > MAX_APP_SIZE ->
      validate h' calc = OversizedImage) /\
     (magic h' = magic h -> size h' <= MAX_APP_SIZE ->
      crc32 h' <> crc32 h -> validate h' calc = CrcMismatch) /\
     (magic h' = magic h -> size h' <= MAX_APP_SIZE ->
      crc32 h' = crc32 h -> validate h' calc = Valid)).
Proof.
  intros h calc.
  assert (Hspec : forall fuel r w',
      verify_application hw addr fuel w = (r, w') ->
      exists e,
        emits_ret (verify_text h calc (validate h calc))
                  (is_valid (validate h calc)) w r e /\
        mem w' = mem w /\ trace w' = e ++ trace w).
  { intros fuel r w' Hrun.
    destruct (verify_application_spec addr _ _ _ _ Hrun) as (e & -> & He).
    exists e. split; [exact He|].
    rewrite advance_mem, advance_trace.
    fold h calc. destruct (validate h calc);
      rewrite ?crc32_init_table_mem, ?crc32_init_table_trace; auto. }
  split; [exact Hspec|].
  split.
  { intros tx. destruct (total_verify_application addr tx w)
      as (f & b & w' & _ & R).
    exists f, b, w'. split; [|exact R].
    destruct (Hspec f _ _ (R f (Nat.le_refl f))) as (e & [_ Hb] & _).
    now apply Hb. }
  split; [apply verify_application_valid_run|].
  split; [apply validate_valid_iff|].
  destruct (validate_order h calc) as (O1 & O2 & O3).
  repeat (split; [assumption|]).
  intros Hv h'. apply validate_valid_iff in Hv as (Hm & Hs & Hc).
  destruct (validate_order h' calc) as (P1 & P2 & P3).
  repeat split; intros.
  - apply P1. congruence.
  - apply P2; congruence.
  - apply P3; congruence.
  - apply validate_valid_iff. repeat split; congruence.
Qed.

Lemma crc32_init_table_initialized (w : world) :
  crc32_table_initialized (crc32_init_table w) = true.
Proof.
  unfold crc32_init_table.
  destruct (crc32_table_initialized w) eqn:E; [exact E|reflexivity].
Qed.

(** C9: a resident header with the right magic and [size < 20] is not
    rejected by the size check.  [verify_application] goes on to
    [crc32_calculate], run over [size + 2^32 - 20] bytes (the unsigned
    32-bit difference [size - 20], at least [2^32 - 20]) from [addr + 20]
    on, and the CRC comparison alone decides: every run leaves the table
    built, returns, if it returns, whether that CRC equals the stored
    one, and has printed nothing but (a prefix of) the CRC-failure report,
    never "Application too large"; and with a live transmitter the call
    does return, true with no output or false after the full report. *)
Theorem verify_application_short_size (addr : Z) (w : world) :
  let h := read_header (mem w) addr in
  let data := fun i => load8 (mem w) (addr + sizeof_header + i) in
  let calc := fst (crc32_calculate data (size h + 2 ^ 32 - 20) w) in
  let report :=
    chars "CRC check failed - Expected: " ++ hex_text (crc32 h) ++
    chars ", Calculated: " ++ hex_text calc ++ chars crlf in
  magic h = BOOT_MAGIC -> size h < sizeof_header ->
  size h <= MAX_APP_SIZE /\
  resident_payload_length w addr = size h + 2 ^ 32 - 20 /\
  2 ^ 32 - 20 <= size h + 2 ^ 32 - 20 < 2 ^ 32 /\
  (forall fuel r w',
      verify_application hw addr fuel w = (r, w') ->
      crc32_table_initialized w' = true /\ mem w' = mem w /\
      match r with
      | Ret b =>
          b = (calc =? crc32 h) /\
          text_of w' = text_of w ++ (if b then [] else report)
      | Stop OutOfFuel =>
          (calc =? crc32 h) = false /\
          exists rest, text_of w ++ report = text_of w' ++ rest
      | Stop _ => False
      end) /\
  (tx_live hw ->
   terminates (verify_application hw addr) w
     (fun b w' =>
        b = (calc =? crc32 h) /\
        crc32_table_initialized w' = true /\
        text_of w' = text_of w ++ (if b then [] else report))).
Proof.
  intros h data calc report Hm Hs.
  pose proof (load32_range (mem w) (addr + 8)) as Hr.
  change (load32 (mem w) (addr + 8)) with (size h) in Hr.
  unfold sizeof_header in Hs.
  assert (Hlen : resident_payload_length w addr = size h + 2 ^ 32 - 20).
  { unfold resident_payload_length, sub32, u32, sizeof_header. fold h.
    replace (size h - 20) with (size h + 2 ^ 32 - 20 + (-1) * 2 ^ 32) by lia.
    rewrite Z.mod_add by lia. apply Z.mod_small. lia. }
  assert (Hcalc : resident_payload_crc w addr = calc).
  { unfold resident_payload_crc. now rewrite Hlen. }
  assert (Hv : validate h calc
               = (if calc =? crc32 h then Valid else CrcMismatch)).
  { unfold validate. rewrite Hm, Z.eqb_refl. cbn [negb].
    destruct (Z.gtb_spec (size h) MAX_APP_SIZE) as [Hgt|_].
    - unfold MAX_APP_SIZE in Hgt. lia.
    - now destruct (calc =? crc32 h). }
  assert (Hrun : forall fuel r w',
      verify_application hw addr fuel w = (r, w') ->
      crc32_table_initialized w' = true /\ mem w' = mem w /\
      match r with
      | Ret b =>
          b = (calc =? crc32 h) /\
          text_of w' = text_of w ++ (if b then [] else report)
      | Stop OutOfFuel =>
          (calc =? crc32 h) = false /\
          exists rest, text_of w ++ report = text_of w' ++ rest
      | Stop _ => False
      end).
  { intros fuel r w' Hrun.
    destruct (verify_application_spec addr _ _ _ _ Hrun)
      as (e & Hw' & [_ He] & Hb).
    cbv zeta in Hw', He, Hb. fold h in Hw', He, Hb.
    rewrite Hcalc, Hv in Hw', He, Hb.
    assert (Hw2 : w' = advance e (crc32_init_table w))
      by (destruct (calc =? crc32 h); exact Hw').
    clear Hw'. subst w'.
    rewrite advance_initialized, crc32_init_table_initialized.
    rewrite advance_mem, crc32_init_table_mem.
    split; [reflexivity|]. split; [reflexivity|].
    unfold text_of. rewrite advance_trace, tx_of_app, crc32_init_table_trace.
    destruct r as [b|s].
    - rewrite (Hb b eq_refl), He.
      destruct (calc =? crc32 h); cbn [is_valid verify_text];
        split; reflexivity.
    - destruct s; try contradiction. destruct He as (rest & He).
      destruct (calc =? crc32 h) eqn:E; cbn [verify_text] in He.
      + (* a valid image returns without printing *)
        exfalso.
        assert (Hval : validate (read_header (mem w) addr)
                         (resident_payload_crc w addr) = Valid)
          by (fold h; rewrite Hcalc; exact Hv).
        rewrite (verify_application_valid_run addr w Hval fuel) in Hrun.
        discriminate.
      + split; [reflexivity|]. exists rest.
        fold report in He. rewrite He. now rewrite app_assoc. }
  split; [unfold MAX_APP_SIZE; lia|].
  split; [exact Hlen|]. split; [lia|]. split; [exact Hrun|].
  intros tx.
  destruct (total_verify_application addr tx w) as (f & b & w' & _ & R).
  exists f, b, w'. split; [|exact R].
  destruct (Hrun f _ _ (R f (Nat.le_refl f))) as (Hi & _ & Hb & Ht).
  auto.
Qed.

Lemma firstn_app_exact (a b : list Z) : firstn (List.length a) (a ++ b) = a.
Proof.
  rewrite firstn_app, Nat.sub_diag, firstn_all. cbn. apply app_nil_r.
Qed.

Lemma skipn_app_exact (a b : list Z) : skipn (List.length a) (a ++ b) = b.
Proof.
  rewrite skipn_app, Nat.sub_diag, skipn_all. reflexivity.
Qed.

(** C10: a call of [uart_receive_bytes] for [length] bytes that returns
    after consuming [k < length] bytes returns false, and it does so only
    after a timer read more than [timeout_ms] past the first one; the
    first [k] buffer entries are then the [k] bytes read from the data
    register in arrival order and the other entries are as the caller
    left them.  It returns true only with all [length] bytes consumed. *)
Theorem uart_receive_bytes_timeout (buffer : list Z) (length timeout_ms : Z)
    (fuel : nat) (w : world) (ok : bool) (buffer' : list Z) (w' : world) :
  0 <= length <= Z.of_nat (List.length buffer) ->
  uart_receive_bytes hw buffer length timeout_ms fuel w
  = (Ret (ok, buffer'), w') ->
  exists e,
    w' = advance e w /\
    Z.of_nat (List.length (rx_of e)) <= length /\
    (ok = false <-> Z.of_nat (List.length (rx_of e)) < length) /\
    (ok = false ->
     exists v0 v1, timed v0 v1 e /\ sub32 (ms_of v1) (ms_of v0) > timeout_ms) /\
    firstn (List.length (rx_of e)) buffer' = rx_of e /\
    skipn (List.length (rx_of e)) buffer'
    = skipn (List.length (rx_of e)) buffer /\
    List.length buffer' = List.length buffer.
Proof.
  intros Hlen Hrun.
  destruct (io_uart_receive_bytes buffer length timeout_ms _ _ _ _ Hrun)
    as (e & -> & _ & Hk & _ & Hbuf & Htrue & Hfalse).
  rewrite Z.max_r in * by lia. specialize (Hbuf (proj2 Hlen)).
  exists e. split; [reflexivity|]. split; [assumption|].
  split.
  { split; [apply Hfalse|]. destruct ok; [|reflexivity].
    specialize (Htrue eq_refl). lia. }
  split; [apply Hfalse|].
  subst buffer'. rewrite firstn_app_exact, skipn_app_exact.
  repeat split. rewrite length_app, length_skipn. lia.
Qed.

(** ** Update session *)

Lemma map_u8_bytes (l : list Z) : Forall is_byte l -> map u8 l = l.
Proof.
  induction 1 as [|b l Hb _ IH]; [reflexivity|].
  cbn [map]. rewrite IH. f_equal. apply Z.mod_small. exact Hb.
Qed.

Lemma map_index_prefix (pre rest : list Z) (f : Z -> Z) :
  map (fun k => f (index (pre ++ rest) (Z.of_nat k))) (seq 0 (List.length pre))
  = map f pre.
Proof.
  induction pre as [|h t IH]; [reflexivity|].
  cbn [List.length seq map]. f_equal.
  rewrite <- seq_shift, map_map, <- IH.
  apply map_ext. intros k. unfold index. now rewrite !Nat2Z.id.
Qed.

Lemma crc32_loop_prefix (table pre rest : list Z) (chunk crc : Z) :
  (forall k, 0 <= k < 256 -> index table k = crc32_bits 8 k) ->
  Forall is_byte pre -> chunk = Z.of_nat (List.length pre) ->
  crc32_loop table (index (pre ++ rest)) (Z.to_nat chunk) 0 crc
  = fold_left reflected_byte pre crc.
Proof.
  intros Ht Hb ->. rewrite Nat2Z.id.
  rewrite (crc32_loop_reflected table _ (List.length pre) 0) by assumption.
  now rewrite map_index_prefix, map_u8_bytes.
Qed.

Lemma dots_succ (d : Z) : 0 <= d -> dots d ++ [46] = dots (d + 1).
Proof.
  intros Hd. unfold dots.
  replace (Z.to_nat (d + 1)) with (Z.to_nat d + 1)%nat by lia.
  now rewrite repeat_app.
Qed.

Lemma div128_full (n k : Z) :
  n mod 128 = 0 -> 0 < k <= 128 -> (n + k + 127) / 128 = (n + 127) / 128 + 1.
Proof.
  intros Hn Hk.
  pose proof (Z.div_mod n 128 ltac:(lia)) as Hd. rewrite Hn in Hd.
  rewrite Hd at 1 2.
  replace (128 * (n / 128) + 0 + k + 127)
    with ((k + 127) + (n / 128) * 128) by lia.
  replace (128 * (n / 128) + 0 + 127) with (127 + (n / 128) * 128) by lia.
  rewrite !Z.div_add by lia.
  replace ((k + 127) / 128) with 1; [|apply Z.div_unique with (k - 1); lia].
  replace (127 / 128) with 0 by reflexivity. lia.
Qed.

Lemma div128_partial (n k : Z) :
  n mod 128 = 0 -> 0 <= k < 128 -> (n + k) / 128 = (n + 127) / 128.
Proof.
  intros Hn Hk.
  pose proof (Z.div_mod n 128 ltac:(lia)) as Hd. rewrite Hn in Hd.
  rewrite Hd at 1 2.
  replace (128 * (n / 128) + 0 + k) with (k + (n / 128) * 128) by lia.
  replace (128 * (n / 128) + 0 + 127) with (127 + (n / 128) * 128) by lia.
  rewrite !Z.div_add by lia.
  rewrite (Z.div_small k) by lia. reflexivity.
Qed.

Lemma u32_46 : u32 46 = 46.
Proof. reflexivity. Qed.

Lemma io_receive_chunks (sz : Z) (buffer0 : list Z) :
  0 <= sz -> List.length buffer0 = 128%nat ->
  io_spec (while (receive_chunk hw) (sz, 0xFFFFFFFF, buffer0))
    (fun w r e => table_ok w -> chunk_loop_post sz r e).
Proof.
  intros Hsz Hlen0.
  set (inv := fun (w0 : world) (s : Z * Z * list Z) (e : list event) =>
         table_ok w0 ->
         Forall is_byte (rx_of e) /\
         fst (fst s) = sz - Z.of_nat (List.length (rx_of e)) /\
         0 <= fst (fst s) /\
         snd (fst s) = fold_left reflected_byte (rx_of e) 0xFFFFFFFF /\
         tx_of e = dots ((Z.of_nat (List.length (rx_of e)) + 127) / 128) /\
         (0 < fst (fst s) -> Z.of_nat (List.length (rx_of e)) mod 128 = 0) /\
         List.length (snd s) = 128%nat).
  apply (io_while _ inv).
  - intros w0 _. cbn. repeat split; auto; try lia.
  - intros [[remaining crc] buf] fuel w r w' Hrun.
    unfold receive_chunk in Hrun.
    destruct (Z.gtb_spec remaining 0) as [Hpos|Hnpos].
    2:{ ret_inv Hrun. exists []. split; [reflexivity|].
        intros w0 e0 _ Hinv Htab. cbn [app].
        destruct (Hinv Htab) as (Hb & Hrem & Hge & Hcrc & Htx & _ & _).
        cbn [fst snd] in *.
        assert (Hl : Z.of_nat (List.length (rx_of e0)) = sz) by lia.
        repeat split; auto; try lia. now rewrite Htx, Hl. }
    set (chunk := if remaining >? 128 then 128 else remaining) in Hrun.
    assert (Hchunk : 0 < chunk <= 128 /\ chunk <= remaining).
    { unfold chunk. destruct (Z.gtb_spec remaining 128); lia. }
    bind_step Hrun p w1 H1;
      apply io_uart_receive_bytes in H1 as (e1 & -> & Ht1 & Hk1 & Hb1 & Hres).
    2:{ destruct s; try contradiction.
        exists e1. split; [reflexivity|].
        intros w0 e0 _ Hinv Htab.
        destruct (Hinv Htab) as (Hb & Hrem & Hge & Hcrc & Htx & Hmod & Hlb).
        cbn [fst snd] in *. unfold chunk_loop_post.
        rewrite rx_of_app, length_app.
        repeat split; [apply Forall_app; auto|lia]. }
    destruct p as [ok buf']. destruct Hres as (Hbuf & Htrue & Hfalse).
    rewrite Z.max_r in * by lia.
    destruct ok; cbn [negb] in Hrun.
    + (* the chunk arrived *)
      specialize (Htrue eq_refl).
      unfold bind at 1 in Hrun. cbn [get_world] in Hrun.
      bind_step Hrun u w2 H2;
        apply io_uart_putc in H2 as (e2 & -> & Hrx2 & Htx2).
      * ret_inv Hrun. exists (e2 ++ e1).
        split; [now rewrite advance_app|].
        intros w0 e0 Hw Hinv Htab.
        destruct (Hinv Htab) as (Hb & Hrem & Hge & Hcrc & Htx & Hmod & Hlb).
        cbn [fst snd] in *.
        rewrite <- app_assoc, !rx_of_app, !tx_of_app, Hrx2, Ht1, Htx2, Htx.
        rewrite app_nil_r, length_app. cbn [app].
        assert (Hbuf' : buf' = rx_of e1 ++ skipn (List.length (rx_of e1)) buf)
          by (apply Hbuf; lia).
        repeat split.
        -- apply Forall_app; auto.
        -- lia.
        -- lia.
        -- rewrite fold_left_app, <- Hcrc, Hbuf'.
           apply crc32_loop_prefix; [|assumption|lia].
           subst w. rewrite !advance_table. exact Htab.
        -- rewrite app_nil_r, u32_46, dots_succ.
           2:{ apply Z.div_pos; lia. }
           f_equal. rewrite Nat2Z.inj_add, Htrue.
           symmetry. apply div128_full; [apply Hmod; lia|lia].
        -- intros Hrem'. rewrite Nat2Z.inj_add, Htrue.
           assert (Hc128 : chunk = 128).
           { unfold chunk in *. destruct (Z.gtb_spec remaining 128); lia. }
           rewrite <- Zplus_mod_idemp_l, Hmod by lia.
           rewrite Hc128. reflexivity.
        -- rewrite Hbuf', length_app, length_skipn. lia.
      * destruct s; try contradiction.
        exists (e2 ++ e1). split; [now rewrite advance_app|].
        intros w0 e0 Hw Hinv Htab.
        destruct (Hinv Htab) as (Hb & Hrem & Hge & Hcrc & Htx & Hmod & Hlb).
        cbn [fst snd] in *. unfold chunk_loop_post.
        rewrite <- app_assoc, !rx_of_app, Hrx2, app_nil_r, length_app.
        repeat split; [apply Forall_app; auto|lia].
    + (* the chunk timed out *)
      destruct (Hfalse eq_refl) as (Hlt & _).
      assert (Hspec : io_spec
                (uart_puts hw (crlf ++ "ERROR: Data timeout" ++ crlf) ;;
                 @break (Z * Z * list Z) (option Z) None)
                (emits_ret data_timeout_text (inr None))).
      { apply io_puts_ret. }
      apply Hspec in Hrun as (e2 & -> & [Hrx2 Htx2] & Hret).
      exists (e2 ++ e1). split; [now rewrite advance_app|].
      intros w0 e0 Hw Hinv.
      assert (Hcommon : table_ok w0 ->
                Forall is_byte (rx_of ((e2 ++ e1) ++ e0)) /\
                Z.of_nat (List.length (rx_of ((e2 ++ e1) ++ e0))) < sz /\
                tx_of ((e2 ++ e1) ++ e0)
                = dots (Z.of_nat (List.length (rx_of ((e2 ++ e1) ++ e0))) / 128)
                  ++ tx_of e2).
      { intros Htab.
        destruct (Hinv Htab) as (Hb & Hrem & Hge & Hcrc & Htx & Hmod & Hlb).
        cbn [fst snd] in *.
        rewrite <- app_assoc, !rx_of_app, !tx_of_app, Hrx2, Ht1, Htx.
        rewrite !app_nil_r, length_app.
        repeat split; [apply Forall_app; auto|lia|].
        rewrite Nat2Z.inj_add.
        rewrite (div128_partial _ (Z.of_nat (List.length (rx_of e1))));
          [reflexivity|apply Hmod; lia|lia]. }
      destruct r as [x|[| |]]; try (cbn in Htx2; contradiction).
      * rewrite (Hret x eq_refl). intros Htab.
        destruct (Hcommon Htab) as (Hc1 & Hc2 & Hc3).
        unfold chunk_loop_post. repeat split; auto; try lia.
        rewrite Hc3. cbn in Htx2. now rewrite Htx2.
      * intros Htab. destruct (Hcommon Htab) as (Hc1 & Hc2 & Hc3).
        unfold chunk_loop_post. repeat split; auto; lia.
  - intros w0 s e0 Hinv Htab.
    destruct s as [[remaining crc] buf].
    destruct (Hinv Htab) as (Hb & Hrem & Hge & _). cbn [fst snd] in *.
    unfold chunk_loop_post. repeat split; auto. lia.
Qed.

Lemma io_announce_firmware (h : firmware_header_t) :
  io_spec (announce_firmware hw h) (emits (announce_text h)).
Proof.
  unfold announce_firmware, announce_text.
  repeat (apply io_seq_emits;
          [first [apply io_uart_puts|apply io_uart_put_hex]|intros _]).
  apply io_uart_puts.
Qed.

Lemma io_finish_session (h : firmware_header_t) (r : option Z) :
  io_spec (finish_session hw h r)
    (match r with
     | None => emits_ret [] false
     | Some crc =>
         emits_ret (chars (" done" ++ crlf) ++
                    if not32 crc =? crc32 h then success_text
                    else crc_mismatch_text)
                   (not32 crc =? crc32 h)
     end).
Proof.
  destruct r as [crc|]; cbn [finish_session]; [|apply io_ret_emits_ret].
  apply io_seq_emits_ret; [apply io_uart_puts|intros _].
  destruct (not32 crc =? crc32 h); cbn [negb].
  - unfold success_text.
    rewrite <- (app_nil_r (chars ("Note: This is a simulation - actual flash programming would occur here" ++ crlf))).
    repeat (apply io_seq_emits_ret; [apply io_uart_puts|intros _]).
    apply io_ret_emits_ret.
  - apply io_puts_ret.
Qed.

Lemma advance_set_table (t : list Z) (b : bool) (e : list event) (w : world) :
  set_table t b (advance e w) = advance e (set_table t b w).
Proof.
  induction e as [|ev e IH]; [reflexivity|].
  cbn [advance fold_right]. fold (advance e w). fold (advance e (set_table t b w)).
  rewrite <- IH. reflexivity.
Qed.

Lemma advance_init_table (e : list event) (w : world) :
  crc32_init_table (advance e w) = advance e (crc32_init_table w).
Proof.
  unfold crc32_init_table. rewrite advance_initialized.
  destruct (crc32_table_initialized w); [reflexivity|].
  rewrite advance_table. apply advance_set_table.
Qed.

Lemma table_ok_init (w : world) : table_inv w -> table_ok (crc32_init_table w).
Proof.
  intros Hinv. destruct (crc32_init_table_inv w Hinv) as [[_ Ht] Hi].
  exact (Ht Hi).
Qed.

Lemma table_ok_advance (e : list event) (w : world) :
  table_ok w -> table_ok (advance e w).
Proof. unfold table_ok. now rewrite advance_table. Qed.

Lemma not32_fold_reflected (p : list Z) :
  Forall is_byte p ->
  not32 (fold_left reflected_byte p 0xFFFFFFFF) = reflected_crc32 p.
Proof.
  intros Hp. unfold reflected_crc32. apply not32_lxor.
  apply reflected_fold_range; [assumption|lia].
Qed.

Lemma receive_firmware_after_header_spec (h : firmware_header_t) :
  0 <= size h ->
  hoare (receive_firmware_after_header hw h)
    (fun w r w' => table_inv w -> session_post h w r w').
Proof.
  intros Hsz fuel w r w' Hrun Hinv.
  unfold receive_firmware_after_header in Hrun.
  unfold session_post, session_result, session_text, header_ok.
  destruct (Z.eqb_spec (magic h) BOOT_MAGIC) as [Hm|Hm]; cbn [negb andb] in *.
  2:{ assert (Hspec : io_spec
                (uart_puts hw "ERROR: Invalid magic - " ;;
                 uart_put_hex hw (magic h) ;; uart_puts hw crlf ;; ret false)
                (emits_ret (chars "ERROR: Invalid magic - " ++
                            hex_text (magic h) ++ chars crlf ++ []) false)).
      { repeat (apply io_seq_emits_ret;
                [first [apply io_uart_puts|apply io_uart_put_hex]|intros _]).
        apply io_ret_emits_ret. }
      apply Hspec in Hrun as (e & -> & [Hrx Htx] & Hret).
      rewrite app_nil_r in Htx.
      exists e. rewrite Hrx. cbn [List.length].
      repeat split; auto; try lia.
      destruct r as [b|[| |]]; try contradiction; auto.
      split; [now apply Hret|]. split; [assumption|discriminate]. }
  destruct (Z.gtb_spec (size h) MAX_APP_SIZE) as [Hs|Hs]; cbn [negb] in *.
  { apply io_puts_ret in Hrun as (e & -> & [Hrx Htx] & Hret).
    exists e. rewrite Hrx. cbn [List.length].
    repeat split; auto; try lia.
    destruct r as [b|[| |]]; try contradiction; auto.
    split; [now apply Hret|]. split; [assumption|discriminate]. }
  bind_step Hrun u w1 H1;
    apply io_announce_firmware in H1 as (e1 & -> & Hrx1 & Htx1).
  2:{ destruct s; try contradiction.
      exists e1. rewrite Hrx1. cbn [List.length].
      repeat split; auto; try lia; try discriminate. }
  cbv beta iota in Htx1.
  unfold bind at 1 in Hrun. cbn [modify] in Hrun.
  rewrite advance_init_table in Hrun.
  assert (Htab : table_ok (advance e1 (crc32_init_table w)))
    by (apply table_ok_advance, table_ok_init, Hinv).
  assert (Hb0 : List.length (map (uninit hw) (seq 20 128)) = 128%nat)
    by (now rewrite length_map, length_seq).
  bind_step Hrun o w2 H2;
    apply (io_receive_chunks (size h) _ Hsz Hb0) in H2 as (e2 & -> & Hpost);
    destruct (Hpost Htab) as (Hbytes & Hle & Hres); clear Hpost.
  2:{ destruct s; try contradiction.
      exists (e2 ++ e1). rewrite rx_of_app, Hrx1. cbn [app].
      split; [right; now rewrite advance_app|].
      repeat split; auto; try discriminate. }
  apply io_finish_session in Hrun as (e3 & -> & Hfin).
  exists (e3 ++ e2 ++ e1).
  rewrite !rx_of_app, !tx_of_app, Hrx1, Htx1. cbn [app].
  assert (Hw : advance e3 (advance e2 (advance e1 (crc32_init_table w)))
               = advance (e3 ++ e2 ++ e1) (crc32_init_table w))
    by (now rewrite !advance_app).
  destruct o as [crc|].
  - destruct Hfin as [[Hrx3 Htx3] Hret].
    destruct Hres as (Hlen & Hcrc & Htx2).
    rewrite Hrx3, app_nil_r.
    split; [right; exact Hw|]. split; [assumption|]. split; [assumption|].
    split; [discriminate|].
    destruct r as [b|[| |]]; try contradiction; auto.
    rewrite Hcrc, not32_fold_reflected in Hret, Htx3 by assumption.
    destruct (Z.ltb_spec (Z.of_nat (List.length (rx_of e2))) (size h)); [lia|].
    cbn [negb andb]. split; [now apply Hret|]. split; [|intros _; exact Hw].
    cbv beta iota in Htx3. rewrite Htx3, Htx2, <- !app_assoc. reflexivity.
  - destruct Hfin as [[Hrx3 Htx3] Hret].
    destruct Hres as (Hlen & Htx2).
    rewrite Hrx3, app_nil_r.
    split; [right; exact Hw|]. split; [assumption|]. split; [assumption|].
    split; [discriminate|].
    destruct r as [b|[| |]]; try contradiction; auto.
    destruct (Z.ltb_spec (Z.of_nat (List.length (rx_of e2))) (size h)); [|lia].
    cbn [negb andb]. split; [now apply Hret|]. split; [|intros _; exact Hw].
    cbv beta iota in Htx3. rewrite Htx3, Htx2, <- !app_assoc. reflexivity.
Qed.

Lemma table_inv_advance (e : list event) (w : world) :
  table_inv w -> table_inv (advance e w).
Proof.
  unfold table_inv. now rewrite advance_table, advance_initialized.
Qed.

Lemma header_size_nonneg (b : list Z) : 0 <= size (header_of_bytes b).
Proof. apply load32_range. Qed.

Lemma receive_firmware_spec :
  hoare (receive_firmware hw) (fun w r w' => table_inv w -> firmware_post w r w').
Proof.
  intros fuel w r w' Hrun Hinv. unfold receive_firmware in Hrun.
  unfold firmware_post, firmware_result, firmware_text, sizeof_header.
  bind_step Hrun u w1 H1;
    apply io_uart_puts in H1 as (e0 & -> & Hrx0 & Htx0).
  2:{ destruct s; try contradiction.
      exists e0. rewrite Hrx0. cbn [List.length].
      repeat split; auto; try lia. }
  cbv beta iota in Htx0. fold prompt_text in Htx0.
  bind_step Hrun p w2 H2;
    apply io_uart_receive_bytes in H2 as (e1 & -> & Htx1 & Hk1 & Hb1 & Hres).
  2:{ destruct s; try contradiction.
      exists (e1 ++ e0). rewrite rx_of_app, Hrx0. cbn [app].
      split; [left; now rewrite advance_app|].
      unfold sizeof_header in *. rewrite Z.max_r in Hk1 by lia.
      repeat split; auto. intros _.
      pose proof (header_size_nonneg (firstn 20 (rx_of e1))).
      destruct (header_ok _); lia. }
  destruct p as [ok hbytes]. destruct Hres as (Hbuf & Htrue & Hfalse).
  unfold sizeof_header in *. rewrite Z.max_r in * by lia.
  destruct ok; cbn [negb] in Hrun.
  - (* header received *)
    specialize (Htrue eq_refl).
    assert (Hh : hbytes = rx_of e1).
    { rewrite Hbuf by (rewrite length_map, length_seq; lia).
      rewrite skipn_all2 by (rewrite length_map, length_seq; lia).
      apply app_nil_r. }
    subst hbytes.
    apply (receive_firmware_after_header_spec _ (header_size_nonneg _)) in Hrun.
    specialize (Hrun (table_inv_advance _ _ (table_inv_advance _ _ Hinv))).
    destruct Hrun as (e3 & Hw & Hb3 & Hlen3 & _ & Hres).
    exists (e3 ++ e1 ++ e0).
    rewrite !rx_of_app, !tx_of_app, Hrx0, Htx0, Htx1. cbn [app].
    assert (Hl20 : List.length (rx_of e1) = 20%nat) by lia.
    assert (Hf : firstn 20 (rx_of e1 ++ rx_of e3) = rx_of e1)
      by (rewrite <- Hl20; apply firstn_app_exact).
    assert (Hs : skipn 20 (rx_of e1 ++ rx_of e3) = rx_of e3)
      by (rewrite <- Hl20; apply skipn_app_exact).
    rewrite Hf, Hs, length_app, app_nil_r.
    destruct (Z.ltb_spec (Z.of_nat (List.length (rx_of e1) + List.length (rx_of e3))) 20);
      [lia|]. cbn [negb andb].
    split.
    { rewrite !advance_init_table in Hw. rewrite !advance_app.
      destruct Hw as [->| ->]; auto. }
    split; [apply Forall_app; auto|].
    split; [intros _; lia|].
    destruct r as [b|[| |]]; try contradiction; auto.
    destruct Hres as (Hb & Htx3 & _).
    split; [assumption|]. now rewrite Htx3.
  - (* header timeout *)
    destruct (Hfalse eq_refl) as (Hlt & _).
    apply io_puts_ret in Hrun as (e2 & -> & [Hrx2 Htx2] & Hret).
    exists (e2 ++ e1 ++ e0).
    rewrite !rx_of_app, !tx_of_app, Hrx0, Hrx2, Htx0, Htx1, app_nil_r.
    cbn [app].
    destruct (Z.ltb_spec (Z.of_nat (List.length (rx_of e1))) 20); [|lia].
    cbn [negb andb].
    split; [left; now rewrite !advance_app|].
    split; [assumption|]. split; [intros; lia|].
    destruct r as [b|[| |]]; try contradiction; auto.
    cbv beta iota in Htx2. fold header_timeout_text in Htx2.
    split; [now apply Hret|]. now rewrite Htx2.
Qed.

(** *** Printing touches neither the timer nor the receiver *)

Lemma io_bind_output {A B : Type} (c : M A) (k : A -> M B) :
  io_spec c (fun _ _ e => output_only e) ->
  (forall a, io_spec (k a) (fun _ _ e => output_only e)) ->
  io_spec (bind c k) (fun _ _ e => output_only e).
Proof.
  intros Hc Hk. eapply io_bind; [exact Hc|exact Hk| |]; cbv beta.
  - intros w a e1 r e2 H1 H2. apply Forall_app. auto.
  - auto.
Qed.

Lemma io_ret_output {A : Type} (a : A) :
  io_spec (ret a) (fun _ _ e => output_only e).
Proof. apply io_ret. constructor. Qed.

Lemma io_uart_putc_output (c : Z) :
  io_spec (uart_putc hw c) (fun _ _ e => output_only e).
Proof.
  unfold uart_putc. apply io_bind_output.
  - apply (io_while _ (fun _ _ e => output_only e)).
    + constructor.
    + intros [] fuel w r w' Hrun.
      bind_step Hrun s w1 H1;
        apply io_read_reg in H1 as (e1 & -> & v & Hv & -> & _);
        [|discriminate].
      exists [EvRead UART_STATUS v]. split.
      { destruct (negb (negb (Z.land s UART_TX_EMPTY =? 0))); now ret_inv Hrun. }
      intros w0 e0 _ He0.
      assert (output_only ([EvRead UART_STATUS v] ++ e0))
        by (constructor; [exact I|assumption]).
      destruct (negb (negb (Z.land s UART_TX_EMPTY =? 0))); now ret_inv Hrun.
    + auto.
  - intros _. eapply io_conseq; [apply io_write_reg|].
    intros w r e [_ ->]. constructor; [exact I|constructor].
Qed.

Lemma io_uart_puts_output (str : string) :
  io_spec (uart_puts hw str) (fun _ _ e => output_only e).
Proof.
  induction str as [|c str IH]; cbn [uart_puts].
  - apply io_ret_output.
  - apply io_bind_output; [apply io_uart_putc_output|intros; exact IH].
Qed.

Lemma io_uart_put_hex_output (value : Z) :
  io_spec (uart_put_hex hw value) (fun _ _ e => output_only e).
Proof.
  unfold uart_put_hex.
  apply io_bind_output; [apply io_uart_puts_output|intros _].
  generalize 8%nat. intros n; induction n as [|n IH]; cbn [uart_put_hex_digits].
  - apply io_ret_output.
  - apply io_bind_output; [apply io_uart_putc_output|intros; exact IH].
Qed.

Lemma output_only_rx (e : list event) : output_only e -> rx_of e = [].
Proof.
  induction 1 as [|ev e Hev _ IH]; [reflexivity|].
  destruct ev as [[] v|[] v|]; cbn in *; try contradiction; assumption.
Qed.

Ltac output_tac :=
  repeat first
    [ apply io_ret_output
    | apply io_uart_puts_output
    | apply io_uart_put_hex_output
    | apply io_uart_putc_output
    | apply io_bind_output; [|intros ?] ].

Lemma rejected_header_output_only (h : firmware_header_t) :
  header_ok h = false ->
  io_spec (receive_firmware_after_header hw h) (fun _ _ e => output_only e).
Proof.
  unfold header_ok, receive_firmware_after_header. intros Hbad.
  destruct (magic h =? BOOT_MAGIC); cbn [negb andb] in *; [|output_tac].
  destruct (size h >? MAX_APP_SIZE); [output_tac|discriminate].
Qed.

Lemma total_rejected_header (h : firmware_header_t) :
  tx_live hw -> header_ok h = false ->
  total (receive_firmware_after_header hw h).
Proof.
  unfold header_ok, receive_firmware_after_header. intros tx Hbad.
  destruct (magic h =? BOOT_MAGIC); cbn [negb andb] in *; [|total_tac tx].
  destruct (size h >? MAX_APP_SIZE); [total_tac tx|discriminate].
Qed.

Lemma io_and {A : Type} (c : M A) (Q1 Q2 : world -> outcome A -> list event -> Prop) :
  io_spec c Q1 -> io_spec c Q2 -> io_spec c (fun w r e => Q1 w r e /\ Q2 w r e).
Proof.
  intros H1 H2 fuel w r w' Hrun.
  destruct (H1 _ _ _ _ Hrun) as (e1 & Hw1 & HQ1).
  destruct (H2 _ _ _ _ Hrun) as (e2 & Hw2 & HQ2).
  assert (e1 = e2).
  { assert (Ht : trace (advance e1 w) = trace (advance e2 w)) by congruence.
    rewrite !advance_trace in Ht. now apply app_inv_tail in Ht. }
  subst e2. exists e1. auto.
Qed.

Lemma header_ok_false_iff (h : firmware_header_t) :
  header_ok h = false <-> magic h <> BOOT_MAGIC \/ size h > MAX_APP_SIZE.
Proof.
  unfold header_ok.
  destruct (Z.eqb_spec (magic h) BOOT_MAGIC) as [Hm|Hm],
    (Z.gtb_spec (size h) MAX_APP_SIZE) as [Hs|Hs];
    cbn [andb negb]; split; intros H; try reflexivity; try discriminate H;
    try (left; assumption); try (right; lia).
  destruct H as [H|H]; [contradiction|lia].
Qed.

Lemma rejected_header_returns_false (h : firmware_header_t) :
  header_ok h = false ->
  io_spec (receive_firmware_after_header hw h)
    (fun _ r _ => r = Ret false \/ r = Stop OutOfFuel).
Proof.
  unfold header_ok, receive_firmware_after_header. intros Hbad.
  assert (Hgen : forall t w (r : outcome bool) e,
             emits_ret t false w r e -> r = Ret false \/ r = Stop OutOfFuel).
  { intros t w r e [[_ Ht] Hb]. destruct r as [b|[| |]]; try contradiction; auto.
    left. f_equal. now apply Hb. }
  destruct (magic h =? BOOT_MAGIC); cbn [negb andb] in *.
  - destruct (size h >? MAX_APP_SIZE); [|discriminate].
    eapply io_conseq; [apply io_puts_ret|apply Hgen].
  - eapply io_conseq; [|apply Hgen].
    repeat (apply io_seq_emits_ret;
            [first [apply io_uart_puts|apply io_uart_put_hex]|intros _]).
    apply io_ret_emits_ret.
Qed.

(** C6: a session whose header has a wrong magic or a size above the
    capacity (one byte over included) ends without a payload receive:
    from the header checks on it only prints (status reads and character
    writes, no timer read, no data read), it never returns true, and with
    a live transmitter it returns false.  Hence a whole session whose
    first 20 bytes form such a header has consumed exactly those 20. *)
Theorem rejected_header_no_payload (h : firmware_header_t) :
  magic h <> BOOT_MAGIC \/ size h > MAX_APP_SIZE ->
  (forall fuel w r w',
      receive_firmware_after_header hw h fuel w = (r, w') ->
      exists e, w' = advance e w /\ output_only e /\ rx_of e = [] /\
                (r = Ret false \/ r = Stop OutOfFuel)) /\
  (tx_live hw ->
   forall w, terminates (receive_firmware_after_header hw h) w
               (fun b w' => b = false /\
                            exists e, w' = advance e w /\ output_only e)) /\
  (forall fuel w r w',
      table_inv w -> receive_firmware hw fuel w = (r, w') ->
      exists e, trace w' = e ++ trace w /\
                (sizeof_header <= Z.of_nat (List.length (rx_of e)) ->
                 header_of_bytes (firstn 20 (rx_of e)) = h ->
                 List.length (rx_of e) = 20%nat /\ r <> Ret true)).
Proof.
  intros Hbad. apply header_ok_false_iff in Hbad.
  assert (Hpart : forall fuel w r w',
      receive_firmware_after_header hw h fuel w = (r, w') ->
      exists e, w' = advance e w /\ output_only e /\ rx_of e = [] /\
                (r = Ret false \/ r = Stop OutOfFuel)).
  { intros fuel w r w' Hrun.
    destruct (io_and _ _ _ (rejected_header_output_only h Hbad)
                (rejected_header_returns_false h Hbad) _ _ _ _ Hrun)
      as (e & -> & Ho & Hr).
    exists e. repeat split; auto. now apply output_only_rx. }
  split; [exact Hpart|]. split.
  - intros tx w.
    destruct (total_rejected_header h tx Hbad w) as (f & b & w' & _ & R).
    exists f, b, w'. split; [|exact R].
    destruct (Hpart f w _ _ (R f (Nat.le_refl f))) as (e & -> & Ho & _ & Hr).
    split; [|eauto].
    destruct Hr as [Hr|Hr]; inversion Hr. reflexivity.
  - intros fuel w r w' Hinv Hrun.
    destruct (receive_firmware_spec _ _ _ _ Hrun Hinv)
      as (e & Hw & _ & Hlen & Hres).
    exists e. split.
    { destruct Hw as [->| ->];
        now rewrite advance_trace, ?crc32_init_table_trace. }
    intros H20 Hh. specialize (Hlen H20). cbv zeta in Hlen.
    rewrite Hh, Hbad in Hlen. unfold sizeof_header in *.
    split; [lia|].
    intros ->. destruct Hres as [Hb _].
    unfold firmware_result, session_result in Hb.
    rewrite Hh, Hbad in Hb. cbn [andb] in Hb.
    now rewrite andb_false_r in Hb.
Qed.

(** C5: no run of [receive_firmware] writes the application region,
    whatever its outcome, and a returning run returns true only if none of
    the five failures happened: it returns false after a header timeout
    (fewer than 20 bytes consumed), a wrong magic, an oversized size, a
    chunk timeout (fewer payload bytes consumed than the header's size
    asks for) and a CRC mismatch. *)
Theorem receive_firmware_failure_keeps_application (fuel : nat) (w : world)
    (r : outcome bool) (w' : world) :
  table_inv w ->
  receive_firmware hw fuel w = (r, w') ->
  mem w' = mem w /\
  exists e,
    trace w' = e ++ trace w /\
    forall b, r = Ret b ->
      let rx := rx_of e in
      let h := header_of_bytes (firstn 20 rx) in
      (Z.of_nat (List.length rx) < sizeof_header \/
       magic h <> BOOT_MAGIC \/
       size h > MAX_APP_SIZE \/
       Z.of_nat (List.length (skipn 20 rx)) < size h \/
       reflected_crc32 (skipn 20 rx) <> crc32 h) ->
      b = false.
Proof.
  intros Hinv Hrun.
  destruct (receive_firmware_spec _ _ _ _ Hrun Hinv) as (e & Hw & _ & _ & Hres).
  split.
  { destruct Hw as [->| ->];
      now rewrite advance_mem, ?crc32_init_table_mem. }
  exists e. split.
  { destruct Hw as [->| ->];
      now rewrite advance_trace, ?crc32_init_table_trace. }
  intros b -> rx h Hfail. destruct Hres as [Hb _].
  destruct b; [exfalso|reflexivity]. symmetry in Hb.
  unfold firmware_result, session_result, header_ok in Hb.
  fold rx in Hb. fold h in Hb. unfold sizeof_header in *.
  rewrite !andb_true_iff, !negb_true_iff in Hb.
  destruct Hb as (HL & ((HM & HS) & HP) & HC).
  apply Z.ltb_ge in HL, HP. apply Z.eqb_eq in HM, HC.
  destruct (Z.gtb_spec (size h) MAX_APP_SIZE) as [|HS']; [discriminate|].
  destruct Hfail as [H|[H|[H|[H|H]]]]; try lia; contradiction.
Qed.

(** ** Boot controller *)

Lemma frame_refl (w : world) : frame w w.
Proof. split; [reflexivity|split; [auto|exists nil; reflexivity]]. Qed.

Lemma frame_trans (w1 w2 w3 : world) : frame w1 w2 -> frame w2 w3 -> frame w1 w3.
Proof.
  intros (Hm1 & Ht1 & e1 & He1) (Hm2 & Ht2 & e2 & He2).
  split; [congruence|split; [auto|]].
  exists (e2 ++ e1). rewrite He2, He1. apply app_assoc.
Qed.

Lemma frame_advance (e : list event) (w : world) : frame w (advance e w).
Proof.
  split; [apply advance_mem|split; [apply table_inv_advance|]].
  exists e. apply advance_trace.
Qed.

Lemma frame_init_table (w : world) : frame w (crc32_init_table w).
Proof.
  split; [apply crc32_init_table_mem|split].
  - intros H. apply (crc32_init_table_inv w H).
  - exists nil. apply crc32_init_table_trace.
Qed.

Lemma tame_ret {A : Type} (a : A) : tame (ret a).
Proof.
  intros fuel w r w' H. inversion H; subst. split; [apply frame_refl|exact I].
Qed.

Lemma tame_bind {A B : Type} (c : M A) (k : A -> M B) :
  tame c -> (forall a, tame (k a)) -> tame (bind c k).
Proof.
  intros Hc Hk. eapply hoare_bind; [exact Hc|exact Hk| |]; cbv beta.
  - intros w a w1 r w2 [F1 _] [F2 B2]. split; [eapply frame_trans; eauto|exact B2].
  - intros w s w1 [F1 B1]. auto.
Qed.

Lemma tame_while {S A : Type} (body : S -> M (S + A)) (s0 : S) :
  (forall s, tame (body s)) -> tame (while body s0).
Proof.
  intros Hb.
  apply (hoare_while body (fun w0 _ w => frame w0 w)).
  - intros w0. apply frame_refl.
  - intros w0 s fuel w r w' F Hrun.
    destruct (Hb s _ _ _ _ Hrun) as [F' B].
    assert (frame w0 w') by (eapply frame_trans; eauto).
    destruct r as [[s'|a]|st]; auto.
  - intros w0 s w F. split; [exact F|exact I].
Qed.

Lemma tame_io {A : Type} (c : M A) (Q : world -> outcome A -> list event -> Prop) :
  io_spec c Q -> (forall w r e, Q w r e -> benign r) -> tame c.
Proof.
  intros Hc HQ fuel w r w' Hrun.
  destruct (Hc _ _ _ _ Hrun) as (e & -> & H).
  split; [apply frame_advance|eapply HQ; eassumption].
Qed.

Lemma emits_benign {A : Type} (t : list Z) (w : world) (r : outcome A)
    (e : list event) : emits t w r e -> benign r.
Proof. intros [_ H]. destruct r as [a|[| |]]; cbn in *; auto. Qed.

Lemma tame_uart_putc (c : Z) : tame (uart_putc hw c).
Proof. eapply tame_io; [apply io_uart_putc|apply emits_benign]. Qed.

Lemma tame_uart_puts (str : string) : tame (uart_puts hw str).
Proof. eapply tame_io; [apply io_uart_puts|apply emits_benign]. Qed.

Lemma tame_uart_put_hex (v : Z) : tame (uart_put_hex hw v).
Proof. eapply tame_io; [apply io_uart_put_hex|apply emits_benign]. Qed.

Lemma tame_uart_rx_ready : tame (uart_rx_ready hw).
Proof.
  eapply tame_io; [apply io_uart_rx_ready|].
  intros w r e (v & _ & ->). exact I.
Qed.

Lemma tame_uart_getc : tame (uart_getc hw).
Proof.
  eapply tame_io; [apply io_uart_getc|].
  intros w r e [_ H]. destruct r as [a|[| |]]; cbn in *; auto.
Qed.

Lemma tame_get_time_ms : tame (get_time_ms hw).
Proof.
  eapply tame_io; [apply io_get_time_ms|].
  intros w r e (v & _ & -> & _). exact I.
Qed.

Lemma tame_delay_ms (ms : Z) : tame (delay_ms hw ms).
Proof.
  eapply tame_io; [apply io_delay_ms|].
  intros w r e (_ & _ & H). destruct r as [a|[| |]]; cbn in *; auto.
Qed.

Lemma tame_uart_receive_bytes (buffer : list Z) (length timeout_ms : Z) :
  tame (uart_receive_bytes hw buffer length timeout_ms).
Proof.
  eapply tame_io; [apply io_uart_receive_bytes|].
  intros w r e (_ & _ & _ & H). destruct r as [a|[| |]]; cbn in *; auto.
Qed.

Lemma tame_get_world : tame get_world.
Proof.
  intros fuel w r w' H. unfold get_world in H. inversion H; subst.
  split; [apply frame_refl|exact I].
Qed.

Lemma tame_modify_init : tame (modify crc32_init_table).
Proof.
  intros fuel w r w' H. unfold modify in H. inversion H; subst.
  split; [apply frame_init_table|exact I].
Qed.

Lemma tame_lift_crc (data : Z -> Z) (length : Z) :
  tame (lift (crc32_calculate data length)).
Proof.
  intros fuel w r w' H. unfold lift, crc32_calculate in H.
  inversion H; subst. split; [apply frame_init_table|exact I].
Qed.

Lemma tame_modify_last_dot (f : world -> Z) :
  tame (modify (fun w => set_last_dot (f w) w)).
Proof.
  intros fuel w r w' H. unfold modify in H. inversion H; subst.
  split; [|exact I].
  split; [reflexivity|split; [auto|exists nil; reflexivity]].
Qed.

Ltac tame_tac :=
  repeat first
    [ apply tame_ret
    | apply tame_uart_puts
    | apply tame_uart_put_hex
    | apply tame_uart_putc
    | apply tame_uart_rx_ready
    | apply tame_uart_getc
    | apply tame_get_time_ms
    | apply tame_delay_ms
    | apply tame_uart_receive_bytes
    | apply tame_get_world
    | apply tame_modify_init
    | apply tame_lift_crc
    | apply tame_modify_last_dot
    | apply tame_while; intros ?
    | apply tame_bind; [|intros ?]
    | match goal with
      | |- tame (match ?x with (_, _) => _ end) => destruct x
      | |- tame (if ?b then _ else _) => destruct b
      | |- tame (match ?x with Some _ => _ | None => _ end) => destruct x
      end ].

Lemma tame_verify_application (addr : Z) : tame (verify_application hw addr).
Proof. unfold verify_application. tame_tac. Qed.

Lemma tame_receive_firmware : tame (receive_firmware hw).
Proof.
  unfold receive_firmware, receive_firmware_after_header, announce_firmware,
    finish_session, receive_chunk, break, continue.
  tame_tac.
Qed.

Lemma tame_check_for_update_request : tame (check_for_update_request hw).
Proof.
  unfold check_for_update_request, poll_update_request, break, continue.
  tame_tac.
Qed.

Lemma tame_banner : tame (banner hw).
Proof. unfold banner. tame_tac. Qed.

Lemma tame_recovery_iteration : tame (recovery_iteration hw).
Proof.
  unfold recovery_iteration.
  apply tame_bind; [apply tame_receive_firmware|intros ok]. tame_tac.
Qed.

Lemma never_returns_bind {A B : Type} (c : M A) (k : A -> M B) :
  tame c -> (forall a, never_returns (k a)) -> never_returns (bind c k).
Proof.
  intros Hc Hk. eapply hoare_bind; [exact Hc|exact Hk| |]; cbv beta.
  - intros w a w1 r w2 [F1 _] [F2 ->]. split; [eapply frame_trans; eauto|reflexivity].
  - intros w s w1 [F1 B1]. split; [assumption|].
    destruct s; cbn in B1; try contradiction. reflexivity.
Qed.

Lemma recovery_loop_never_returns : never_returns (recovery_loop hw).
Proof.
  unfold recovery_loop.
  apply (hoare_while _ (fun w0 _ w => frame w0 w)).
  - intros w0. apply frame_refl.
  - intros w0 [] fuel w r w' F Hrun.
    bind_step Hrun u w1 H1; apply tame_recovery_iteration in H1 as [F1 B1].
    + ret_inv Hrun. eapply frame_trans; eauto.
    + split; [eapply frame_trans; eauto|].
      destruct s; cbn in B1; try contradiction. reflexivity.
  - intros w0 s w F. auto.
Qed.

Lemma recovery_loop_n_never_returns (n fuel : nat) (w : world)
    (r : outcome unit) (w' : world) :
  loop_n (fun _ : unit => recovery_iteration hw ;; continue tt) n tt fuel w
  = (r, w') ->
  frame w w' /\ r = Stop OutOfFuel.
Proof.
  apply (hoare_loop_n _ (fun w0 _ w => frame w0 w)
           (fun w0 r w' => frame w0 w' /\ r = Stop OutOfFuel) w);
    [| |apply frame_refl].
  - intros [] f wa ra wb F Hrun.
    bind_step Hrun u w1 H1; apply tame_recovery_iteration in H1 as [F1 B1].
    + ret_inv Hrun. eapply frame_trans; eauto.
    + split; [eapply frame_trans; eauto|].
      destruct s; cbn in B1; try contradiction. reflexivity.
  - intros s wa F. auto.
Qed.

Lemma enter_recovery_never_returns : never_returns (enter_recovery hw).
Proof.
  unfold enter_recovery.
  repeat (apply never_returns_bind; [apply tame_uart_puts|intros _]).
  apply recovery_loop_never_returns.
Qed.

Lemma crc32_calculate_reflected (w : world) (data : Z -> Z) (length : Z) :
  table_inv w ->
  fst (crc32_calculate data length w)
  = reflected_crc32 (bytes_at data (Z.to_nat length)).
Proof.
  intros Hinv. unfold crc32_calculate. cbn [fst].
  rewrite (crc32_loop_reflected _ data (Z.to_nat length) 0)
    by (apply table_ok_init, Hinv).
  fold (bytes_at data (Z.to_nat length)).
  apply not32_fold_reflected, bytes_at_Forall.
Qed.

Lemma resident_verdict_computed (w : world) (addr : Z) :
  table_inv w ->
  validate (read_header (mem w) addr) (resident_payload_crc w addr)
  = resident_verdict (mem w) addr.
Proof.
  intros Hinv. unfold resident_verdict, resident_payload_crc. cbv zeta.
  now rewrite crc32_calculate_reflected.
Qed.

Lemma frame_verdict (w w' : world) (addr : Z) :
  frame w w' -> resident_verdict (mem w') addr = resident_verdict (mem w) addr.
Proof. intros (-> & _). reflexivity. Qed.

Lemma verify_and_boot_recovers (w : world) :
  table_inv w ->
  resident_verdict (mem w) APP_START_ADDR <> Valid ->
  forall fuel r w',
    verify_and_boot hw fuel w = (r, w') -> frame w w' /\ r = Stop OutOfFuel.
Proof.
  intros Hinv Hbad fuel r w' Hrun. unfold verify_and_boot in Hrun.
  bind_step Hrun u w1 H1; apply tame_uart_puts in H1 as [F1 B1].
  2:{ split; [assumption|]. destruct s; cbn in B1; try contradiction; reflexivity. }
  bind_step Hrun ok w2 H2.
  2:{ apply tame_verify_application in H2 as [F2 B2].
      split; [eapply frame_trans; eauto|].
      destruct s; cbn in B2; try contradiction; reflexivity. }
  pose proof (tame_verify_application _ _ _ _ _ H2) as [F2 _].
  destruct (verify_application_spec _ _ _ _ _ H2) as (e & _ & _ & Hb).
  specialize (Hb ok eq_refl).
  rewrite resident_verdict_computed in Hb by (apply F1, Hinv).
  rewrite (frame_verdict _ _ _ F1) in Hb.
  destruct (resident_verdict (mem w) APP_START_ADDR) eqn:Ev;
    try contradiction; cbn in Hb; subst ok; cbn [negb] in Hrun;
    apply enter_recovery_never_returns in Hrun as [F3 ->];
    (split; [eapply frame_trans; [|exact F3]; eapply frame_trans; eauto
            |reflexivity]).
Qed.

Lemma bootloader_main_declined (w : world) (fuel : nat) (w1 : world) :
  table_inv w ->
  resident_verdict (mem w) APP_START_ADDR <> Valid ->
  (banner hw ;; check_for_update_request hw) fuel w = (Ret false, w1) ->
  forall r w',
    bootloader_main hw fuel w = (r, w') -> frame w w' /\ r = Stop OutOfFuel.
Proof.
  intros Hinv Hbad Hpre r w' Hrun.
  unfold bootloader_main in Hrun.
  unfold bind at 1 in Hpre. unfold bind at 1 in Hrun.
  destruct (banner hw fuel w) as [[u|s] wb] eqn:Eb; [|discriminate].
  unfold bind at 1 in Hrun. rewrite Hpre in Hrun.
  cbn [negb] in Hrun. unfold bind at 1 in Hrun. cbn [ret] in Hrun.
  apply tame_banner in Eb as [Fb _].
  apply tame_check_for_update_request in Hpre as [Fc _].
  assert (F1 : frame w w1) by (eapply frame_trans; eauto).
  destruct (verify_and_boot_recovers w1 (proj1 (proj2 F1) Hinv)
              ltac:(now rewrite (frame_verdict _ _ _ F1)) _ _ _ Hrun)
    as [F2 ->].
  split; [eapply frame_trans; eauto|reflexivity].
Qed.

Section NoInput.

Hypothesis quiet_rx : no_input hw.

Lemma uart_rx_ready_no_input (fuel : nat) (w : world) :
  uart_rx_ready hw fuel w
  = (Ret false, log (EvRead UART_STATUS (u32 (status_in hw (n_status w)))) w).
Proof.
  unfold uart_rx_ready, bind, read_reg, ret. now rewrite quiet_rx.
Qed.

Lemma check_for_update_request_no_input :
  hoare (check_for_update_request hw)
    (fun _ r _ => forall b, r = Ret b -> b = false).
Proof.
  intros fuel w r w' Hrun b Hr.
  unfold check_for_update_request in Hrun.
  bind_step Hrun u w1 H1; [|discriminate].
  bind_step Hrun start w2 H2; [|discriminate].
  bind_step Hrun o w3 H3; [|discriminate].
  assert (Ho : o = None).
  { refine (hoare_while _ (fun _ _ _ => True)
              (fun _ (r : outcome (option bool)) _ =>
                 forall x, r = Ret x -> x = None) tt _ _ _ _ _ _ _ H3 o eq_refl);
      auto.
    - intros w0 [] f wa ra wb _ Hbody. unfold poll_update_request in Hbody.
      bind_step Hbody now wc Hc.
      2:{ intros x Hx. discriminate. }
      destruct (sub32 now start <? TIMEOUT_MS).
      + unfold bind at 1 in Hbody.
        rewrite uart_rx_ready_no_input in Hbody.
        bind_step Hbody now2 wd Hd.
        2:{ intros x Hx. discriminate. }
        unfold bind at 1 in Hbody. cbn [get_world] in Hbody.
        bind_step Hbody u3 we He.
        2:{ intros x Hx. discriminate. }
        ret_inv Hbody. exact I.
      + ret_inv Hbody. intros x Hx. now inversion Hx.
    - intros; discriminate. }
  subst o. bind_step Hrun u2 w4 H4; [|discriminate].
  ret_inv Hrun. congruence.
Qed.


Lemma get_time_ms_eq (fuel : nat) (w : world) :
  get_time_ms hw fuel w
  = (Ret (ms_at hw (n_timer w)),
     log (EvRead TIMER_VALUE (u32 (timer_in hw (n_timer w)))) w).
Proof. reflexivity. Qed.

Lemma delay_loop_terminates (ms start : Z) (k : nat) (w : world) :
  ~ sub32 (ms_at hw (n_timer w + k)) start < ms ->
  loop_terminates
    (fun _ : unit =>
       now <- get_time_ms hw ;;
       if sub32 now start <? ms then continue tt else break tt)
    tt w (fun _ _ => True).
Proof.
  revert w; induction k as [|k IH]; intros w Hk; apply loop_terminates_step.
  - rewrite Nat.add_0_r in Hk.
    exists 0%nat, (inr tt),
      (log (EvRead TIMER_VALUE (u32 (timer_in hw (n_timer w)))) w).
    split; [exact I|]. intros fuel _. unfold bind. rewrite get_time_ms_eq.
    destruct (Z.ltb_spec (sub32 (ms_at hw (n_timer w)) start) ms);
      [contradiction|reflexivity].
  - destruct (Z.ltb_spec (sub32 (ms_at hw (n_timer w)) start) ms) as [Hlt|Hge].
    + exists 0%nat, (inl tt),
        (log (EvRead TIMER_VALUE (u32 (timer_in hw (n_timer w)))) w).
      split.
      * apply IH. cbn [log n_timer].
        replace (n_timer w + 1 + k)%nat with (n_timer w + Datatypes.S k)%nat
          by lia.
        exact Hk.
      * intros fuel _. unfold bind. rewrite get_time_ms_eq.
        destruct (Z.ltb_spec (sub32 (ms_at hw (n_timer w)) start) ms);
          [reflexivity|lia].
    + exists 0%nat, (inr tt),
        (log (EvRead TIMER_VALUE (u32 (timer_in hw (n_timer w)))) w).
      split; [exact I|]. intros fuel _. unfold bind. rewrite get_time_ms_eq.
      destruct (Z.ltb_spec (sub32 (ms_at hw (n_timer w)) start) ms);
        [lia|reflexivity].
Qed.

(** With no input the transport reader consumes nothing. *)
Lemma io_uart_receive_bytes_no_input (buffer : list Z) (length timeout_ms : Z) :
  io_spec (uart_receive_bytes hw buffer length timeout_ms)
    (fun _ _ e => rx_of e = []).
Proof.
  unfold uart_receive_bytes.
  eapply io_bind with (Q2 := fun _ _ _ e => rx_of e = []);
    [apply io_get_time_ms| | |]; cbv beta.
  - intros start. apply (io_while _ (fun _ _ e => rx_of e = [])).
    + reflexivity.
    + intros [buf received] fuel w r w' Hrun.
      destruct (received <? length).
      2:{ ret_inv Hrun. exists []. split; [reflexivity|]. auto. }
      bind_step Hrun now w1 H1;
        apply io_get_time_ms in H1 as (e1 & -> & v & -> & Hv & _);
        [|discriminate].
      destruct (sub32 now start >? timeout_ms).
      { ret_inv Hrun. exists [EvRead TIMER_VALUE v]. split; [reflexivity|].
        intros w0 e0 _ He0. exact He0. }
      unfold bind at 1 in Hrun. rewrite uart_rx_ready_no_input in Hrun.
      ret_inv Hrun.
      match goal with
      | |- context [log (EvRead UART_STATUS ?x)] =>
          exists ([EvRead UART_STATUS x] ++ [EvRead TIMER_VALUE v])
      end.
      split; [reflexivity|]. intros w0 e0 _ He0. exact He0.
    + auto.
  - intros w a e1 r e2 (v & -> & _) He2. rewrite rx_of_app, He2. reflexivity.
  - intros w s e (v & -> & _). reflexivity.
Qed.

Lemma receive_firmware_no_input :
  hoare (receive_firmware hw)
    (fun w r w' =>
       exists e,
         w' = advance e w /\ rx_of e = [] /\
         match r with
         | Ret b => b = false /\ tx_of e = prompt_text ++ header_timeout_text
         | Stop OutOfFuel => True
         | Stop _ => False
         end).
Proof.
  intros fuel w r w' Hrun. unfold receive_firmware in Hrun.
  bind_step Hrun u w1 H1;
    apply io_uart_puts in H1 as (e0 & -> & Hrx0 & Htx0).
  2:{ exists e0. split; [reflexivity|]. split; [assumption|].
      destruct s; cbn in Htx0; try contradiction; exact I. }
  cbv beta iota in Htx0. fold prompt_text in Htx0.
  bind_step Hrun p w2 H2;
    apply (io_and _ _ _ (io_uart_receive_bytes _ _ _)
             (io_uart_receive_bytes_no_input _ _ _)) in H2
      as (e1 & -> & (Htx1 & Hk1 & Hb1 & Hres) & Hrx1).
  2:{ exists (e1 ++ e0). split; [now rewrite advance_app|].
      rewrite rx_of_app, Hrx0, Hrx1. split; [reflexivity|].
      destruct s; try contradiction; exact I. }
  destruct p as [ok hbytes]. destruct Hres as (_ & Htrue & _).
  destruct ok.
  { specialize (Htrue eq_refl). rewrite Hrx1 in Htrue.
    unfold sizeof_header in Htrue. cbn in Htrue. lia. }
  cbn [negb] in Hrun.
  apply io_puts_ret in Hrun as (e2 & -> & [Hrx2 Htx2] & Hret).
  exists (e2 ++ e1 ++ e0). split; [now rewrite !advance_app|].
  rewrite !rx_of_app, !tx_of_app, Hrx0, Hrx1, Hrx2, Htx0, Htx1.
  split; [reflexivity|].
  destruct r as [b|[| |]]; try contradiction; auto.
  cbv beta iota in Htx2. fold header_timeout_text in Htx2.
  split; [now apply Hret|]. rewrite Htx2. now rewrite app_nil_r.
Qed.

Lemma recovery_iteration_no_input :
  hoare (recovery_iteration hw)
    (fun w r w' =>
       exists e,
         w' = advance e w /\
         match r with
         | Ret _ => exists es ed, e = ed ++ es /\ failed_attempt es /\
                                  idle_delay 1000 ed
         | Stop OutOfFuel => True
         | Stop _ => False
         end).
Proof.
  intros fuel w r w' Hrun. unfold recovery_iteration in Hrun.
  bind_step Hrun ok w1 H1;
    apply receive_firmware_no_input in H1 as (es & -> & Hrx & Hres).
  2:{ exists es. split; [reflexivity|]. exact Hres. }
  destruct Hres as [-> Htx].
  unfold bind at 1 in Hrun. cbn [ret] in Hrun.
  apply io_delay_ms in Hrun as (ed & -> & Hq & Hall & Hd).
  exists (ed ++ es). split; [now rewrite advance_app|].
  destruct r as [[]|[| |]]; try contradiction; auto.
  exists es, ed. split; [reflexivity|]. split; [split; assumption|].
  split; [assumption|]. split; [assumption|].
  destruct Hd as (v0 & v1 & Ht & Hge). exists v0, v1. split; [assumption|lia].
Qed.

Section Live.

Hypothesis tx_ok : tx_live hw.
Hypothesis clock_ok : clock_live hw.

Lemma total_delay_ms (ms : Z) : ms <= 30001 -> total (delay_ms hw ms).
Proof.
  intros Hms w. unfold delay_ms.
  apply terminates_bind with
    (Q1 := fun start w1 => start = ms_at hw (n_timer w) /\
                           n_timer w1 = Datatypes.S (n_timer w)).
  - exists 0%nat, (ms_at hw (n_timer w)),
      (log (EvRead TIMER_VALUE (u32 (timer_in hw (n_timer w)))) w).
    split; [|intros; apply get_time_ms_eq].
    split; [reflexivity|cbn; lia].
  - intros start w1 [-> Hn]. apply loop_terminates_while.
    destruct (clock_ok (n_timer w) (ms - 1)) as (k & Hk); [lia|].
    apply (delay_loop_terminates ms _ k).
    specialize (Hk k ltac:(lia)). rewrite Hn.
    replace (Datatypes.S (n_timer w) + k)%nat with (n_timer w + 1 + k)%nat by lia.
    lia.
Qed.

Lemma receive_loop_times_out (buffer : list Z) (length timeout_ms start : Z)
    (k : nat) (w : world) :
  0 < length ->
  sub32 (ms_at hw (n_timer w + k)) start > timeout_ms ->
  loop_terminates
    (fun '(buffer, received) =>
       if received <? length then
         now <- get_time_ms hw ;;
         if sub32 now start >? timeout_ms then
           break (false, buffer)
         else
           r <- uart_rx_ready hw ;;
           if r then
             c <- uart_getc hw ;;
             continue (store buffer received c, received + 1)
           else continue (buffer, received)
       else break (true, buffer))
    (buffer, 0) w (fun r _ => fst r = false).
Proof.
  intros Hlen. revert w; induction k as [|k IH]; intros w Hk;
    apply loop_terminates_step; cbv beta iota.
  all: destruct (Z.ltb_spec 0 length) as [_|]; [|lia].
  - rewrite Nat.add_0_r in Hk.
    exists 0%nat, (inr (false, buffer)),
      (log (EvRead TIMER_VALUE (u32 (timer_in hw (n_timer w)))) w).
    split; [reflexivity|]. intros fuel _. unfold bind. rewrite get_time_ms_eq.
    destruct (Z.gtb_spec (sub32 (ms_at hw (n_timer w)) start) timeout_ms);
      [reflexivity|lia].
  - destruct (Z.gtb_spec (sub32 (ms_at hw (n_timer w)) start) timeout_ms)
      as [Hgt|Hle].
    + exists 0%nat, (inr (false, buffer)),
        (log (EvRead TIMER_VALUE (u32 (timer_in hw (n_timer w)))) w).
      split; [reflexivity|]. intros fuel _. unfold bind. rewrite get_time_ms_eq.
      destruct (Z.gtb_spec (sub32 (ms_at hw (n_timer w)) start) timeout_ms);
        [reflexivity|lia].
    + set (w1 := log (EvRead TIMER_VALUE (u32 (timer_in hw (n_timer w)))) w).
      exists 0%nat, (inl (buffer, 0)),
        (log (EvRead UART_STATUS (u32 (status_in hw (n_status w1)))) w1).
      split.
      * apply IH. cbn [log n_timer w1].
        replace (n_timer w + 1 + 0 + k)%nat with (n_timer w + Datatypes.S k)%nat
          by lia.
        exact Hk.
      * intros fuel _. unfold bind at 1. rewrite get_time_ms_eq. fold w1.
        destruct (Z.gtb_spec (sub32 (ms_at hw (n_timer w)) start) timeout_ms);
          [lia|].
        unfold bind. rewrite uart_rx_ready_no_input. reflexivity.
Qed.

Lemma uart_receive_bytes_times_out (buffer : list Z) (length timeout_ms : Z)
    (w : world) :
  0 < length -> timeout_ms <= 30000 ->
  terminates (uart_receive_bytes hw buffer length timeout_ms) w
    (fun r _ => fst r = false).
Proof.
  intros Hlen Hto. unfold uart_receive_bytes.
  apply terminates_bind with
    (Q1 := fun start w1 => start = ms_at hw (n_timer w) /\
                           n_timer w1 = Datatypes.S (n_timer w)).
  - exists 0%nat, (ms_at hw (n_timer w)),
      (log (EvRead TIMER_VALUE (u32 (timer_in hw (n_timer w)))) w).
    split; [|intros; apply get_time_ms_eq].
    split; [reflexivity|cbn; lia].
  - intros start w1 [-> Hn]. apply loop_terminates_while.
    destruct (clock_ok (n_timer w) timeout_ms) as (k & Hk); [lia|].
    apply (receive_loop_times_out buffer length timeout_ms _ k w1 Hlen).
    specialize (Hk k ltac:(lia)). rewrite Hn.
    replace (Datatypes.S (n_timer w) + k)%nat with (n_timer w + 1 + k)%nat by lia.
    exact Hk.
Qed.


Lemma terminates_bind_eq {A : Type} (c : M A) (w : world)
    (Q : A -> world -> Prop) :
  terminates c w Q ->
  exists F a w1,
    Q a w1 /\
    forall (B : Type) (k : A -> M B) fuel,
      (F <= fuel)%nat -> bind c k fuel w = k a fuel w1.
Proof.
  intros (F & a & w1 & HQ & R). exists F, a, w1. split; [assumption|].
  intros B k fuel Hf. unfold bind. now rewrite R.
Qed.

Lemma terminates_tame {A : Type} (c : M A) (w : world) (Q : A -> world -> Prop) :
  terminates c w Q -> tame c ->
  terminates c w (fun a w' => Q a w' /\ frame w w').
Proof.
  intros Ht Hc. eapply terminates_conseq; [apply (terminates_hoare _ _ _ _ Ht Hc)|].
  cbv beta. intros a w' [HQ [F _]]. auto.
Qed.

Lemma terminates_receive_firmware (w : world) :
  terminates (receive_firmware hw) w (fun b _ => b = false).
Proof.
  assert (Ht : terminates (receive_firmware hw) w (fun _ _ => True)).
  { unfold receive_firmware.
    eapply terminates_bind; [apply (total_uart_puts tx_ok)|intros u w1 _].
    eapply terminates_bind;
      [apply uart_receive_bytes_times_out; unfold sizeof_header; lia|].
    intros [ok hb] w2 Hok. cbn in Hok. subst ok. cbn [negb].
    assert (Htot : total (uart_puts hw ("ERROR: Header timeout" ++ crlf) ;;
                          ret false)) by total_tac tx_ok.
    apply Htot. }
  eapply terminates_conseq;
    [apply (terminates_hoare _ _ _ _ Ht receive_firmware_no_input)|].
  cbv beta. intros b w' [_ (e & _ & _ & Hb & _)]. exact Hb.
Qed.

Lemma terminates_recovery_iteration (w : world) :
  terminates (recovery_iteration hw) w
    (fun _ w' => exists es ed, w' = advance (ed ++ es) w /\
                               failed_attempt es /\ idle_delay 1000 ed).
Proof.
  assert (Ht : terminates (recovery_iteration hw) w (fun _ _ => True)).
  { unfold recovery_iteration.
    eapply terminates_bind; [apply terminates_receive_firmware|].
    intros ok w1 ->.
    eapply terminates_bind; [apply total_ret|intros u w2 _].
    apply total_delay_ms. lia. }
  eapply terminates_conseq;
    [apply (terminates_hoare _ _ _ _ Ht recovery_iteration_no_input)|].
  cbv beta. intros u w' [_ (e & -> & es & ed & -> & Ha & Hd)]. eauto.
Qed.

(** After enough fuel the first [n] passes of the recovery loop are
    behind: each a failed attempt and its delay. *)
Lemma recovery_iterations (n : nat) (w : world) :
  exists F e,
    recovery_trace n e /\
    forall m fuel, (F <= fuel)%nat ->
      @loop_n unit unit (fun _ : unit => recovery_iteration hw ;; continue tt)
              (n + m) tt fuel w
      = loop_n (fun _ : unit => recovery_iteration hw ;; continue tt)
               m tt fuel (advance e w).
Proof.
  induction n as [|n IH].
  - exists 0%nat, []. split; [constructor|]. reflexivity.
  - destruct IH as (F & e & Htr & Heq).
    destruct (terminates_recovery_iteration (advance e w))
      as (F' & u & w1 & (es & ed & -> & Ha & Hd) & R).
    exists (Nat.max F F'), (ed ++ es ++ e). split; [now constructor|].
    intros m fuel Hf.
    replace (Datatypes.S n + m)%nat with (n + Datatypes.S m)%nat by lia.
    rewrite Heq by lia. cbn [loop_n]. unfold bind at 1.
    rewrite R by lia. cbn [continue ret].
    rewrite <- advance_app, <- app_assoc. reflexivity.
Qed.


Lemma n_timer_advance_output (e : list event) (w : world) :
  output_only e -> n_timer (advance e w) = n_timer w.
Proof.
  induction 1 as [|ev e Hev _ IH]; [reflexivity|].
  cbn [advance fold_right log n_timer]. fold (advance e w). rewrite IH.
  destruct ev as [[] v|[] v|]; cbn in Hev; try contradiction; lia.
Qed.

Lemma terminates_putc_timer (c : Z) (w : world) :
  terminates (uart_putc hw c) w (fun _ w' => n_timer w' = n_timer w).
Proof.
  eapply terminates_conseq;
    [apply (terminates_hoare _ _ _ _ (total_uart_putc tx_ok c w)
              (io_uart_putc_output c))|].
  cbv beta. intros u w' [_ (e & -> & Ho)]. now apply n_timer_advance_output.
Qed.

Lemma poll_update_request_continues (start : Z) (w : world) :
  sub32 (ms_at hw (n_timer w)) start < TIMEOUT_MS ->
  terminates (poll_update_request hw start tt) w
    (fun r w' => r = inl tt /\ n_timer w' = (n_timer w + 2)%nat).
Proof.
  intros Hlt. unfold poll_update_request.
  apply terminates_bind with
    (Q1 := fun now w1 => now = ms_at hw (n_timer w) /\
                         n_timer w1 = (n_timer w + 1)%nat).
  { eexists 0%nat, _, _. split; [|intros; apply get_time_ms_eq].
    split; reflexivity. }
  intros now w1 [-> Hn1].
  destruct (Z.ltb_spec (sub32 (ms_at hw (n_timer w)) start) TIMEOUT_MS); [|lia].
  apply terminates_bind with
    (Q1 := fun rdy w2 => rdy = false /\ n_timer w2 = (n_timer w + 1)%nat).
  { eexists 0%nat, _, _. split; [|intros; apply uart_rx_ready_no_input].
    split; [reflexivity|cbn [log n_timer]; lia]. }
  intros rdy w2 [-> Hn2].
  apply terminates_bind with
    (Q1 := fun _ w3 => n_timer w3 = (n_timer w + 2)%nat).
  { eexists 0%nat, _, _. split; [|intros; apply get_time_ms_eq].
    cbn [log n_timer]. lia. }
  intros now2 w3 Hn3.
  apply terminates_bind with
    (Q1 := fun a w4 => a = w3 /\ w4 = w3).
  { exists 0%nat, w3, w3. split; [auto|reflexivity]. }
  intros w3' w4 [-> ->].
  apply terminates_bind with
    (Q1 := fun _ w5 => n_timer w5 = (n_timer w + 2)%nat).
  { destruct (sub32 now2 start / 500 >? last_dot w3).
    - eapply terminates_bind; [apply terminates_putc_timer|].
      intros u w5 Hn5. eexists 0%nat, tt, _. split; [|reflexivity].
      cbn. congruence.
    - apply terminates_ret. exact Hn3. }
  intros u w5 Hn5. apply terminates_ret. auto.
Qed.

Lemma poll_loop_terminates (start : Z) (k : nat) (w : world) :
  ~ sub32 (ms_at hw (n_timer w + 2 * k)) start < TIMEOUT_MS ->
  loop_terminates (poll_update_request hw start) tt w (fun r _ => r = None).
Proof.
  revert w; induction k as [|k IH]; intros w Hk; apply loop_terminates_step.
  - rewrite Nat.add_0_r in Hk.
    exists 0%nat, (inr None),
      (log (EvRead TIMER_VALUE (u32 (timer_in hw (n_timer w)))) w).
    split; [reflexivity|]. intros fuel _.
    unfold poll_update_request, bind. rewrite get_time_ms_eq.
    destruct (Z.ltb_spec (sub32 (ms_at hw (n_timer w)) start) TIMEOUT_MS);
      [contradiction|reflexivity].
  - destruct (Z.ltb_spec (sub32 (ms_at hw (n_timer w)) start) TIMEOUT_MS)
      as [Hlt|Hge].
    + eapply terminates_conseq;
        [apply (poll_update_request_continues start w Hlt)|].
      cbv beta. intros r w' [-> Hn]. apply IH. rewrite Hn.
      replace (n_timer w + 2 + 2 * k)%nat
        with (n_timer w + 2 * Datatypes.S k)%nat by lia.
      exact Hk.
    + exists 0%nat, (inr None),
        (log (EvRead TIMER_VALUE (u32 (timer_in hw (n_timer w)))) w).
      split; [reflexivity|]. intros fuel _.
      unfold poll_update_request, bind. rewrite get_time_ms_eq.
      destruct (Z.ltb_spec (sub32 (ms_at hw (n_timer w)) start) TIMEOUT_MS);
        [lia|reflexivity].
Qed.

Lemma terminates_check_for_update_request (w : world) :
  terminates (check_for_update_request hw) w
    (fun b w' => b = false /\ frame w w').
Proof.
  assert (Ht : terminates (check_for_update_request hw) w (fun _ _ => True)).
  { unfold check_for_update_request.
    eapply terminates_bind; [apply (total_uart_puts tx_ok)|intros u w1 _].
    apply terminates_bind with
      (Q1 := fun start w2 => start = ms_at hw (n_timer w1) /\
                             n_timer w2 = (n_timer w1 + 1)%nat).
    { eexists 0%nat, _, _. split; [|intros; apply get_time_ms_eq].
      split; reflexivity. }
    intros start w2 [-> Hn].
    apply terminates_bind with (Q1 := fun r _ => r = None).
    { apply loop_terminates_while.
      destruct (clock_ok (n_timer w1) (TIMEOUT_MS - 1)) as (k & Hk);
        [unfold TIMEOUT_MS; lia|].
      destruct (Nat.Even_or_Odd k) as [[q Hq]|[q Hq]].
      - apply (poll_loop_terminates _ q). rewrite Hn.
        specialize (Hk k ltac:(lia)).
        replace (n_timer w1 + 1 + 2 * q)%nat with (n_timer w1 + 1 + k)%nat by lia.
        lia.
      - apply (poll_loop_terminates _ (q + 1)). rewrite Hn.
        specialize (Hk (k + 1)%nat ltac:(lia)).
        replace (n_timer w1 + 1 + 2 * (q + 1))%nat
          with (n_timer w1 + 1 + (k + 1))%nat by lia.
        lia. }
    intros r w3 ->.
    assert (Htot : total (uart_puts hw crlf ;; ret false)) by total_tac tx_ok.
    apply Htot. }
  eapply terminates_conseq;
    [apply (terminates_hoare _ _ _ _
              (terminates_tame _ _ _ Ht tame_check_for_update_request)
              check_for_update_request_no_input)|].
  cbv beta. intros b w' [[_ F] Hb]. split; [now apply Hb|exact F].
Qed.


Lemma terminates_puts_frame (str : string) (w : world) :
  terminates (uart_puts hw str) w (fun _ w' => frame w w').
Proof.
  eapply terminates_conseq;
    [apply (terminates_tame _ _ _ (total_uart_puts tx_ok str w)
              (tame_uart_puts str))|].
  cbv beta. intros u w' [_ F]. exact F.
Qed.

(** With an invalid resident image and no input, enough fuel takes
    [bootloader_main] into the recovery loop. *)
Lemma bootloader_main_reaches_recovery (w : world) :
  table_inv w ->
  resident_verdict (mem w) APP_START_ADDR <> Valid ->
  exists F w_p,
    frame w w_p /\
    forall fuel, (F <= fuel)%nat ->
      bootloader_main hw fuel w = recovery_loop hw fuel w_p.
Proof.
  intros Hinv Hbad.
  assert (Hban : terminates (banner hw) w (fun _ w' => frame w w')).
  { assert (Htot : total (banner hw)) by (unfold banner; total_tac tx_ok).
    eapply terminates_conseq;
      [apply (terminates_tame _ _ _ (Htot w) tame_banner)|].
    cbv beta. intros u w' [_ F]. exact F. }
  destruct (terminates_bind_eq _ _ _ Hban) as (F1 & u1 & w1 & Fr1 & E1).
  destruct (terminates_bind_eq _ _ _ (terminates_check_for_update_request w1))
    as (F2 & b & w2 & [-> Fr2] & E2).
  destruct (terminates_bind_eq _ _ _
              (terminates_puts_frame ("Verifying application..." ++ crlf) w2))
    as (F3 & u3 & w3 & Fr3 & E3).
  assert (Hver : terminates (verify_application hw APP_START_ADDR) w3
                   (fun ok w' => ok = false /\ frame w3 w')).
  { eapply terminates_conseq;
      [apply (terminates_hoare _ _ _ _
                (terminates_tame _ _ _
                   (total_verify_application APP_START_ADDR tx_ok w3)
                   (tame_verify_application APP_START_ADDR))
                (verify_application_spec APP_START_ADDR))|].
    cbv beta zeta. intros ok w' [[_ F] (e & _ & _ & Hb)].
    split; [|exact F]. rewrite (Hb ok eq_refl).
    assert (F03 : frame w w3).
    { eapply frame_trans; [|exact Fr3].
      eapply frame_trans; [exact Fr1|exact Fr2]. }
    rewrite resident_verdict_computed by (apply F03, Hinv).
    rewrite (frame_verdict _ _ _ F03).
    destruct (resident_verdict (mem w) APP_START_ADDR);
      try reflexivity; contradiction. }
  destruct (terminates_bind_eq _ _ _ Hver) as (F4 & ok & w4 & [-> Fr4] & E4).
  destruct (terminates_bind_eq _ _ _
              (terminates_puts_frame
                 (crlf ++ "ERROR: No valid application found!" ++ crlf) w4))
    as (F5 & u5 & w5 & Fr5 & E5).
  destruct (terminates_bind_eq _ _ _
              (terminates_puts_frame ("Entering recovery mode..." ++ crlf) w5))
    as (F6 & u6 & w6 & Fr6 & E6).
  destruct (terminates_bind_eq _ _ _
              (terminates_puts_frame
                 ("Send firmware via UART to recover." ++ crlf) w6))
    as (F7 & u7 & w7 & Fr7 & E7).
  exists (F1 + F2 + F3 + F4 + F5 + F6 + F7)%nat, w7. split.
  { repeat (eapply frame_trans; [|eassumption]). apply frame_refl. }
  intros fuel Hf. unfold bootloader_main.
  rewrite E1, E2 by lia. unfold bind at 1. cbn [ret].
  unfold verify_and_boot. rewrite E3, E4 by lia. cbn [negb].
  unfold enter_recovery. rewrite E5, E6, E7 by lia. reflexivity.
Qed.

(** Liveness of the recovery loop: for every [n] there is a fuel from
    which [bootloader_main] is inside the loop with at least [n] failed
    attempts, each followed by its delay, behind it. *)
Lemma bootloader_main_keeps_retrying (w : world) (n : nat) :
  table_inv w ->
  resident_verdict (mem w) APP_START_ADDR <> Valid ->
  exists fuel0, forall fuel, (fuel0 <= fuel)%nat ->
    exists w' e_cur e_rec e_pre,
      bootloader_main hw fuel w = (Stop OutOfFuel, w') /\
      mem w' = mem w /\
      trace w' = e_cur ++ e_rec ++ e_pre ++ trace w /\
      recovery_trace n e_rec.
Proof.
  intros Hinv Hbad.
  destruct (bootloader_main_reaches_recovery w Hinv Hbad)
    as (F1 & w_p & Fp & E1).
  destruct (recovery_iterations n w_p) as (F2 & e & Htr & E2).
  exists (F1 + F2 + n)%nat. intros fuel Hf.
  rewrite E1 by lia. unfold recovery_loop, while.
  assert (Hloop :
    @loop_n unit unit (fun _ : unit => recovery_iteration hw ;; continue tt)
            fuel tt fuel w_p
    = loop_n (fun _ : unit => recovery_iteration hw ;; continue tt)
             (fuel - n) tt fuel (advance e w_p)).
  { rewrite <- (E2 (fuel - n)%nat fuel) by lia. f_equal. lia. }
  rewrite Hloop.
  destruct (loop_n _ (fuel - n) tt fuel (advance e w_p)) as [r w'] eqn:Hrun.
  apply recovery_loop_n_never_returns in Hrun as [Fr ->].
  destruct Fp as (Hm1 & _ & e_pre & Ht1).
  destruct Fr as (Hm2 & _ & e_cur & Ht2).
  exists w', e_cur, e, e_pre. split; [reflexivity|].
  rewrite advance_mem in Hm2. rewrite advance_trace in Ht2.
  split; [congruence|]. split; [|assumption].
  rewrite Ht2, Ht1. reflexivity.
Qed.

End Live.

End NoInput.

(** X24: with an image in the application region that fails validation,
    once the update offer has been declined [bootloader_main] never
    returns, never jumps to the application and never reaches the final
    empty loop, whatever the fuel and whatever arrives later, and it
    leaves the application region alone; with no input the offer is
    declined; and with no input, a live transmitter and a live clock it
    gets, for every [n], through [n] failed update attempts, each followed
    by a wait that ends only at a timer reading at least 1000 ms past
    the wait's first reading in the code's 32-bit arithmetic, and is
    still in the loop. *)
Theorem recovery_loop_forever (w : world) :
  table_inv w ->
  resident_verdict (mem w) APP_START_ADDR <> Valid ->
  (forall fuel w1,
      (banner hw ;; check_for_update_request hw) fuel w = (Ret false, w1) ->
      forall r w',
        bootloader_main hw fuel w = (r, w') ->
        r = Stop OutOfFuel /\ mem w' = mem w) /\
  (no_input hw ->
   forall fuel r w',
     (banner hw ;; check_for_update_request hw) fuel w = (r, w') ->
     forall b, r = Ret b -> b = false) /\
  (forall fuel w0 r w',
      recovery_loop hw fuel w0 = (r, w') ->
      r = Stop OutOfFuel /\ mem w' = mem w0) /\
  (no_input hw -> tx_live hw -> clock_live hw ->
   forall n, exists fuel0, forall fuel, (fuel0 <= fuel)%nat ->
     exists w' e_cur e_rec e_pre,
       bootloader_main hw fuel w = (Stop OutOfFuel, w') /\
       mem w' = mem w /\
       trace w' = e_cur ++ e_rec ++ e_pre ++ trace w /\
       recovery_trace n e_rec).
Proof.
  intros Hinv Hbad. split; [|split; [|split]].
  - intros fuel w1 Hpre r w' Hrun.
    destruct (bootloader_main_declined w fuel w1 Hinv Hbad Hpre r w' Hrun)
      as [(Hm & _) ->]. auto.
  - intros Hq fuel r w' Hrun b Hr. subst r.
    apply bind_inv in Hrun as [(u & w1 & _ & Hc)|(s & _ & Hs)]; [|discriminate].
    exact (check_for_update_request_no_input Hq _ _ _ _ Hc b eq_refl).
  - intros fuel w0 r w' Hrun.
    apply recovery_loop_never_returns in Hrun as [(Hm & _) ->]. auto.
  - intros Hq Htx Hclk n.
    exact (bootloader_main_keeps_retrying Hq Htx Hclk w n Hinv Hbad).
Qed.

(** ** Further properties of the basic I/O functions *)

(** X1: [uart_putc] never writes to a busy transmitter: a returning run is
    a series of status reads that found TX_EMPTY clear, one status read
    that found it set, and then the write of the character; a run short
    of fuel has made busy reads only.  With a live transmitter it
    returns. *)
Theorem uart_putc_waits_for_transmitter (c : Z) :
  (forall fuel w r w',
      uart_putc hw c fuel w = (r, w') ->
      (r = Ret tt /\
       exists v busy,
         w' = advance (EvWrite UART_TX_DATA (u32 c)
                       :: EvRead UART_STATUS v :: busy) w /\
         Z.land v UART_TX_EMPTY <> 0 /\ busy_reads UART_TX_EMPTY busy) \/
      (r = Stop OutOfFuel /\
       exists busy, w' = advance busy w /\ busy_reads UART_TX_EMPTY busy)) /\
  (tx_live hw -> forall w, terminates (uart_putc hw c) w (fun _ _ => True)).
Proof.
  split; [|intros tx; apply (total_uart_putc tx)].
  intros fuel w r w' Hrun. unfold uart_putc in Hrun.
  assert (Hwait : io_spec
            (while (fun _ : unit =>
                      s <- read_reg hw UART_STATUS ;;
                      if negb (negb (Z.land s UART_TX_EMPTY =? 0))
                      then continue tt else break tt) tt)
            (fun _ r e =>
               match r with
               | Ret _ => exists v busy,
                   e = EvRead UART_STATUS v :: busy /\
                   Z.land v UART_TX_EMPTY <> 0 /\
                   busy_reads UART_TX_EMPTY busy
               | Stop OutOfFuel => busy_reads UART_TX_EMPTY e
               | Stop _ => False
               end)).
  { apply (io_while _ (fun _ _ e => busy_reads UART_TX_EMPTY e)).
    - constructor.
    - intros [] f wa ra wb Hbody.
      bind_step Hbody s w1 H1;
        apply io_read_reg in H1 as (e1 & -> & v & Hv & -> & _);
        [|discriminate].
      inversion Hv; subst; clear Hv.
      exists [EvRead UART_STATUS v]. split.
      { destruct (negb (negb (Z.land v UART_TX_EMPTY =? 0))); now ret_inv Hbody. }
      intros w0 e0 _ He0. cbn [app].
      destruct (Z.eqb_spec (Z.land v UART_TX_EMPTY) 0) as [E|E];
        cbn [negb] in Hbody; ret_inv Hbody.
      + constructor; [eauto|assumption].
      + eauto.
    - auto. }
  bind_step Hrun u w1 H1; apply Hwait in H1 as (e & -> & He).
  - destruct He as (v & busy & -> & Hv & Hb).
    unfold write_reg in Hrun. inversion Hrun; subst. left.
    split; [reflexivity|]. exists v, busy. auto.
  - destruct s; try contradiction. right. eauto.
Qed.

(** X2: [uart_puts] transmits exactly the characters of its string, in
    order and nothing else, through status reads and data-register writes
    only (it reads neither the timer nor the receiver); with a live
    transmitter it returns. *)
Theorem uart_puts_transmits_string (str : string) :
  (forall fuel w w',
      uart_puts hw str fuel w = (Ret tt, w') ->
      exists e, w' = advance e w /\ tx_of e = chars str /\ output_only e) /\
  (tx_live hw ->
   forall w, terminates (uart_puts hw str) w
               (fun _ w' => text_of w' = text_of w ++ chars str)).
Proof.
  assert (Hio : forall fuel w w',
             uart_puts hw str fuel w = (Ret tt, w') ->
             exists e, w' = advance e w /\ tx_of e = chars str /\ output_only e).
  { intros fuel w w' Hrun.
    destruct (io_and _ _ _ (io_uart_puts str) (io_uart_puts_output str)
                _ _ _ _ Hrun) as (e & -> & [[_ Ht] Ho]).
    exists e. auto. }
  split; [exact Hio|].
  intros tx w. destruct (total_uart_puts tx str w) as (fuel & [] & w' & _ & Hrun).
  exists fuel, tt, w'. split; [|exact Hrun].
  destruct (Hio _ _ _ (Hrun fuel (Nat.le_refl _))) as (e & -> & Ht & _).
  unfold text_of. now rewrite advance_trace, tx_of_app, Ht.
Qed.

Lemma hex_digit_value_digit (x : Z) :
  0 <= x < 16 -> hex_digit_value (hex_digit x) = x /\ is_hex_digit (hex_digit x).
Proof.
  intros Hx. unfold hex_digit_value, hex_digit, is_hex_digit.
  destruct (Z.ltb_spec x 10).
  - destruct (Z.ltb_spec (48 + x) 58); lia.
  - destruct (Z.ltb_spec (65 + x - 10) 58); lia.
Qed.

Lemma nibble_range (value i : Z) : 0 <= Z.land (Z.shiftr value i) 0xF < 16.
Proof.
  change 0xF with (Z.ones 4). rewrite Z.land_ones by lia.
  apply Z.mod_pos_bound. reflexivity.
Qed.

Lemma hex_decode_nibbles (value : Z) (n s : nat) :
  fold_right (fun c acc => 16 * acc + hex_digit_value c) 0
    (map (fun k => hex_digit (Z.land (Z.shiftr value (4 * Z.of_nat k)) 0xF))
         (seq s n))
  = (value / 2 ^ (4 * Z.of_nat s)) mod 2 ^ (4 * Z.of_nat n).
Proof.
  revert s; induction n as [|n IH]; intros s.
  - cbn. now rewrite Z.mod_1_r.
  - cbn [seq map fold_right]. rewrite IH.
    rewrite (proj1 (hex_digit_value_digit _ (nibble_range value _))).
    change 0xF with (Z.ones 4). rewrite Z.land_ones by lia.
    rewrite Z.shiftr_div_pow2 by lia.
    set (x := value / 2 ^ (4 * Z.of_nat s)).
    replace (value / 2 ^ (4 * Z.of_nat (S s))) with (x / 2 ^ 4).
    2:{ unfold x. rewrite Z.div_div by (try apply Z.pow_pos_nonneg; lia).
        rewrite <- Z.pow_add_r by lia. f_equal. f_equal. lia. }
    replace (4 * Z.of_nat (S n)) with (4 + 4 * Z.of_nat n) by lia.
    rewrite Z.pow_add_r by lia.
    rewrite (Z.rem_mul_r x (2 ^ 4) (2 ^ (4 * Z.of_nat n)))
      by (try apply Z.pow_pos_nonneg; lia).
    change (2 ^ 4) with 16. lia.
Qed.


(** X4: [uart_getc] reads the data register exactly once, and only after
    a status read that showed RX_READY; the status reads before it all
    found the receiver empty.  The value returned is the low byte of that
    one data-register read. *)
Theorem uart_getc_waits_for_receiver (fuel : nat) (w : world)
    (r : outcome Z) (w' : world) :
  uart_getc hw fuel w = (r, w') ->
  (exists v s idle,
      r = Ret (u8 v) /\ v = u32 (data_in hw (n_data w)) /\
      w' = advance (EvRead UART_TX_DATA v :: EvRead UART_STATUS s :: idle) w /\
      Z.land s UART_RX_READY <> 0 /\ busy_reads UART_RX_READY idle) \/
  (r = Stop OutOfFuel /\
   exists idle, w' = advance idle w /\ busy_reads UART_RX_READY idle).
Proof.
  intros Hrun. unfold uart_getc in Hrun.
  assert (Hwait : io_spec
            (while (fun _ : unit =>
                      r <- uart_rx_ready hw ;;
                      if negb r then continue tt else break tt) tt)
            (fun _ r e =>
               match r with
               | Ret _ => exists s idle,
                   e = EvRead UART_STATUS s :: idle /\
                   Z.land s UART_RX_READY <> 0 /\
                   busy_reads UART_RX_READY idle
               | Stop OutOfFuel => busy_reads UART_RX_READY e
               | Stop _ => False
               end)).
  { apply (io_while _ (fun _ _ e => busy_reads UART_RX_READY e)).
    - constructor.
    - intros [] f wa ra wb Hbody.
      bind_step Hbody b w1 H1;
        apply io_uart_rx_ready in H1 as (e1 & -> & v & -> & Hv);
        [|discriminate].
      inversion Hv; subst; clear Hv.
      exists [EvRead UART_STATUS v]. split.
      { destruct (negb (negb (Z.land v UART_RX_READY =? 0))); now ret_inv Hbody. }
      intros w0 e0 _ He0. cbn [app].
      destruct (Z.eqb_spec (Z.land v UART_RX_READY) 0) as [E|E];
        cbn [negb] in Hbody; ret_inv Hbody.
      + constructor; [eauto|assumption].
      + eauto.
    - auto. }
  bind_step Hrun u w1 H1; apply Hwait in H1 as (e & -> & He).
  - destruct He as (s & idle & -> & Hs & Hb). left.
    unfold bind, read_reg, ret in Hrun. inversion Hrun; subst.
    assert (Hn : (n_data (advance idle w) + 0)%nat = n_data w).
    { rewrite Nat.add_0_r. clear - Hb.
      induction Hb as [|ev idle (v & -> & _) _ IH]; [reflexivity|].
      cbn. now rewrite Nat.add_0_r. }
    rewrite Hn. exists (u32 (data_in hw (n_data w))), s, idle. auto.
  - destruct s; try contradiction. right. eauto.
Qed.

(** ** Time keeping *)

Lemma ms_at_range (i : nat) : 0 <= ms_at hw i <= 85899.
Proof.
  unfold ms_at, ms_of, u32.
  pose proof (Z.mod_pos_bound (timer_in hw i) (2 ^ 32) eq_refl) as Hv.
  split.
  - apply Z.div_pos; lia.
  - apply Z.lt_succ_r. apply Z.div_lt_upper_bound; lia.
Qed.

Lemma elapsed_after_wrap (start now : Z) :
  0 <= now -> now < start -> start <= 85899 ->
  sub32 now start = now - start + 2 ^ 32.
Proof.
  intros H0 H1 H2. unfold sub32, u32. symmetry.
  apply (Z.mod_unique _ _ (-1)); lia.
Qed.

(** X5: the millisecond clock of [get_time_ms] never exceeds 85899, yet
    elapsed time is taken modulo 2^32.  So when the second timer reading
    of [delay_ms] shows fewer milliseconds than the first (the 32-bit
    counter wrapped in between), [delay_ms] returns after those two
    reads, for every requested delay up to 2^32 - 85899 ms. *)
Theorem delay_ms_returns_on_timer_wrap (ms : Z) (fuel : nat) (w : world) :
  ms <= 2 ^ 32 - 85899 ->
  ms_at hw (S (n_timer w)) < ms_at hw (n_timer w) ->
  (1 <= fuel)%nat ->
  delay_ms hw ms fuel w
  = (Ret tt,
     advance [EvRead TIMER_VALUE (u32 (timer_in hw (S (n_timer w))));
              EvRead TIMER_VALUE (u32 (timer_in hw (n_timer w)))] w).
Proof.
  intros Hms Hwrap Hfuel. unfold delay_ms, bind at 1.
  rewrite get_time_ms_eq. unfold while.
  destruct fuel as [|fuel]; [lia|]. cbn [loop_n]. unfold bind.
  rewrite get_time_ms_eq. cbn [log n_timer]. rewrite Nat.add_1_r.
  pose proof (ms_at_range (n_timer w)). pose proof (ms_at_range (S (n_timer w))).
  rewrite elapsed_after_wrap by lia.
  destruct (Z.ltb_spec (ms_at hw (S (n_timer w)) - ms_at hw (n_timer w) + 2 ^ 32) ms);
    [lia|reflexivity].
Qed.

(** X6: in the same situation [uart_receive_bytes] reports a timeout at
    once: when the timer wraps between its first two readings it returns
    false after those two reads, for every timeout below 2^32 - 85899 ms,
    without looking at the receiver and leaving the buffer as it was. *)
Theorem uart_receive_bytes_times_out_on_timer_wrap
    (buffer : list Z) (length timeout_ms : Z) (fuel : nat) (w : world) :
  0 < length ->
  timeout_ms < 2 ^ 32 - 85899 ->
  ms_at hw (S (n_timer w)) < ms_at hw (n_timer w) ->
  (1 <= fuel)%nat ->
  uart_receive_bytes hw buffer length timeout_ms fuel w
  = (Ret (false, buffer),
     advance [EvRead TIMER_VALUE (u32 (timer_in hw (S (n_timer w))));
              EvRead TIMER_VALUE (u32 (timer_in hw (n_timer w)))] w).
Proof.
  intros Hlen Hto Hwrap Hfuel. unfold uart_receive_bytes, bind at 1.
  rewrite get_time_ms_eq. unfold while.
  destruct fuel as [|fuel]; [lia|]. cbn [loop_n].
  destruct (Z.ltb_spec 0 length); [|lia].
  unfold bind. rewrite get_time_ms_eq. cbn [log n_timer]. rewrite Nat.add_1_r.
  pose proof (ms_at_range (n_timer w)). pose proof (ms_at_range (S (n_timer w))).
  rewrite elapsed_after_wrap by lia.
  destruct (Z.gtb_spec (ms_at hw (S (n_timer w)) - ms_at hw (n_timer w) + 2 ^ 32)
              timeout_ms); [reflexivity|lia].
Qed.

(** X7: [delay_ms] reads nothing but the timer, and returns only once a
    reading shows at least [ms] milliseconds (modulo 2^32) since its
    first reading; with a clock that makes progress it does return, for
    delays up to 30 s. *)
Theorem delay_ms_waits (ms : Z) :
  (forall fuel w w',
      delay_ms hw ms fuel w = (Ret tt, w') ->
      exists e v0 v1,
        w' = advance e w /\ Forall is_timer_read e /\
        timed v0 v1 e /\ ms <= sub32 (ms_of v1) (ms_of v0)) /\
  (clock_live hw -> ms <= 30001 ->
   forall w, terminates (delay_ms hw ms) w (fun _ _ => True)).
Proof.
  split.
  - intros fuel w w' Hrun.
    destruct (io_delay_ms ms _ _ _ _ Hrun)
      as (e & -> & _ & Ht & v0 & v1 & Htimed & Hge).
    exists e, v0, v1. repeat split; auto. lia.
  - intros Hclock Hms. apply (total_delay_ms Hclock ms Hms).
Qed.

(** X8: asked for zero bytes, [uart_receive_bytes] reads the timer once
    and returns true, with the buffer untouched, whatever the timeout and
    whatever the receiver holds. *)
Theorem uart_receive_bytes_zero_length
    (buffer : list Z) (timeout_ms : Z) (fuel : nat) (w : world) :
  (1 <= fuel)%nat ->
  uart_receive_bytes hw buffer 0 timeout_ms fuel w
  = (Ret (true, buffer),
     advance [EvRead TIMER_VALUE (u32 (timer_in hw (n_timer w)))] w).
Proof.
  intros Hfuel. unfold uart_receive_bytes, bind.
  rewrite get_time_ms_eq. unfold while.
  destruct fuel as [|fuel]; [lia|]. reflexivity.
Qed.

(** X9: on a silent line with a running clock, [uart_receive_bytes]
    returns false for any request of at least one byte and any timeout up
    to 30 s, having transmitted nothing, consumed nothing and left the
    buffer as it was. *)
Theorem uart_receive_bytes_silent_line
    (buffer : list Z) (length timeout_ms : Z) (w : world) :
  no_input hw -> clock_live hw ->
  0 < length <= Z.of_nat (List.length buffer) -> timeout_ms <= 30000 ->
  terminates (uart_receive_bytes hw buffer length timeout_ms) w
    (fun r w' =>
       r = (false, buffer) /\ exists e, w' = advance e w /\ quiet e).
Proof.
  intros Hin Hclock Hlen Hto.
  destruct (uart_receive_bytes_times_out Hin Hclock buffer length timeout_ms w
              ltac:(lia) Hto) as (fuel & [ok buffer'] & w' & Hok & Hrun).
  cbn [fst] in Hok. subst ok.
  exists fuel, (false, buffer'), w'. split; [|exact Hrun].
  specialize (Hrun fuel (Nat.le_refl _)).
  destruct (io_and _ _ _ (io_uart_receive_bytes buffer length timeout_ms)
              (io_uart_receive_bytes_no_input Hin buffer length timeout_ms)
              _ _ _ _ Hrun) as (e & -> & Hpost & Hrx).
  destruct Hpost as (Htx & _ & _ & Hbuf & _).
  rewrite Hrx in Hbuf. cbn [List.length skipn app] in Hbuf.
  rewrite Hbuf by lia.
  split; [reflexivity|]. exists e. split; [reflexivity|]. split; assumption.
Qed.

(** ** CRC32 as a function of the bytes *)

(** X10: [crc32_calculate] behaves as a pure function of the bytes: its
    result is a 32-bit value that is the same in any two states whose
    table is either untouched or built; the call changes neither memory
    nor trace, leaves the table built, and a further call (on any data)
    then changes nothing at all. *)
Theorem crc32_calculate_pure (data data2 : Z -> Z) (length length2 : Z)
    (w1 w2 : world) :
  table_inv w1 -> table_inv w2 ->
  fst (crc32_calculate data length w1) = fst (crc32_calculate data length w2) /\
  0 <= fst (crc32_calculate data length w1) < 2 ^ 32 /\
  let w' := snd (crc32_calculate data length w1) in
  mem w' = mem w1 /\ trace w' = trace w1 /\
  crc32_table_initialized w' = true /\ table_inv w' /\
  snd (crc32_calculate data2 length2 w') = w'.
Proof.
  intros H1 H2. split; [|split].
  - now rewrite !crc32_calculate_reflected.
  - unfold crc32_calculate, fst, not32, u32. apply Z.mod_pos_bound. reflexivity.
  - cbn [crc32_calculate snd]. split; [apply crc32_init_table_mem|].
    split; [apply crc32_init_table_trace|].
    destruct (crc32_init_table_inv w1 H1) as [Hinv Hinit].
    split; [exact Hinit|]. split; [exact Hinv|].
    now apply crc32_init_table_idem.
Qed.

Lemma reflected_step_bit31 (x : Z) :
  0 <= x < 2 ^ 32 -> Z.testbit (reflected_step x) 31 = Z.testbit x 0.
Proof.
  intros Hx. unfold reflected_step.
  rewrite Z.lxor_spec, Z.shiftr_spec by lia.
  replace (Z.testbit x (31 + 1)) with false.
  2:{ symmetry. rewrite <- (Z.mod_small x (2 ^ 32)) by lia.
      apply Z.mod_pow2_bits_high. lia. }
  destruct (Z.testbit x 0); reflexivity.
Qed.

Lemma lxor_cancel_r (a b c : Z) : Z.lxor a c = Z.lxor b c -> a = b.
Proof.
  intros H.
  rewrite <- (Z.lxor_0_r a), <- (Z.lxor_0_r b), <- (Z.lxor_nilpotent c).
  rewrite <- !Z.lxor_assoc. now rewrite H.
Qed.

Lemma reflected_step_inj (x y : Z) :
  0 <= x < 2 ^ 32 -> 0 <= y < 2 ^ 32 ->
  reflected_step x = reflected_step y -> x = y.
Proof.
  intros Hx Hy H.
  assert (Hb : Z.testbit x 0 = Z.testbit y 0).
  { rewrite <- !reflected_step_bit31 by assumption. now rewrite H. }
  unfold reflected_step in H. rewrite Hb in H. apply lxor_cancel_r in H.
  rewrite (Z.div2_odd x), (Z.div2_odd y).
  rewrite <- !Z.bit0_odd, Hb. rewrite !Z.div2_spec, H. reflexivity.
Qed.

Lemma iter_reflected_range (n : nat) (x : Z) :
  0 <= x < 2 ^ 32 -> 0 <= Nat.iter n reflected_step x < 2 ^ 32.
Proof.
  intros Hx. induction n as [|n IH]; [exact Hx|].
  rewrite Nat.iter_succ. now apply reflected_step_range.
Qed.

Lemma iter_reflected_inj (n : nat) (x y : Z) :
  0 <= x < 2 ^ 32 -> 0 <= y < 2 ^ 32 ->
  Nat.iter n reflected_step x = Nat.iter n reflected_step y -> x = y.
Proof.
  intros Hx Hy. induction n as [|n IH]; [auto|].
  rewrite !Nat.iter_succ. intros H. apply IH.
  apply reflected_step_inj; [now apply iter_reflected_range..|exact H].
Qed.

Lemma byte_in_word (b : Z) : is_byte b -> 0 <= b < 2 ^ 32.
Proof. unfold is_byte. lia. Qed.

Lemma reflected_byte_inj (s s' b b' : Z) :
  0 <= s < 2 ^ 32 -> 0 <= s' < 2 ^ 32 -> is_byte b -> is_byte b' ->
  reflected_byte s b = reflected_byte s' b' -> Z.lxor s b = Z.lxor s' b'.
Proof.
  intros Hs Hs' Hb Hb'. unfold reflected_byte.
  apply iter_reflected_inj;
    (apply lxor_range; [lia|assumption|now apply byte_in_word]).
Qed.

Lemma reflected_fold_inj (c : list Z) (s s' : Z) :
  Forall is_byte c -> 0 <= s < 2 ^ 32 -> 0 <= s' < 2 ^ 32 ->
  fold_left reflected_byte c s = fold_left reflected_byte c s' -> s = s'.
Proof.
  intros Hc; revert s s'; induction Hc as [|b c Hb _ IH]; intros s s' Hs Hs' H.
  - exact H.
  - cbn [fold_left] in H.
    apply IH in H; [|now apply reflected_byte_range..].
    apply reflected_byte_inj in H; try assumption.
    now apply lxor_cancel_r in H.
Qed.

Lemma reflected_crc32_byte_change (a c : list Z) (b b' : Z) :
  Forall is_byte a -> Forall is_byte c -> is_byte b -> is_byte b' ->
  reflected_crc32 (a ++ b :: c) = reflected_crc32 (a ++ b' :: c) -> b = b'.
Proof.
  intros Ha Hc Hb Hb' H. unfold reflected_crc32 in H.
  apply lxor_cancel_r in H. rewrite !fold_left_app in H. cbn [fold_left] in H.
  assert (Hs : 0 <= fold_left reflected_byte a 0xFFFFFFFF < 2 ^ 32)
    by (apply reflected_fold_range; [assumption|lia]).
  apply reflected_fold_inj in H;
    [|assumption|now apply reflected_byte_range..].
  apply reflected_byte_inj in H; try assumption.
  rewrite (Z.lxor_comm _ b), (Z.lxor_comm _ b') in H.
  now apply lxor_cancel_r in H.
Qed.

Lemma bytes_at_split (data : Z -> Z) (n k : nat) :
  (k < n)%nat ->
  bytes_at data n
  = bytes_at data k ++ u8 (data (Z.of_nat k))
    :: map (fun i => u8 (data (Z.of_nat i))) (seq (S k) (n - S k)).
Proof.
  intros Hk. unfold bytes_at.
  replace n with (k + S (n - S k))%nat at 1 by lia.
  rewrite seq_app, map_app. reflexivity.
Qed.

Lemma crc32_byte_change (data data' : Z -> Z) (length k : Z) (w w' : world) :
  table_inv w -> table_inv w' ->
  0 <= k < length ->
  (forall i, 0 <= i < length -> i <> k -> u8 (data' i) = u8 (data i)) ->
  u8 (data' k) <> u8 (data k) ->
  fst (crc32_calculate data' length w') <> fst (crc32_calculate data length w).
Proof.
  intros Hw Hw' Hk Hsame Hdiff H.
  rewrite !crc32_calculate_reflected in H by assumption.
  rewrite (bytes_at_split data (Z.to_nat length) (Z.to_nat k)) in H by lia.
  rewrite (bytes_at_split data' (Z.to_nat length) (Z.to_nat k)) in H by lia.
  rewrite Z2Nat.id in H by lia.
  assert (Hpre : bytes_at data' (Z.to_nat k) = bytes_at data (Z.to_nat k)).
  { apply map_ext_in. intros i Hi. apply in_seq in Hi. apply Hsame; lia. }
  assert (Hpost : map (fun i => u8 (data' (Z.of_nat i)))
                    (seq (S (Z.to_nat k)) (Z.to_nat length - S (Z.to_nat k)))
                = map (fun i => u8 (data (Z.of_nat i)))
                    (seq (S (Z.to_nat k)) (Z.to_nat length - S (Z.to_nat k)))).
  { apply map_ext_in. intros i Hi. apply in_seq in Hi. apply Hsame; lia. }
  rewrite Hpre, Hpost in H.
  apply reflected_crc32_byte_change in H;
    try apply bytes_at_Forall; try apply u8_is_byte; auto.
  apply Forall_forall. intros x Hx. apply in_map_iff in Hx as (i & <- & _).
  apply u8_is_byte.
Qed.

(** X11: [crc32_calculate] detects every change confined to one byte:
    two byte sequences of the same length that differ in exactly one
    position never have the same CRC. *)
Theorem crc32_calculate_detects_byte_change
    (data data' : Z -> Z) (length k : Z) (w : world) :
  table_inv w ->
  0 <= k < length ->
  (forall i, 0 <= i < length -> i <> k -> u8 (data' i) = u8 (data i)) ->
  u8 (data' k) <> u8 (data k) ->
  fst (crc32_calculate data' length w) <> fst (crc32_calculate data length w).
Proof. intros Hw. now apply crc32_byte_change. Qed.

(** ** Further properties of [verify_application] *)

Lemma load8_poke_other (m : Z -> Z) (p v a : Z) :
  u32 a <> p -> load8 (poke m p v) a = load8 m a.
Proof.
  intros H. unfold load8, poke. destruct (Z.eqb_spec (u32 a) p); [contradiction|].
  reflexivity.
Qed.

Lemma load32_poke_other (m : Z -> Z) (p v a : Z) :
  0 <= a -> a + 3 < p -> p < 2 ^ 32 ->
  load32 (poke m p v) a = load32 m a.
Proof.
  intros H0 H1 H2. unfold load32.
  rewrite !load8_poke_other; [reflexivity|..];
    unfold u32; rewrite Z.mod_small by lia; lia.
Qed.



(** ** Further properties of [receive_firmware] *)

Lemma firmware_post_trace (w : world) (r : outcome bool) (w' : world) :
  firmware_post w r w' ->
  exists e,
    trace w' = e ++ trace w /\ mem w' = mem w /\
    (sizeof_header <= Z.of_nat (List.length (rx_of e)) ->
     let h := header_of_bytes (firstn 20 (rx_of e)) in
     Z.of_nat (List.length (rx_of e))
     <= sizeof_header + (if header_ok h then size h else 0)) /\
    forall b, r = Ret b ->
      b = firmware_result (rx_of e) /\ tx_of e = firmware_text (rx_of e).
Proof.
  intros (e & Hw & _ & Hbound & Hr). exists e.
  split; [|split; [|split; [exact Hbound|]]].
  - destruct Hw as [-> | ->];
      now rewrite advance_trace, ?crc32_init_table_trace.
  - destruct Hw as [-> | ->];
      now rewrite advance_mem, ?crc32_init_table_mem.
  - intros b ->. exact Hr.
Qed.

(** X14: [receive_firmware] returns true exactly when it has consumed a
    20-byte header with the right magic and a size within the capacity,
    followed by exactly [size] further bytes whose CRC32 equals the
    header's crc32 field.  Even then the memory, and with it the resident
    image, is left as it was: programming is only simulated. *)
Theorem receive_firmware_accepts_iff (fuel : nat) (w : world)
    (b : bool) (w' : world) :
  table_inv w ->
  receive_firmware hw fuel w = (Ret b, w') ->
  exists e,
    trace w' = e ++ trace w /\ mem w' = mem w /\
    let rx := rx_of e in
    let h := header_of_bytes (firstn 20 rx) in
    (b = true <->
     Z.of_nat (List.length rx) = sizeof_header + size h /\
     magic h = BOOT_MAGIC /\ size h <= MAX_APP_SIZE /\
     reflected_crc32 (skipn 20 rx) = crc32 h).
Proof.
  intros Hinv Hrun.
  destruct (firmware_post_trace _ _ _ (receive_firmware_spec _ _ _ _ Hrun Hinv))
    as (e & Ht & Hm & Hbound & Hr).
  destruct (Hr b eq_refl) as [Hb _].
  exists e. split; [exact Ht|]. split; [exact Hm|]. cbv zeta in Hbound |- *.
  rewrite Hb. unfold firmware_result, session_result.
  rewrite length_skipn. unfold sizeof_header in *.
  set (rx := rx_of e) in *. set (h := header_of_bytes (firstn 20 rx)) in *.
  pose proof (header_size_nonneg (firstn 20 rx)) as Hsz. fold h in Hsz.
  unfold header_ok in *.
  destruct (Z.ltb_spec (Z.of_nat (List.length rx)) 20) as [Hlt|Hge]; cbn [negb andb].
  { split; [discriminate|]. lia. }
  specialize (Hbound Hge).
  destruct (Z.eqb_spec (magic h) BOOT_MAGIC) as [Hmg|Hmg]; cbn [andb] in *.
  2:{ split; [discriminate|]. tauto. }
  destruct (Z.gtb_spec (size h) MAX_APP_SIZE) as [Hbig|Hok]; cbn [negb andb] in *.
  { split; [discriminate|]. lia. }
  destruct (Z.ltb_spec (Z.of_nat (List.length rx - 20)) (size h)) as [Hshort|Hfull];
    cbn [negb andb].
  { split; [discriminate|]. lia. }
  destruct (Z.eqb_spec (reflected_crc32 (skipn 20 rx)) (crc32 h)) as [Hc|Hc].
  - split; [|reflexivity]. intros _. repeat split; auto; lia.
  - split; [discriminate|]. tauto.
Qed.

(** X15: every failed session names its cause.  A run of
    [receive_firmware] that returns false has printed, after the prompt,
    exactly one of: the header-timeout line (fewer than 20 bytes came);
    the invalid-magic line with the received magic; the too-large line;
    the data-timeout line after one dot per complete 128-byte chunk; or
    the CRC-mismatch line after all [size] bytes.  Nothing is read past
    a rejected header. *)
Theorem receive_firmware_failure_report (fuel : nat) (w w' : world) :
  table_inv w ->
  receive_firmware hw fuel w = (Ret false, w') ->
  exists e,
    trace w' = e ++ trace w /\
    let rx := rx_of e in
    let h := header_of_bytes (firstn 20 rx) in
    let n := Z.of_nat (List.length rx) in
    (n < 20 /\ tx_of e = prompt_text ++ header_timeout_text) \/
    (n = 20 /\ magic h <> BOOT_MAGIC /\
     tx_of e = prompt_text ++ chars "ERROR: Invalid magic - " ++
               hex_text (magic h) ++ chars crlf) \/
    (n = 20 /\ magic h = BOOT_MAGIC /\ size h > MAX_APP_SIZE /\
     tx_of e = prompt_text ++ chars ("ERROR: Firmware too large" ++ crlf)) \/
    (20 <= n < 20 + size h /\ header_ok h = true /\
     tx_of e = prompt_text ++ announce_text h ++ dots ((n - 20) / 128) ++
               data_timeout_text) \/
    (n = 20 + size h /\ header_ok h = true /\
     reflected_crc32 (skipn 20 rx) <> crc32 h /\
     tx_of e = prompt_text ++ announce_text h ++ dots ((size h + 127) / 128) ++
               chars (" done" ++ crlf) ++ crc_mismatch_text).
Proof.
  intros Hinv Hrun.
  destruct (firmware_post_trace _ _ _ (receive_firmware_spec _ _ _ _ Hrun Hinv))
    as (e & Ht & _ & Hbound & Hr).
  destruct (Hr false eq_refl) as [Hb Htx].
  exists e. split; [exact Ht|]. cbv zeta in Hbound |- *.
  rewrite Htx. unfold firmware_result, session_result in Hb.
  unfold firmware_text, session_text.
  rewrite length_skipn in *. unfold sizeof_header in *.
  set (rx := rx_of e) in *. set (h := header_of_bytes (firstn 20 rx)) in *.
  pose proof (header_size_nonneg (firstn 20 rx)) as Hsz. fold h in Hsz.
  unfold header_ok in *.
  destruct (Z.ltb_spec (Z.of_nat (List.length rx)) 20) as [Hlt|Hge].
  { left. auto. }
  specialize (Hbound Hge). right.
  destruct (Z.eqb_spec (magic h) BOOT_MAGIC) as [Hmg|Hmg]; cbn [negb andb] in *.
  2:{ left. repeat split; auto. lia. }
  right.
  destruct (Z.gtb_spec (size h) MAX_APP_SIZE) as [Hbig|Hok]; cbn [negb andb] in *.
  { left. repeat split; auto; lia. }
  right.
  replace (Z.of_nat (List.length rx - 20)) with (Z.of_nat (List.length rx) - 20)
    in * by lia.
  destruct (Z.ltb_spec (Z.of_nat (List.length rx) - 20) (size h)) as [Hshort|Hfull];
    cbn [negb andb] in *.
  { left. repeat split; auto; lia. }
  right.
  destruct (Z.eqb_spec (reflected_crc32 (skipn 20 rx)) (crc32 h)) as [Hc|Hc];
    [discriminate|].
  repeat split; auto; lia.
Qed.

(** X16: a successful session shows its progress: after the prompt and
    the version and size report, [receive_firmware] has printed one dot
    per chunk of at most 128 bytes, that is (size + 127) / 128 dots, then
    " done" and the two success lines, and nothing else. *)
Theorem receive_firmware_success_report (fuel : nat) (w w' : world) :
  table_inv w ->
  receive_firmware hw fuel w = (Ret true, w') ->
  exists e,
    trace w' = e ++ trace w /\
    let h := header_of_bytes (firstn 20 (rx_of e)) in
    tx_of e = prompt_text ++ announce_text h ++ dots ((size h + 127) / 128) ++
              chars (" done" ++ crlf) ++ success_text.
Proof.
  intros Hinv Hrun.
  destruct (firmware_post_trace _ _ _ (receive_firmware_spec _ _ _ _ Hrun Hinv))
    as (e & Ht & _ & _ & Hr).
  destruct (Hr true eq_refl) as [Hb Htx].
  exists e. split; [exact Ht|]. cbv zeta.
  rewrite Htx. unfold firmware_result, session_result, header_ok in Hb.
  unfold firmware_text, session_text.
  set (h := header_of_bytes (firstn 20 (rx_of e))) in *.
  destruct (Z.of_nat (List.length (rx_of e)) <? sizeof_header);
    [discriminate|]. cbn [negb andb] in Hb.
  destruct (magic h =? BOOT_MAGIC); [|discriminate].
  destruct (size h >? MAX_APP_SIZE); [discriminate|]. cbn [negb andb] in Hb |- *.
  destruct (Z.of_nat (List.length (skipn 20 (rx_of e))) <? size h);
    [discriminate|]. cbn [negb andb] in Hb.
  rewrite <- Hb. reflexivity.
Qed.

(** ** The update offer *)

Lemma rx_of_timer_read (v : Z) (e : list event) :
  rx_of (EvRead TIMER_VALUE v :: e) = rx_of e.
Proof. reflexivity. Qed.

(** X17: [check_for_update_request] takes at most one byte from the
    receiver.  It returns true only if it took a byte and that byte is
    'U' or 'u'; any other byte makes it return false at once.  With no
    byte taken it returns false, and only after a timer reading that is
    at least TIMEOUT_MS = 3000 ms (modulo 2^32) past the reading made
    right after the prompt: the window is not cut short. *)
Theorem check_for_update_request_key (fuel : nat) (w : world)
    (r : outcome bool) (w' : world) :
  check_for_update_request hw fuel w = (r, w') ->
  exists e,
    trace w' = e ++ trace w /\
    match r with
    | Ret b =>
        (rx_of e = [] /\ b = false /\
         exists e_prompt e_window e_end v0 v1,
           e = e_end ++ e_window ++ e_prompt /\
           tx_of e_prompt
           = chars ("Press 'U' for update mode (3s timeout)..." ++ crlf) /\
           timed v0 v1 e_window /\
           TIMEOUT_MS <= sub32 (ms_of v1) (ms_of v0)) \/
        (exists c, rx_of e = [c] /\ b = ((c =? 85) || (c =? 117)))
    | Stop OutOfFuel => rx_of e = []
    | Stop _ => False
    end.
Proof.
  intros Hrun. unfold check_for_update_request in Hrun.
  bind_step Hrun u w1 H1;
    apply io_uart_puts in H1 as (e1 & -> & Hrx1 & Htx1).
  2:{ exists e1. rewrite advance_trace. split; [reflexivity|].
      destruct s; try contradiction. exact Hrx1. }
  bind_step Hrun start w2 H2; rewrite get_time_ms_eq in H2; [|discriminate].
  inversion H2; subst start w2; clear H2.
  set (w2 := log _ (advance e1 w)) in Hrun.
  assert (Hloop : hoare (while (poll_update_request hw
                                  (ms_at hw (n_timer (advance e1 w)))) tt)
            (fun w0 (r : outcome (option bool)) w' =>
               exists e, trace w' = e ++ trace w0 /\
                 match r with
                 | Ret (Some b) =>
                     exists c, rx_of e = [c] /\ b = ((c =? 85) || (c =? 117))
                 | Ret None =>
                     rx_of e = [] /\
                     exists v1 mid,
                       e = EvRead TIMER_VALUE v1 :: mid /\
                       ~ sub32 (ms_of v1) (ms_at hw (n_timer (advance e1 w)))
                         < TIMEOUT_MS
                 | Stop OutOfFuel => rx_of e = []
                 | Stop _ => False
                 end)).
  { apply (hoare_while _ (fun w0 _ w =>
                            exists e, trace w = e ++ trace w0 /\ rx_of e = [])).
    - intros w0. exists []. auto.
    - intros w0 [] f wa ra wb (e0 & Ht0 & Hr0) Hbody.
      unfold poll_update_request in Hbody.
      bind_step Hbody now wc Hc; rewrite get_time_ms_eq in Hc; [|discriminate].
      inversion Hc; subst now wc; clear Hc.
      destruct (Z.ltb_spec (sub32 (ms_at hw (n_timer wa))
                              (ms_at hw (n_timer (advance e1 w))))
                  TIMEOUT_MS) as [Hin|Hout].
      2:{ ret_inv Hbody. eexists (_ :: e0). cbn [trace log]. rewrite Ht0.
          split; [reflexivity|]. split; [exact Hr0|].
          eexists _, e0. split; [reflexivity|].
          fold (ms_at hw (n_timer wa)). lia. }
      bind_step Hbody rdy wd Hd;
        apply io_uart_rx_ready in Hd as (ed & -> & v & -> & Hd);
        [|discriminate].
      inversion Hd; subst rdy; clear Hd.
      destruct (negb (Z.land v UART_RX_READY =? 0)).
      + bind_step Hbody c we He;
          apply io_uart_getc in He as (eg & -> & _ & Hg).
        * destruct Hg as [Hg _].
          assert (Hrx : rx_of (eg ++ [EvRead UART_STATUS v]
                                  ++ EvRead TIMER_VALUE
                                       (u32 (timer_in hw (n_timer wa))) :: e0)
                        = [c]).
          { rewrite !rx_of_app. cbn [rx_of]. now rewrite Hr0, Hg. }
          destruct ((c =? 85) || (c =? 117)) eqn:E; ret_inv Hbody;
            (eexists (eg ++ [EvRead UART_STATUS v] ++ _ :: e0);
             rewrite !advance_trace; cbn [trace log]; rewrite Ht0;
             split; [now rewrite <- !app_assoc|];
             exists c; rewrite E; auto).
        * eexists (eg ++ [EvRead UART_STATUS v] ++ _ :: e0).
          rewrite !advance_trace. cbn [trace log]. rewrite Ht0.
          split; [now rewrite <- !app_assoc|].
          destruct s; try contradiction.
          rewrite !rx_of_app. cbn [rx_of]. now rewrite Hr0, Hg.
      + bind_step Hbody now2 we He; rewrite get_time_ms_eq in He; [|discriminate].
        inversion He; subst now2 we; clear He.
        bind_step Hbody wx wf Hf; [|discriminate].
        inversion Hf; subst wx wf; clear Hf.
        match type of Hbody with
        | context [trace ?x] => idtac
        | (bind _ _) _ ?x = _ => set (wg := x) in *
        end.
        assert (Hg : exists e, trace wg = e ++ trace w0 /\ rx_of e = []).
        { eexists (_ :: [EvRead UART_STATUS v] ++ _ :: e0).
          unfold wg. cbn [trace log]. rewrite Ht0. split; [reflexivity|].
          cbn [rx_of app]. exact Hr0. }
        clearbody wg. destruct Hg as (eg & Htg & Hrg).
        bind_step Hbody u2 wh Hh.
        * ret_inv Hbody.
          destruct (_ >? last_dot wg).
          -- apply bind_inv in Hh as [(u3 & wi & Hi & Hh)|(s & _ & Hs)];
               [|discriminate].
             apply io_uart_putc in Hi as (ei & -> & Hrxi & _).
             inversion Hh; subst. exists (ei ++ eg).
             cbn [trace set_last_dot]. rewrite advance_trace, Htg.
             split; [now rewrite app_assoc|].
             now rewrite rx_of_app, Hrg, Hrxi.
          -- ret_inv Hh. eauto.
        * destruct (_ >? last_dot wg); [|discriminate].
          apply bind_inv in Hh as [(u3 & wi & Hi & Hh)|(s0 & Hi & Hs)];
            [discriminate|].
          inversion Hs; subst s0; clear Hs.
          apply io_uart_putc in Hi as (ei & -> & Hrxi & Hsi).
          exists (ei ++ eg). rewrite advance_trace, Htg.
          split; [now rewrite app_assoc|].
          destruct s; try contradiction.
          now rewrite rx_of_app, Hrg, Hrxi.
    - intros w0 s wa (e0 & Ht0 & Hr0). eauto. }
  bind_step Hrun o w3 H3; apply Hloop in H3 as (e3 & Ht3 & Hq).
  2:{ eexists (e3 ++ _ :: e1). rewrite Ht3. unfold w2. cbn [trace log].
      rewrite advance_trace. split; [now rewrite <- app_assoc|].
      destruct s; try contradiction.
      rewrite rx_of_app. cbn [rx_of]. now rewrite Hrx1, Hq. }
  assert (Ht2 : trace w2 = EvRead TIMER_VALUE
                             (u32 (timer_in hw (n_timer (advance e1 w))))
                           :: e1 ++ trace w).
  { unfold w2. cbn [trace log]. now rewrite advance_trace. }
  destruct o as [b|].
  - ret_inv Hrun. destruct Hq as (c & Hc & ->).
    eexists (e3 ++ _ :: e1). rewrite Ht3, Ht2.
    split; [now rewrite <- app_assoc|]. right. exists c.
    split; [|reflexivity].
    rewrite rx_of_app. cbn [rx_of]. now rewrite Hrx1, Hc.
  - destruct Hq as (Hq & v1 & mid & He3 & Hwin).
    bind_step Hrun u4 w4 H4;
      apply io_uart_puts in H4 as (e4 & -> & Hrx4 & Htx4).
    + ret_inv Hrun. eexists (e4 ++ (_ :: mid) ++ _ :: e1).
      rewrite advance_trace, Ht3, Ht2.
      split; [now rewrite <- !app_assoc|]. left.
      split.
      { rewrite !rx_of_app, Hq, Hrx4. cbn [rx_of]. now rewrite Hrx1. }
      split; [reflexivity|].
      exists e1, (EvRead TIMER_VALUE v1
                  :: mid ++ [EvRead TIMER_VALUE
                               (u32 (timer_in hw (n_timer (advance e1 w))))]),
        e4, (u32 (timer_in hw (n_timer (advance e1 w)))), v1.
      split; [cbn [app]; now rewrite <- !app_assoc|].
      split; [exact Htx1|]. split; [exists mid; reflexivity|].
      fold (ms_at hw (n_timer (advance e1 w))). lia.
    + eexists (e4 ++ e3 ++ _ :: e1).
      rewrite advance_trace, Ht3, Ht2.
      split; [now rewrite <- !app_assoc|].
      destruct s; try contradiction.
      rewrite !rx_of_app. cbn [rx_of]. now rewrite Hrx1, Hq, Hrx4.
Qed.

(** X18: an unattended system is not held up: with a silent receiver, a
    live transmitter and a running clock, [check_for_update_request]
    returns, answers false and leaves the memory as it was. *)
Theorem check_for_update_request_unattended (w : world) :
  no_input hw -> tx_live hw -> clock_live hw ->
  terminates (check_for_update_request hw) w
    (fun b w' => b = false /\ mem w' = mem w).
Proof.
  intros Hin Htx Hclock.
  eapply terminates_conseq;
    [apply (terminates_check_for_update_request Hin Htx Hclock w)|].
  cbv beta. intros b w' [-> (Hm & _)]. auto.
Qed.

(** ** Handing over to the application *)

Lemma jump_to_application_run (addr : Z) (fuel : nat) (w : world)
    (r : outcome unit) (w' : world) :
  jump_to_application hw addr fuel w = (r, w') ->
  r = Stop OutOfFuel \/
  (r = Stop (Jumped (u32 (addr + sizeof_header))) /\
   exists e_text e_delay,
     w' = advance (EvCsrci :: e_delay ++ e_text) w /\
     rx_of e_text = [] /\
     tx_of e_text = chars ("Jumping to application..." ++ crlf) /\
     idle_delay 100 e_delay).
Proof.
  intros Hrun. unfold jump_to_application in Hrun.
  bind_step Hrun u w1 H1;
    apply io_uart_puts in H1 as (e1 & -> & Hrx1 & Htx1).
  2:{ left. destruct s; try contradiction. reflexivity. }
  bind_step Hrun u2 w2 H2;
    apply io_delay_ms in H2 as (e2 & -> & Hq & Ht & Hd).
  2:{ left. destruct s; try contradiction. reflexivity. }
  destruct Hd as (v0 & v1 & Htimed & Hge).
  unfold bind, modify, stop_with in Hrun. inversion Hrun; subst. right.
  split; [reflexivity|]. exists e1, e2.
  split; [cbn [advance fold_right]; fold (advance (e2 ++ e1) w);
          now rewrite advance_app|].
  repeat split; auto; try apply Hq.
  exists v0, v1. split; [assumption|lia].
Qed.


(** ** The boot controller *)

Lemma boot_application_run (fuel : nat) (w : world)
    (r : outcome unit) (w' : world) :
  boot_application hw fuel w = (r, w') ->
  r = Stop OutOfFuel \/
  (r = Stop (Jumped (APP_START_ADDR + sizeof_header)) /\
   exists e,
     w' = advance (EvCsrci :: e) w /\ rx_of e = [] /\
     tx_of e = boot_text (read_header (mem w) APP_START_ADDR)).
Proof.
  intros Hrun. unfold boot_application in Hrun.
  bind_step Hrun u1 w1 H1;
    apply io_uart_puts in H1 as (e1 & -> & Hrx1 & Htx1).
  2:{ left. destruct s; try contradiction. reflexivity. }
  unfold bind at 1 in Hrun. cbn [get_world] in Hrun.
  rewrite advance_mem in Hrun.
  set (h := read_header (mem w) APP_START_ADDR) in *.
  bind_step Hrun u2 w2 H2;
    apply io_uart_puts in H2 as (e2 & -> & Hrx2 & Htx2).
  2:{ left. destruct s; try contradiction. reflexivity. }
  bind_step Hrun u3 w3 H3;
    apply io_uart_put_hex in H3 as (e3 & -> & Hrx3 & Htx3).
  2:{ left. destruct s; try contradiction. reflexivity. }
  bind_step Hrun u4 w4 H4;
    apply io_uart_puts in H4 as (e4 & -> & Hrx4 & Htx4).
  2:{ left. destruct s; try contradiction. reflexivity. }
  bind_step Hrun u5 w5 H5;
    apply io_uart_put_hex in H5 as (e5 & -> & Hrx5 & Htx5).
  2:{ left. destruct s; try contradiction. reflexivity. }
  bind_step Hrun u6 w6 H6;
    apply io_uart_puts in H6 as (e6 & -> & Hrx6 & Htx6).
  2:{ left. destruct s; try contradiction. reflexivity. }
  apply jump_to_application_run in Hrun
    as [->|(-> & e7 & ed & -> & Hrx7 & Htx7 & (Hqd & _))];
    [now left|right].
  split; [reflexivity|].
  exists (ed ++ e7 ++ e6 ++ e5 ++ e4 ++ e3 ++ e2 ++ e1).
  split.
  { rewrite <- !advance_app. f_equal. cbn [app]. now rewrite <- !app_assoc. }
  destruct Hqd as [Htd Hrd].
  rewrite !rx_of_app, !tx_of_app.
  rewrite Hrx1, Hrx2, Hrx3, Hrx4, Hrx5, Hrx6, Hrx7, Hrd.
  rewrite Htx1, Htx2, Htx3, Htx4, Htx5, Htx6, Htx7, Htd.
  split; [reflexivity|]. unfold boot_text. cbn [app].
  now rewrite <- !app_assoc.
Qed.

Lemma verify_and_boot_valid (w : world) (fuel : nat)
    (r : outcome unit) (w' : world) :
  table_inv w ->
  resident_verdict (mem w) APP_START_ADDR = Valid ->
  verify_and_boot hw fuel w = (r, w') ->
  r = Stop OutOfFuel \/
  (r = Stop (Jumped (APP_START_ADDR + sizeof_header)) /\
   mem w' = mem w /\
   exists e,
     trace w' = EvCsrci :: e ++ trace w /\ rx_of e = [] /\
     tx_of e = chars ("Verifying application..." ++ crlf) ++
               boot_text (read_header (mem w) APP_START_ADDR)).
Proof.
  intros Hinv Hvalid Hrun. unfold verify_and_boot in Hrun.
  bind_step Hrun u1 w1 H1;
    apply io_uart_puts in H1 as (e1 & -> & Hrx1 & Htx1).
  2:{ left. destruct s; try contradiction. reflexivity. }
  bind_step Hrun ok w2 H2;
    apply verify_application_spec in H2 as (e2 & Hw2 & [Hrx2 Htx2] & Hb);
    cbv zeta in Hw2, Htx2, Hb;
    rewrite resident_verdict_computed in Hw2, Htx2, Hb
      by (now apply table_inv_advance);
    rewrite advance_mem, Hvalid in Hw2, Htx2, Hb.
  2:{ left. destruct s; try contradiction. reflexivity. }
  rewrite (Hb ok eq_refl) in Hrun. cbn [is_valid negb] in Hrun.
  cbn [verify_text] in Htx2. subst w2.
  apply boot_application_run in Hrun as [->|(-> & e3 & -> & Hrx3 & Htx3)];
    [now left|right].
  split; [reflexivity|].
  rewrite !advance_mem, crc32_init_table_mem, advance_mem in *.
  split; [reflexivity|].
  exists (e3 ++ e2 ++ e1). split.
  { cbn [advance fold_right trace log].
    fold (advance e3 (advance e2 (crc32_init_table (advance e1 w)))).
    rewrite !advance_trace, crc32_init_table_trace, advance_trace.
    now rewrite <- !app_assoc. }
  rewrite !rx_of_app, !tx_of_app, Hrx1, Hrx2, Hrx3, Htx1, Htx2, Htx3.
  split; reflexivity.
Qed.

(** X20: a valid resident image is booted, not recovered.  If the image
    at APP_START_ADDR validates and the update offer was declined, a run
    of [bootloader_main] that is over has jumped to 0x4014 (the byte
    after the header) with the memory untouched; since the offer it has
    read nothing from the receiver and printed only "Verifying
    application...", the version and size report and the jump message,
    interrupts being masked last. *)
Theorem bootloader_main_boots_valid_image (w : world) (fuel : nat)
    (w1 : world) :
  table_inv w ->
  resident_verdict (mem w) APP_START_ADDR = Valid ->
  (banner hw ;; check_for_update_request hw) fuel w = (Ret false, w1) ->
  forall r w',
    bootloader_main hw fuel w = (r, w') ->
    r = Stop OutOfFuel \/
    (r = Stop (Jumped 0x4014) /\
     mem w' = mem w /\
     exists e,
       trace w' = EvCsrci :: e ++ trace w1 /\ rx_of e = [] /\
       tx_of e = chars ("Verifying application..." ++ crlf) ++
                 boot_text (read_header (mem w) APP_START_ADDR)).
Proof.
  intros Hinv Hvalid Hpre r w' Hrun.
  unfold bootloader_main in Hrun.
  unfold bind at 1 in Hpre. unfold bind at 1 in Hrun.
  destruct (banner hw fuel w) as [[u|s] wb] eqn:Eb; [|discriminate].
  unfold bind at 1 in Hrun. rewrite Hpre in Hrun.
  cbn [negb] in Hrun. unfold bind at 1 in Hrun. cbn [ret] in Hrun.
  apply tame_banner in Eb as [Fb _].
  apply tame_check_for_update_request in Hpre as [Fc _].
  assert (F1 : frame w w1) by (eapply frame_trans; eauto).
  destruct (verify_and_boot_valid w1 fuel r w' (proj1 (proj2 F1) Hinv)
              ltac:(now rewrite (frame_verdict _ _ _ F1)) Hrun)
    as [->|(-> & Hm & e & Ht & Hrx & Htx)]; [now left|right].
  destruct F1 as (Hm1 & _). rewrite Hm1 in Hm, Htx.
  split; [reflexivity|]. split; [exact Hm|]. exists e. auto.
Qed.

(** X21: and it is reached.  With a valid resident image, nobody at the
    console, a live transmitter and a running clock, every run of
    [bootloader_main] with enough fuel ends by jumping to 0x4014. *)
Theorem bootloader_main_reaches_application (w : world) :
  no_input hw -> tx_live hw -> clock_live hw ->
  table_inv w ->
  resident_verdict (mem w) APP_START_ADDR = Valid ->
  exists F w',
    forall fuel, (F <= fuel)%nat ->
      bootloader_main hw fuel w = (Stop (Jumped 0x4014), w').
Proof.
  intros Hin Htx Hclock Hinv Hvalid.
  assert (Hban : terminates (banner hw) w (fun _ w' => frame w w')).
  { assert (Htot : total (banner hw)) by (unfold banner; total_tac Htx).
    eapply terminates_conseq;
      [apply (terminates_tame _ _ _ (Htot w) tame_banner)|].
    cbv beta. intros u w' [_ F]. exact F. }
  destruct (terminates_bind_eq _ _ _ Hban) as (F1 & u1 & w1 & Fr1 & E1).
  destruct (terminates_bind_eq _ _ _
              (terminates_check_for_update_request Hin Htx Hclock w1))
    as (F2 & b & w2 & [-> Fr2] & E2).
  destruct (terminates_bind_eq _ _ _
              (terminates_puts_frame Htx ("Verifying application..." ++ crlf) w2))
    as (F3 & u3 & w3 & Fr3 & E3).
  assert (F03 : frame w w3).
  { eapply frame_trans; [|exact Fr3].
    eapply frame_trans; [exact Fr1|exact Fr2]. }
  assert (Hver : terminates (verify_application hw APP_START_ADDR) w3
                   (fun ok w' => ok = true /\ frame w3 w')).
  { eapply terminates_conseq;
      [apply (terminates_hoare _ _ _ _
                (terminates_tame _ _ _
                   (total_verify_application APP_START_ADDR Htx w3)
                   (tame_verify_application APP_START_ADDR))
                (verify_application_spec APP_START_ADDR))|].
    cbv beta zeta. intros ok w' [[_ F] (e & _ & _ & Hb)].
    split; [|exact F]. rewrite (Hb ok eq_refl).
    rewrite resident_verdict_computed by (apply F03, Hinv).
    now rewrite (frame_verdict _ _ _ F03), Hvalid. }
  destruct (terminates_bind_eq _ _ _ Hver) as (F4 & ok & w4 & [-> Fr4] & E4).
  assert (Hboot : forall wait : M unit, total wait -> total
            (uart_puts hw ("Application verified OK!" ++ crlf) ;;
             w <- get_world ;;
             uart_puts hw "App version: " ;;
             uart_put_hex hw (version (read_header (mem w) APP_START_ADDR)) ;;
             uart_puts hw (crlf ++ "App size: ") ;;
             uart_put_hex hw (size (read_header (mem w) APP_START_ADDR)) ;;
             uart_puts hw (" bytes" ++ crlf) ;;
             uart_puts hw ("Jumping to application..." ++ crlf) ;;
             wait)).
  { intros wait Hwait. total_tac Htx. exact Hwait. }
  destruct (Hboot (delay_ms hw 100) (total_delay_ms Hclock 100 ltac:(lia)) w4)
    as (F5 & u5 & w5 & _ & E5).
  exists (F1 + F2 + F3 + F4 + F5)%nat, (log EvCsrci w5).
  intros fuel Hf. unfold bootloader_main.
  rewrite E1, E2 by lia. unfold bind at 1. cbn [ret].
  unfold verify_and_boot. rewrite E3, E4 by lia. cbn [negb].
  specialize (E5 fuel ltac:(lia)).
  unfold boot_application, jump_to_application.
  unfold bind in E5 |- *. cbn [get_world] in E5 |- *.
  repeat match type of E5 with
         | match ?c with _ => _ end = _ =>
             destruct c as [[?|?] ?] eqn:?; try discriminate
         end.
  rewrite E5. reflexivity.
Qed.

Lemma orderly_bind {A B : Type} (c : M A) (k : A -> M B) :
  hoare c (fun _ r _ => orderly r) ->
  (forall a, hoare (k a) (fun _ r _ => orderly r)) ->
  hoare (bind c k) (fun _ r _ => orderly r).
Proof.
  intros Hc Hk. eapply hoare_bind; [exact Hc|exact Hk| |]; cbv beta; auto.
Qed.

Lemma final_bind {A B : Type} (c : M A) (k : A -> M B) :
  hoare c (fun _ r _ => orderly r) ->
  (forall a, hoare (k a) (fun _ r _ => final_outcome r)) ->
  hoare (bind c k) (fun _ r _ => final_outcome r).
Proof.
  intros Hc Hk. eapply hoare_bind; [exact Hc|exact Hk| |]; cbv beta; auto.
Qed.

Lemma tame_orderly {A : Type} (c : M A) :
  tame c -> hoare c (fun _ r _ => orderly r).
Proof.
  intros Hc fuel w r w' Hrun. destruct (Hc _ _ _ _ Hrun) as [_ Hb].
  destruct r as [a|[]]; cbn in *; try contradiction; auto.
  right. right. reflexivity.
Qed.

Lemma update_mode_orderly : hoare (update_mode hw) (fun _ r _ => orderly r).
Proof.
  unfold update_mode.
  repeat (apply orderly_bind; [apply tame_orderly, tame_uart_puts|intros _]).
  apply orderly_bind; [apply tame_orderly, tame_receive_firmware|intros ok].
  destruct ok; [|apply tame_orderly, tame_uart_puts].
  repeat (apply orderly_bind; [apply tame_orderly, tame_uart_puts|intros _]).
  apply orderly_bind; [apply tame_orderly, tame_delay_ms|intros _].
  apply orderly_bind; [apply tame_orderly, tame_uart_puts|intros _].
  intros fuel w r w' Hrun. inversion Hrun; subst. right. left. reflexivity.
Qed.

Lemma verify_and_boot_final :
  hoare (verify_and_boot hw) (fun _ r _ => final_outcome r).
Proof.
  unfold verify_and_boot.
  apply final_bind; [apply tame_orderly, tame_uart_puts|intros _].
  apply final_bind; [apply tame_orderly, tame_verify_application|intros ok].
  destruct ok; cbn [negb]; intros fuel w r w' Hrun.
  - apply boot_application_run in Hrun as [->|[-> _]]; cbn.
    + right. right. reflexivity.
    + left. reflexivity.
  - apply enter_recovery_never_returns in Hrun as [_ ->]. cbn.
    right. right. reflexivity.
Qed.

(** X22: [bootloader_main] never returns, so the [return 0] of [main] is
    never reached: whatever the hardware does and whatever the memory
    holds, a run of [main] that is over has either jumped to 0x4014, the
    entry of the application, or reached the empty loop that follows a
    successful update; it jumps nowhere else. *)
Theorem main_never_returns (fuel : nat) (w : world)
    (r : outcome Z) (w' : world) :
  main hw fuel w = (r, w') ->
  r = Stop (Jumped 0x4014) \/ r = Stop Hang \/ r = Stop OutOfFuel.
Proof.
  intros Hrun.
  assert (Hmain : hoare (bootloader_main hw) (fun _ r _ => final_outcome r)).
  { unfold bootloader_main.
    apply final_bind; [apply tame_orderly, tame_banner|intros _].
    apply final_bind;
      [apply tame_orderly, tame_check_for_update_request|intros upd].
    apply final_bind; [|intros _; apply verify_and_boot_final].
    destruct upd; [apply update_mode_orderly|apply tame_orderly, tame_ret]. }
  unfold main in Hrun.
  apply bind_inv in Hrun as [(a & w1 & H1 & _)|(s & H1 & ->)];
    apply Hmain in H1; cbn in H1; [contradiction|].
  destruct H1 as [->| [->| ->]]; auto.
Qed.

(** X23: after an update session [bootloader_main] boots nothing new.
    A run of the update branch that reaches the empty loop has seen
    [receive_firmware] succeed on the bytes it consumed; a run that
    returns, to go on to verify the resident image, has seen it fail; in
    both cases the memory is as before and no jump is made from here. *)
Theorem update_mode_outcome (fuel : nat) (w : world)
    (r : outcome unit) (w' : world) :
  table_inv w ->
  update_mode hw fuel w = (r, w') ->
  mem w' = mem w /\
  exists e,
    trace w' = e ++ trace w /\
    match r with
    | Ret _ => firmware_result (rx_of e) = false
    | Stop Hang => firmware_result (rx_of e) = true
    | Stop OutOfFuel => True
    | Stop (Jumped _) => False
    end.
Proof.
  intros Hinv Hrun.
  split.
  { unfold update_mode in Hrun.
    bind_step Hrun u1 w1 H1; apply tame_uart_puts in H1 as [(M1 & _) _];
      [|exact M1].
    bind_step Hrun u2 w2 H2; apply tame_uart_puts in H2 as [(M2 & _) _];
      [|congruence].
    bind_step Hrun ok w3 H3; apply tame_receive_firmware in H3 as [(M3 & _) _];
      [|congruence].
    destruct ok.
    - bind_step Hrun u4 w4 H4; apply tame_uart_puts in H4 as [(M4 & _) _];
        [|congruence].
      bind_step Hrun u5 w5 H5; apply tame_uart_puts in H5 as [(M5 & _) _];
        [|congruence].
      bind_step Hrun u6 w6 H6; apply tame_delay_ms in H6 as [(M6 & _) _];
        [|congruence].
      bind_step Hrun u7 w7 H7; apply tame_uart_puts in H7 as [(M7 & _) _];
        [|congruence].
      inversion Hrun; subst. congruence.
    - apply tame_uart_puts in Hrun as [(M4 & _) _]. congruence. }
  unfold update_mode in Hrun.
  bind_step Hrun u1 w1 H1;
    apply io_uart_puts in H1 as (e1 & -> & Hrx1 & Htx1).
  2:{ exists e1. rewrite advance_trace. split; [reflexivity|].
      destruct s; try contradiction; exact I. }
  bind_step Hrun u2 w2 H2;
    apply io_uart_puts in H2 as (e2 & -> & Hrx2 & Htx2).
  2:{ exists (e2 ++ e1). rewrite !advance_trace, app_assoc.
      split; [reflexivity|]. destruct s; try contradiction; exact I. }
  assert (Hinv2 : table_inv (advance e2 (advance e1 w)))
    by (now repeat apply table_inv_advance).
  bind_step Hrun ok w3 H3;
    pose proof (tame_receive_firmware _ _ _ _ H3) as [_ Hben];
    apply receive_firmware_spec in H3;
    specialize (H3 Hinv2);
    apply firmware_post_trace in H3 as (e3 & Ht3 & _ & _ & Hr3).
  2:{ exists (e3 ++ e2 ++ e1). rewrite Ht3, !advance_trace, !app_assoc.
      split; [reflexivity|].
      destruct s; cbn in Hben; try contradiction; exact I. }
  destruct (Hr3 ok eq_refl) as [Hok _]. subst ok.
  assert (Hrx : forall e, rx_of e = [] ->
                  rx_of (e ++ e3 ++ e2 ++ e1) = rx_of e3).
  { intros e He. rewrite !rx_of_app, Hrx1, Hrx2, He. cbn [app].
    now rewrite app_nil_r. }
  assert (Ht : forall e, trace (advance e w3) = (e ++ e3 ++ e2 ++ e1) ++ trace w).
  { intros e. rewrite advance_trace, Ht3, !advance_trace.
    now rewrite <- !app_assoc. }
  destruct (firmware_result (rx_of e3)) eqn:Eres.
  - bind_step Hrun u4 w4 H4;
      apply io_uart_puts in H4 as (e4 & -> & Hrx4 & Htx4).
    2:{ exists (e4 ++ e3 ++ e2 ++ e1). split; [apply Ht|].
        destruct s; try contradiction; exact I. }
    bind_step Hrun u5 w5 H5;
      apply io_uart_puts in H5 as (e5 & -> & Hrx5 & Htx5).
    2:{ exists ((e5 ++ e4) ++ e3 ++ e2 ++ e1).
        split; [rewrite <- ?advance_app, Ht; now rewrite <- !app_assoc|].
        destruct s; try contradiction; exact I. }
    bind_step Hrun u6 w6 H6;
      apply io_delay_ms in H6 as (e6 & -> & [_ Hrx6] & _ & Hd6).
    2:{ exists ((e6 ++ e5 ++ e4) ++ e3 ++ e2 ++ e1).
        split; [rewrite <- ?advance_app, Ht; now rewrite <- !app_assoc|].
        destruct s; try contradiction; exact I. }
    bind_step Hrun u7 w7 H7;
      apply io_uart_puts in H7 as (e7 & -> & Hrx7 & Htx7).
    2:{ exists ((e7 ++ e6 ++ e5 ++ e4) ++ e3 ++ e2 ++ e1).
        split; [rewrite <- ?advance_app, Ht; now rewrite <- !app_assoc|].
        destruct s; try contradiction; exact I. }
    inversion Hrun; subst.
    exists ((e7 ++ e6 ++ e5 ++ e4) ++ e3 ++ e2 ++ e1).
    split; [rewrite <- ?advance_app, Ht; now rewrite <- !app_assoc|].
    rewrite Hrx; [exact Eres|].
    rewrite !rx_of_app, Hrx4, Hrx5, Hrx6, Hrx7. reflexivity.
  - apply io_uart_puts in Hrun as (e4 & -> & Hrx4 & Htx4).
    exists (e4 ++ e3 ++ e2 ++ e1). split; [apply Ht|].
    destruct r as [u|s]; [now rewrite Hrx|].
    destruct s; try contradiction; exact I.
Qed.

(** ** The recovery loop with input *)

Lemma recovery_iteration_pass :
  hoare (recovery_iteration hw)
    (fun w r w' =>
       table_inv w ->
       forall u, r = Ret u ->
         exists es em ed,
           trace w' = ed ++ em ++ es ++ trace w /\
           tx_of es = firmware_text (rx_of es) /\
           rx_of em = [] /\
           tx_of em = pass_report (firmware_result (rx_of es)) /\
           idle_delay 1000 ed).
Proof.
  intros fuel w r w' Hrun Hinv u ->. unfold recovery_iteration in Hrun.
  apply bind_inv in Hrun as [(ok & w1 & H1 & Hrun)|(s & _ & Hs)];
    [|discriminate].
  apply receive_firmware_spec in H1. specialize (H1 Hinv).
  apply firmware_post_trace in H1 as (es & Ht1 & _ & _ & Hr1).
  destruct (Hr1 ok eq_refl) as [-> Htx].
  apply bind_inv in Hrun as [(u2 & w2 & H2 & Hrun)|(s & _ & Hs)];
    [|discriminate].
  assert (Hem : exists em, w2 = advance em w1 /\ rx_of em = [] /\
                           tx_of em = pass_report (firmware_result (rx_of es))).
  { destruct (firmware_result (rx_of es)).
    - apply io_uart_puts in H2 as (em & -> & Hrx & Htxm). exists em. auto.
    - inversion H2; subst. exists []. auto. }
  destruct Hem as (em & -> & Hrxm & Htxm).
  apply io_delay_ms in Hrun as (ed & -> & Hq & Hall & v0 & v1 & Htimed & Hge).
  exists es, em, ed. rewrite !advance_trace, Ht1.
  split; [reflexivity|]. split; [exact Htx|]. split; [exact Hrxm|].
  split; [exact Htxm|]. split; [exact Hq|]. split; [exact Hall|].
  exists v0, v1. split; [assumption|lia].
Qed.

Section LiveInput.

Hypothesis tx_ok : tx_live hw.
Hypothesis clock_ok : clock_live hw.
Hypothesis rx_ok : rx_steady hw.

Lemma wait_rx_terminates (k : nat) (w : world) :
  Z.land (u32 (status_in hw (n_status w + k))) UART_RX_READY <> 0 ->
  loop_terminates
    (fun _ : unit =>
       r <- uart_rx_ready hw ;;
       if negb r then continue tt else break tt) tt w
    (fun _ w' => n_timer w' = n_timer w).
Proof.
  revert w; induction k as [|k IH]; intros w Hk; apply loop_terminates_step.
  - rewrite Nat.add_0_r in Hk.
    exists 0%nat, (inr tt),
      (log (EvRead UART_STATUS (u32 (status_in hw (n_status w)))) w).
    split; [cbn; lia|]. intros fuel _.
    unfold uart_rx_ready, bind, read_reg, ret.
    destruct (Z.eqb_spec (Z.land (u32 (status_in hw (n_status w))) UART_RX_READY) 0);
      [contradiction|reflexivity].
  - destruct (Z.eqb_spec (Z.land (u32 (status_in hw (n_status w))) UART_RX_READY) 0)
      as [E|E].
    + exists 0%nat, (inl tt),
        (log (EvRead UART_STATUS (u32 (status_in hw (n_status w)))) w).
      split.
      * destruct (IH (log (EvRead UART_STATUS (u32 (status_in hw (n_status w)))) w))
          as (F & a & w' & HQ & R).
        { cbn [log n_status].
          replace (n_status w + 1 + k)%nat with (n_status w + Datatypes.S k)%nat
            by lia.
          exact Hk. }
        exists F, a, w'. split; [|exact R]. cbn in HQ. lia.
      * intros fuel _. unfold uart_rx_ready, bind, read_reg, ret.
        rewrite E. reflexivity.
    + exists 0%nat, (inr tt),
        (log (EvRead UART_STATUS (u32 (status_in hw (n_status w)))) w).
      split; [cbn; lia|]. intros fuel _.
      unfold uart_rx_ready, bind, read_reg, ret.
      destruct (Z.eqb_spec (Z.land (u32 (status_in hw (n_status w))) UART_RX_READY) 0);
        [contradiction|reflexivity].
Qed.

Lemma uart_getc_terminates (k : nat) (w : world) :
  Z.land (u32 (status_in hw (n_status w + k))) UART_RX_READY <> 0 ->
  terminates (uart_getc hw) w (fun _ w' => n_timer w' = n_timer w).
Proof.
  intros Hk. unfold uart_getc.
  eapply terminates_bind;
    [apply loop_terminates_while, (wait_rx_terminates k w Hk)|].
  intros [] w1 Hn. cbv beta in Hn.
  exists 0%nat. eexists. eexists. split; [|intros fuel _; reflexivity].
  cbn. lia.
Qed.

Lemma receive_loop_terminates (length timeout_ms start : Z) (k : nat) :
  forall (buffer : list Z) (received : Z) (w : world),
  sub32 (ms_at hw (n_timer w + k)) start > timeout_ms ->
  loop_terminates
    (fun '(buffer, received) =>
       if received <? length then
         now <- get_time_ms hw ;;
         if sub32 now start >? timeout_ms then
           break (false, buffer)
         else
           r <- uart_rx_ready hw ;;
           if r then
             c <- uart_getc hw ;;
             continue (store buffer received c, received + 1)
           else continue (buffer, received)
       else break (true, buffer))
    (buffer, received) w (fun _ _ => True).
Proof.
  induction k as [|k IH]; intros buffer received w Hk;
    apply loop_terminates_step; cbv beta iota.
  all: destruct (received <? length); [|now apply terminates_ret].
  all: eapply terminates_bind with
         (Q1 := fun now w1 =>
                  now = ms_at hw (n_timer w) /\
                  w1 = log (EvRead TIMER_VALUE (u32 (timer_in hw (n_timer w)))) w);
         [exists 0%nat; eexists; eexists; split;
          [|intros; apply get_time_ms_eq]; auto|].
  all: intros now w1 [-> ->].
  all: destruct (Z.gtb_spec (sub32 (ms_at hw (n_timer w)) start) timeout_ms)
         as [Hgt|Hle]; [now apply terminates_ret|].
  - rewrite Nat.add_0_r in Hk. lia.
  - set (w1 := log (EvRead TIMER_VALUE (u32 (timer_in hw (n_timer w)))) w).
    set (s := u32 (status_in hw (n_status w1))).
    eapply terminates_bind with
      (Q1 := fun r w2 => r = negb (Z.land s UART_RX_READY =? 0) /\
                         w2 = log (EvRead UART_STATUS s) w1).
    { exists 0%nat. eexists. eexists. split; [|intros; reflexivity]. auto. }
    intros r w2 [-> ->].
    assert (Hnext : forall w3, n_timer w3 = n_timer w1 ->
              sub32 (ms_at hw (n_timer w3 + k)) start > timeout_ms).
    { intros w3 ->. unfold w1. cbn [log n_timer].
      replace (n_timer w + 1 + k)%nat with (n_timer w + Datatypes.S k)%nat
        by lia.
      exact Hk. }
    destruct (Z.eqb_spec (Z.land s UART_RX_READY) 0) as [E|E]; cbn [negb].
    + apply terminates_ret. apply IH, Hnext. cbn. lia.
    + destruct (rx_ok (n_status w1) E) as (j & Hj).
      eapply terminates_bind.
      * apply (uart_getc_terminates j). cbn [log n_status]. exact Hj.
      * cbv beta. intros c w3 Hn. apply terminates_ret. apply IH, Hnext.
        rewrite Hn. cbn. lia.
Qed.

Lemma total_uart_receive_bytes (buffer : list Z) (length timeout_ms : Z) :
  timeout_ms <= 30000 ->
  total (uart_receive_bytes hw buffer length timeout_ms).
Proof.
  intros Hto w. unfold uart_receive_bytes.
  apply terminates_bind with
    (Q1 := fun start w1 => start = ms_at hw (n_timer w) /\
                           n_timer w1 = Datatypes.S (n_timer w)).
  - exists 0%nat, (ms_at hw (n_timer w)),
      (log (EvRead TIMER_VALUE (u32 (timer_in hw (n_timer w)))) w).
    split; [|intros; apply get_time_ms_eq].
    split; [reflexivity|cbn; lia].
  - intros start w1 [-> Hn]. apply loop_terminates_while.
    destruct (clock_ok (n_timer w) timeout_ms Hto) as (k & Hk).
    apply (receive_loop_terminates length timeout_ms _ k).
    specialize (Hk k ltac:(lia)). rewrite Hn.
    replace (Datatypes.S (n_timer w) + k)%nat with (n_timer w + 1 + k)%nat by lia.
    exact Hk.
Qed.

Lemma receive_chunks_terminate (m : nat) :
  forall (remaining crc : Z) (buffer : list Z) (w : world),
  (Z.to_nat remaining <= m)%nat ->
  loop_terminates (receive_chunk hw) (remaining, crc, buffer) w
    (fun _ _ => True).
Proof.
  induction m as [|m IH]; intros remaining crc buffer w Hm;
    apply loop_terminates_step; unfold receive_chunk.
  all: destruct (Z.gtb_spec remaining 0) as [Hpos|Hle];
         [|now apply terminates_ret].
  - lia.
  - eapply terminates_bind;
      [apply (total_uart_receive_bytes buffer _ 5000); lia|].
    cbv beta. intros [ok buffer'] w1 _. destruct ok; cbn [negb].
    + unfold bind at 1. cbn [get_world].
      apply terminates_bind with (Q1 := fun _ _ => True);
        [apply (total_uart_putc tx_ok)|].
      intros u w2 _. apply terminates_ret. apply IH.
      destruct (Z.gtb_spec remaining 128); lia.
    + eapply terminates_bind; [apply (total_uart_puts tx_ok)|].
      intros u w2 _. now apply terminates_ret.
Qed.

Lemma total_receive_firmware : total (receive_firmware hw).
Proof.
  unfold receive_firmware.
  apply total_bind; [apply (total_uart_puts tx_ok)|intros _].
  apply total_bind;
    [apply total_uart_receive_bytes; unfold sizeof_header; lia|].
  intros [ok hbytes]. destruct ok; cbn [negb]; [|total_tac tx_ok].
  unfold receive_firmware_after_header.
  destruct (negb (magic (header_of_bytes hbytes) =? BOOT_MAGIC));
    [total_tac tx_ok|].
  destruct (size (header_of_bytes hbytes) >? MAX_APP_SIZE); [total_tac tx_ok|].
  apply total_bind; [unfold announce_firmware; total_tac tx_ok|intros _].
  apply total_bind;
    [intros w; exists 0%nat, tt, (crc32_init_table w); split; [exact I|
       intros; reflexivity]|intros _].
  apply total_bind.
  - intros w. apply loop_terminates_while.
    eapply receive_chunks_terminate. apply Nat.le_refl.
  - intros r. unfold finish_session. destruct r as [crc|]; [|total_tac tx_ok].
    apply total_bind; [apply (total_uart_puts tx_ok)|intros _].
    destruct (negb (not32 crc =? crc32 (header_of_bytes hbytes)));
      total_tac tx_ok.
Qed.

Lemma terminates_recovery_pass (w : world) :
  table_inv w ->
  terminates (recovery_iteration hw) w
    (fun _ w' =>
       frame w w' /\
       exists es em ed,
         trace w' = ed ++ em ++ es ++ trace w /\
         tx_of es = firmware_text (rx_of es) /\
         rx_of em = [] /\
         tx_of em = pass_report (firmware_result (rx_of es)) /\
         idle_delay 1000 ed).
Proof.
  intros Hinv.
  assert (Ht : total (recovery_iteration hw)).
  { unfold recovery_iteration.
    apply total_bind; [apply total_receive_firmware|intros ok].
    apply total_bind; [destruct ok; total_tac tx_ok|intros _].
    apply (total_delay_ms clock_ok). lia. }
  eapply terminates_conseq;
    [apply (terminates_hoare _ _ _ _
              (terminates_tame _ _ _ (Ht w) tame_recovery_iteration)
              recovery_iteration_pass)|].
  cbv beta. intros u w' [[_ F] Hpass]. split; [exact F|].
  exact (Hpass Hinv u eq_refl).
Qed.

Lemma recovery_passes_run (n : nat) (w : world) :
  table_inv w ->
  exists F w_n e,
    recovery_passes n e /\ trace w_n = e ++ trace w /\ frame w w_n /\
    forall m fuel, (F <= fuel)%nat ->
      @loop_n unit unit (fun _ : unit => recovery_iteration hw ;; continue tt)
              (n + m) tt fuel w
      = loop_n (fun _ : unit => recovery_iteration hw ;; continue tt)
               m tt fuel w_n.
Proof.
  intros Hinv. induction n as [|n IH].
  - exists 0%nat, w, []. split; [constructor|]. split; [reflexivity|].
    split; [apply frame_refl|]. reflexivity.
  - destruct IH as (F & w_n & e & Hp & Ht & Fr & Heq).
    destruct (terminates_recovery_pass w_n (proj1 (proj2 Fr) Hinv))
      as (F' & u & w1 & (Fr1 & es & em & ed & Ht1 & Hs & Hrm & Htm & Hd) & R).
    exists (Nat.max F F'), w1, (ed ++ em ++ es ++ e).
    split; [now constructor|].
    split; [rewrite Ht1, Ht; now rewrite <- !app_assoc|].
    split; [eapply frame_trans; eauto|].
    intros m fuel Hf.
    replace (Datatypes.S n + m)%nat with (n + Datatypes.S m)%nat by lia.
    rewrite Heq by lia. cbn [loop_n]. unfold bind at 1.
    rewrite R by lia. reflexivity.
Qed.

End LiveInput.

(** *** Runs that have returned do not depend on the fuel left over *)

Lemma monotone_const {A : Type} (c : M A) :
  (forall fuel fuel' w, c fuel w = c fuel' w) -> monotone c.
Proof. intros H fuel fuel' w a w' Hrun _. now rewrite <- (H fuel fuel'). Qed.

Lemma monotone_ret {A : Type} (a : A) : monotone (ret a).
Proof. now apply monotone_const. Qed.

Lemma monotone_bind {A B : Type} (c : M A) (k : A -> M B) :
  monotone c -> (forall a, monotone (k a)) -> monotone (bind c k).
Proof.
  intros Hc Hk fuel fuel' w b w' Hrun Hle.
  apply bind_inv in Hrun as [(a & w1 & H1 & H2)|(s & _ & Hs)]; [|discriminate].
  unfold bind. rewrite (Hc _ _ _ _ _ H1 Hle). exact (Hk a _ _ _ _ _ H2 Hle).
Qed.

Lemma monotone_loop_n {S A : Type} (body : S -> M (S + A)) :
  (forall s, monotone (body s)) ->
  forall n n' s fuel fuel' w a w',
    loop_n body n s fuel w = (Ret a, w') ->
    (n <= n')%nat -> (fuel <= fuel')%nat ->
    loop_n body n' s fuel' w = (Ret a, w').
Proof.
  intros Hb n; induction n as [|n IH]; intros n' s fuel fuel' w a w' Hrun Hn Hf.
  - discriminate.
  - destruct n' as [|n']; [lia|]. cbn [loop_n] in Hrun |- *.
    destruct (body s fuel w) as [[[s'|x]|st] w1] eqn:E; try discriminate.
    + rewrite (Hb s _ _ _ _ _ E Hf). apply (IH n' s' fuel); auto; lia.
    + rewrite (Hb s _ _ _ _ _ E Hf). exact Hrun.
Qed.

Lemma monotone_while {S A : Type} (body : S -> M (S + A)) (s : S) :
  (forall s, monotone (body s)) -> monotone (while body s).
Proof.
  intros Hb fuel fuel' w a w' Hrun Hle. unfold while in *.
  now apply (monotone_loop_n body Hb fuel fuel' s fuel fuel').
Qed.

Ltac monotone_tac :=
  repeat first
    [ apply monotone_ret
    | apply monotone_bind; [|intros ?]
    | apply monotone_while; intros ?
    | match goal with
      | |- monotone (if ?b then _ else _) => destruct b
      | |- monotone (match ?x with Some _ => _ | None => _ end) => destruct x
      end
    | (apply monotone_const; intros; reflexivity) ].

Lemma monotone_uart_putc (c : Z) : monotone (uart_putc hw c).
Proof. unfold uart_putc, continue, break. monotone_tac. Qed.

Lemma monotone_uart_puts (str : string) : monotone (uart_puts hw str).
Proof.
  induction str as [|c str IH]; cbn [uart_puts]; [apply monotone_ret|].
  apply monotone_bind; [apply monotone_uart_putc|intros _; exact IH].
Qed.

Lemma monotone_offer :
  monotone (banner hw ;; check_for_update_request hw).
Proof.
  unfold banner, check_for_update_request, poll_update_request, uart_getc,
    uart_rx_ready, get_time_ms, continue, break.
  repeat first
    [ apply monotone_uart_puts
    | apply monotone_uart_putc
    | apply monotone_ret
    | apply monotone_bind; [|intros ?]
    | apply monotone_while; intros ?
    | match goal with
      | |- monotone (if ?b then _ else _) => destruct b
      | |- monotone (match ?x with Some _ => _ | None => _ end) => destruct x
      end
    | (apply monotone_const; intros; reflexivity) ].
Qed.

Lemma verify_and_boot_reaches_recovery (w : world) :
  tx_live hw ->
  table_inv w ->
  resident_verdict (mem w) APP_START_ADDR <> Valid ->
  exists F w_p,
    frame w w_p /\
    forall fuel, (F <= fuel)%nat ->
      verify_and_boot hw fuel w = recovery_loop hw fuel w_p.
Proof.
  intros tx_ok Hinv Hbad.
  destruct (terminates_bind_eq _ _ _
              (terminates_puts_frame tx_ok ("Verifying application..." ++ crlf) w))
    as (F3 & u3 & w3 & Fr3 & E3).
  assert (Hver : terminates (verify_application hw APP_START_ADDR) w3
                   (fun ok w' => ok = false /\ frame w3 w')).
  { eapply terminates_conseq;
      [apply (terminates_hoare _ _ _ _
                (terminates_tame _ _ _
                   (total_verify_application APP_START_ADDR tx_ok w3)
                   (tame_verify_application APP_START_ADDR))
                (verify_application_spec APP_START_ADDR))|].
    cbv beta zeta. intros ok w' [[_ F] (e & _ & _ & Hb)].
    split; [|exact F]. rewrite (Hb ok eq_refl).
    rewrite resident_verdict_computed by (apply Fr3, Hinv).
    rewrite (frame_verdict _ _ _ Fr3).
    destruct (resident_verdict (mem w) APP_START_ADDR);
      try reflexivity; contradiction. }
  destruct (terminates_bind_eq _ _ _ Hver) as (F4 & ok & w4 & [-> Fr4] & E4).
  destruct (terminates_bind_eq _ _ _
              (terminates_puts_frame tx_ok
                 (crlf ++ "ERROR: No valid application found!" ++ crlf) w4))
    as (F5 & u5 & w5 & Fr5 & E5).
  destruct (terminates_bind_eq _ _ _
              (terminates_puts_frame tx_ok ("Entering recovery mode..." ++ crlf) w5))
    as (F6 & u6 & w6 & Fr6 & E6).
  destruct (terminates_bind_eq _ _ _
              (terminates_puts_frame tx_ok
                 ("Send firmware via UART to recover." ++ crlf) w6))
    as (F7 & u7 & w7 & Fr7 & E7).
  exists (F3 + F4 + F5 + F6 + F7)%nat, w7. split.
  { repeat (eapply frame_trans; [|eassumption]). apply frame_refl. }
  intros fuel Hf.
  unfold verify_and_boot. rewrite E3, E4 by lia. cbn [negb].
  unfold enter_recovery. rewrite E5, E6, E7 by lia. reflexivity.
Qed.


End Proofs.

(** ** Worked instances *)

Lemma verify_application_validates_witness :
  validate (read_header (mem (reset_world image_size24)) APP_START_ADDR)
           (resident_payload_crc (reset_world image_size24) APP_START_ADDR)
  = Valid /\
  verify_application idle_hw APP_START_ADDR 0%nat (reset_world image_size24)
  = (Ret true, crc32_init_table (reset_world image_size24)).
Proof.
  assert (H : validate (read_header (mem (reset_world image_size24)) APP_START_ADDR)
                (resident_payload_crc (reset_world image_size24) APP_START_ADDR)
              = Valid) by (vm_compute; reflexivity).
  split; [exact H|].
  exact (proj1 (proj2 (proj2
           (verify_application_validates idle_hw APP_START_ADDR
              (reset_world image_size24)))) H 0%nat).
Defined.

(** The headers of [image_size24] and [image_size28] differ in the size
    field only (24 against 28, both within the capacity), the payload
    bytes are the same, and both images validate. *)
Lemma verify_application_size_change_still_valid :
  read_header image_size24 APP_START_ADDR = header_size24 /\
  read_header image_size28 APP_START_ADDR = header_size28 /\
  (forall a, a < APP_START_ADDR + 8 \/ APP_START_ADDR + 12 <= a ->
             image_size24 a = image_size28 a) /\
  fst (verify_application idle_hw APP_START_ADDR 0%nat (reset_world image_size24))
  = Ret true /\
  fst (verify_application idle_hw APP_START_ADDR 0%nat (reset_world image_size28))
  = Ret true /\
  validate header_size24 0x7C9CA35A = Valid /\
  validate header_size28 0x7C9CA35A = Valid.
Proof.
  split; [vm_compute; reflexivity|].
  split; [vm_compute; reflexivity|].
  split.
  { intros a Ha. unfold image_size24, image_size28, image_at.
    destruct (Z.leb_spec APP_START_ADDR a) as [Hle|]; [|reflexivity].
    unfold APP_START_ADDR in *.
    destruct Ha as [Ha|Ha].
    - assert (Hn : (Z.to_nat (a - 16384) < 8)%nat) by lia.
      revert Hn. generalize (Z.to_nat (a - 16384)). intros n Hn.
      do 8 (destruct n as [|n]; [reflexivity|]). lia.
    - assert (Hn : (12 <= Z.to_nat (a - 16384))%nat) by lia.
      revert Hn. generalize (Z.to_nat (a - 16384)). intros n Hn.
      do 12 (destruct n as [|n]; [lia|]). reflexivity. }
  repeat split; vm_compute; reflexivity.
Qed.

Lemma idle_tx_live : tx_live idle_hw.
Proof. intros n. exists 0%nat. vm_compute. discriminate. Qed.

Lemma verify_application_short_size_witness :
  let w := reset_world image_size0 in
  let h := read_header (mem w) APP_START_ADDR in
  let data := fun i => load8 (mem w) (APP_START_ADDR + sizeof_header + i) in
  let calc := fst (crc32_calculate data (0 + 2 ^ 32 - 20) w) in
  let report :=
    chars "CRC check failed - Expected: " ++ hex_text 0 ++
    chars ", Calculated: " ++ hex_text calc ++ chars crlf in
  magic h = BOOT_MAGIC /\ size h = 0 /\ crc32 h = 0 /\
  resident_payload_length w APP_START_ADDR = 2 ^ 32 - 20 /\
  terminates (verify_application idle_hw APP_START_ADDR) w
    (fun b w' =>
       b = (calc =? 0) /\
       crc32_table_initialized w' = true /\
       text_of w' = text_of w ++ (if b then [] else report)).
Proof.
  intros w h data calc report.
  assert (Hm : magic h = BOOT_MAGIC) by (vm_compute; reflexivity).
  assert (Hz : size h = 0) by (vm_compute; reflexivity).
  assert (Hc : crc32 h = 0) by (vm_compute; reflexivity).
  assert (Hs : size h < sizeof_header) by (rewrite Hz; reflexivity).
  split; [exact Hm|]. split; [exact Hz|]. split; [exact Hc|].
  pose proof (verify_application_short_size idle_hw APP_START_ADDR w Hm Hs)
    as (_ & Hlen & _ & _ & Hterm).
  cbv zeta in Hlen, Hterm. fold h in Hlen, Hterm.
  rewrite Hz in Hlen. rewrite Hz, Hc in Hterm.
  split; [exact Hlen|]. exact (Hterm idle_tx_live).
Defined.

Lemma uart_receive_bytes_timeout_witness :
  exists e,
    snd (uart_receive_bytes two_byte_hw [9; 9; 9; 9] 4 5000 20%nat
           (reset_world (fun _ => 0)))
    = advance e (reset_world (fun _ => 0)) /\
    Z.of_nat (List.length (rx_of e)) <= 4 /\
    (false = false <-> Z.of_nat (List.length (rx_of e)) < 4) /\
    (false = false ->
     exists v0 v1, timed v0 v1 e /\ sub32 (ms_of v1) (ms_of v0) > 5000) /\
    firstn (List.length (rx_of e)) [0x11; 0x22; 9; 9] = rx_of e /\
    skipn (List.length (rx_of e)) [0x11; 0x22; 9; 9]
    = skipn (List.length (rx_of e)) [9; 9; 9; 9] /\
    List.length [0x11; 0x22; 9; 9] = List.length [9; 9; 9; 9].
Proof.
  apply (uart_receive_bytes_timeout two_byte_hw [9; 9; 9; 9] 4 5000 20%nat
           (reset_world (fun _ => 0)) false [0x11; 0x22; 9; 9]).
  - cbn. lia.
  - vm_compute. reflexivity.
Defined.

(** C2, scenario A: the stored CRC is the CRC of the 4 payload bytes, the
    session consumes the header and those 4 bytes, keeps waiting for the
    remaining 20 of the [size = 24] bytes it asks for, and fails with a
    data timeout instead of comparing the CRC after [size - 20] bytes. *)
Theorem receive_firmware_scenario_a :
  let run := receive_firmware scenario_a_hw 100%nat (reset_world (fun _ => 0)) in
  reflected_crc32 payload4 = crc32 header_size24 /\
  fst run = Ret false /\
  rx_of (trace (snd run)) = header_bytes header_size24 ++ payload4 /\
  text_of (snd run)
  = prompt_text ++ announce_text header_size24 ++ data_timeout_text.
Proof. vm_compute. repeat split; reflexivity. Qed.

(** C7, scenario B: the session ends with the CRC-mismatch line alone;
    neither the stored CRC 0x7C9CA35B nor the computed CRC 0xFFA07DDC is
    printed, while [verify_application] prints both for a mismatch. *)
Theorem receive_firmware_scenario_b :
  let run := receive_firmware scenario_b_hw 100%nat (reset_world (fun _ => 0)) in
  reflected_crc32 payload24 = 0xFFA07DDC /\
  fst run = Ret false /\
  rx_of (trace (snd run)) = header_bytes header_bad_crc ++ payload24 /\
  text_of (snd run)
  = prompt_text ++ announce_text header_bad_crc ++ dots 1 ++
    chars (" done" ++ crlf) ++ crc_mismatch_text /\
  occurs (hex_text 0x7C9CA35B) (text_of (snd run)) = false /\
  occurs (hex_text 0xFFA07DDC) (text_of (snd run)) = false /\
  occurs (hex_text 0x7C9CA35B)
         (verify_text header_bad_crc 0xFFA07DDC CrcMismatch) = true /\
  occurs (hex_text 0xFFA07DDC)
         (verify_text header_bad_crc 0xFFA07DDC CrcMismatch) = true.
Proof. vm_compute. repeat split; reflexivity. Qed.

Lemma receive_firmware_failure_keeps_application_witness :
  let w := reset_world image_size24 in
  let run := receive_firmware idle_hw 100%nat w in
  table_inv w /\ run = (Ret false, snd run) /\ mem (snd run) = mem w.
Proof.
  intros w run.
  assert (Hinv : table_inv w) by apply reset_world_inv.
  assert (Hrun : run = (Ret false, snd run)) by (vm_compute; reflexivity).
  split; [exact Hinv|]. split; [exact Hrun|].
  exact (proj1 (receive_firmware_failure_keeps_application idle_hw 100%nat w
                  (Ret false) (snd run) Hinv Hrun)).
Defined.

Lemma rejected_header_no_payload_witness :
  let w := reset_world (fun _ => 0) in
  let run := receive_firmware_after_header idle_hw header_one_over 100%nat w in
  size header_one_over > MAX_APP_SIZE /\
  exists e, snd run = advance e w /\ output_only e /\ rx_of e = [] /\
            (fst run = Ret false \/ fst run = Stop OutOfFuel).
Proof.
  intros w run.
  assert (Hbad : size header_one_over > MAX_APP_SIZE) by (vm_compute; reflexivity).
  split; [exact Hbad|].
  exact (proj1 (rejected_header_no_payload idle_hw header_one_over (or_intror Hbad))
           100%nat w (fst run) (snd run) (surjective_pairing run)).
Defined.

Lemma three_phase_ms (i : nat) :
  ms_at three_phase_hw i = nth (i mod 3) [0; 31000; 62000] 0.
Proof.
  unfold ms_at, three_phase_hw. cbn [timer_in].
  pose proof (Nat.mod_upper_bound i 3 ltac:(lia)) as Hb.
  destruct (i mod 3)%nat as [|[|[|r]]]; try reflexivity. lia.
Qed.

Lemma three_phase_clock_live : clock_live three_phase_hw.
Proof.
  intros n T HT. exists 0%nat. intros j Hj.
  rewrite !three_phase_ms.
  replace ((n + 1 + j) mod 3)%nat with ((n mod 3 + (1 + j)) mod 3)%nat
    by (rewrite Nat.Div0.add_mod_idemp_l; f_equal; lia).
  pose proof (Nat.mod_upper_bound n 3 ltac:(lia)) as Hb.
  assert (Hj' : j = 0%nat \/ j = 1%nat) by lia.
  destruct (n mod 3)%nat as [|[|[|r]]]; [| | |lia];
    destruct Hj' as [-> | ->];
    match goal with
    | |- ?x > ?t => let v := eval vm_compute in x in change (v > t)
    end; lia.
Qed.

Lemma three_phase_no_input : no_input three_phase_hw.
Proof. intros n. reflexivity. Qed.

Lemma three_phase_tx_live : tx_live three_phase_hw.
Proof. intros n. exists 0%nat. discriminate. Qed.

Lemma wrong_magic_invalid :
  resident_verdict (mem (reset_world image_wrong_magic)) APP_START_ADDR <> Valid.
Proof.
  unfold resident_verdict. cbv zeta.
  rewrite (proj1 (validate_order _ _)); [discriminate|].
  vm_compute. discriminate.
Qed.

Lemma recovery_loop_forever_witness :
  table_inv (reset_world image_wrong_magic) /\
  resident_verdict (mem (reset_world image_wrong_magic)) APP_START_ADDR
  <> Valid /\
  exists fuel0, forall fuel, (fuel0 <= fuel)%nat ->
    exists w' e_cur e_rec e_pre,
      bootloader_main three_phase_hw fuel (reset_world image_wrong_magic)
      = (Stop OutOfFuel, w') /\
      mem w' = mem (reset_world image_wrong_magic) /\
      trace w' = e_cur ++ e_rec ++ e_pre
                 ++ trace (reset_world image_wrong_magic) /\
      recovery_trace 2 e_rec.
Proof.
  split; [apply reset_world_inv|]. split; [apply wrong_magic_invalid|].
  exact (proj2 (proj2 (proj2
           (recovery_loop_forever three_phase_hw
              (reset_world image_wrong_magic)
              (reset_world_inv _) wrong_magic_invalid)))
           three_phase_no_input three_phase_tx_live three_phase_clock_live 2%nat).
Defined.

(** The same boot on 40 units of fuel: still running, the recovery
    banner printed and three session prompts already out. *)
Example bootloader_main_recovery_run :
  let run := bootloader_main three_phase_hw 40%nat
               (reset_world image_wrong_magic) in
  fst run = Stop OutOfFuel /\
  occurs (chars "Entering recovery mode...") (text_of (snd run)) = true /\
  occurs (prompt_text ++ header_timeout_text ++ prompt_text ++
          header_timeout_text ++ prompt_text)
         (text_of (snd run)) = true /\
  occurs (chars "Jumping to application...") (text_of (snd run)) = false.
Proof. vm_compute. repeat split; reflexivity. Qed.

(** C8 (divergence): the inter-attempt delay is not fixed.  On [wrap_hw]
    the resident image has a wrong magic and nothing is ever received, so
    [bootloader_main] enters the recovery loop and its first attempt ends
    in a header timeout.  The [delay_ms(1000)] that follows reads the
    timer at 4294967200 ticks (85899 ms) and then, the 32-bit counter
    having wrapped, at 104 ticks (0 ms): in 32-bit arithmetic
    0 - 85899 is at least 1000, so the delay is over after these two
    readings, 200 ticks (4 microseconds at 50 MHz) apart, and the second
    attempt starts at once.  The delay after the second attempt, with no
    wrap, lasts 1001 ms. *)
Theorem recovery_delay_cut_short_by_timer_wrap :
  let run := bootloader_main wrap_hw 2%nat (reset_world image_wrong_magic) in
  resident_verdict image_wrong_magic APP_START_ADDR = InvalidMagic /\
  fst run = Stop OutOfFuel /\
  exists e_delay2 e_second e_first e_pre,
    trace (snd run)
    = e_delay2 ++ e_second
      ++ [EvRead TIMER_VALUE 104; EvRead TIMER_VALUE 4294967200]
      ++ e_first ++ e_pre /\
    occurs (chars "Entering recovery mode...") (tx_of e_pre) = true /\
    failed_attempt e_first /\
    failed_attempt e_second /\
    e_delay2 = [EvRead TIMER_VALUE 1550250000; EvRead TIMER_VALUE 1500200000] /\
    ms_of 4294967200 = 85899 /\ ms_of 104 = 0 /\
    sub32 (ms_of 104) (ms_of 4294967200) = 2 ^ 32 - 85899 /\
    sub32 104 4294967200 = 200 /\
    sub32 (ms_of 1550250000) (ms_of 1500200000) = 1001.
Proof.
  intros run.
  split; [vm_compute; reflexivity|]. split; [vm_compute; reflexivity|].
  exists (firstn 2 (trace (snd run))),
    (firstn 140 (skipn 2 (trace (snd run)))),
    (firstn 140 (skipn 144 (trace (snd run)))),
    (skipn 284 (trace (snd run))).
  vm_compute. repeat split; reflexivity.
Qed.

(** ** Worked instances of the further properties *)

Lemma uart_putc_waits_for_transmitter_witness :
  exists v busy,
    snd (uart_putc slow_tx_hw 65 5%nat blank)
    = advance (EvWrite UART_TX_DATA (u32 65) :: EvRead UART_STATUS v :: busy)
              blank /\
    Z.land v UART_TX_EMPTY <> 0 /\ busy_reads UART_TX_EMPTY busy.
Proof.
  assert (E : uart_putc slow_tx_hw 65 5%nat blank
              = (Ret tt, snd (uart_putc slow_tx_hw 65 5%nat blank)))
    by (vm_compute; reflexivity).
  destruct (proj1 (uart_putc_waits_for_transmitter slow_tx_hw 65) _ _ _ _ E)
    as [(_ & H)|(Hr & _)]; [exact H|discriminate].
Defined.

Lemma uart_puts_transmits_string_witness :
  exists e,
    snd (uart_puts idle_hw "Hi" 1%nat blank) = advance e blank /\
    tx_of e = [72; 105] /\ output_only e.
Proof.
  apply (proj1 (uart_puts_transmits_string idle_hw "Hi") 1%nat).
  vm_compute. reflexivity.
Defined.


Lemma uart_getc_waits_for_receiver_witness :
  exists v s idle,
    fst (uart_getc late_rx_hw 5%nat blank) = Ret (u8 v) /\
    v = 0x155 /\
    snd (uart_getc late_rx_hw 5%nat blank)
    = advance (EvRead UART_TX_DATA v :: EvRead UART_STATUS s :: idle) blank /\
    Z.land s UART_RX_READY <> 0 /\ busy_reads UART_RX_READY idle.
Proof.
  assert (E : uart_getc late_rx_hw 5%nat blank
              = (fst (uart_getc late_rx_hw 5%nat blank),
                 snd (uart_getc late_rx_hw 5%nat blank)))
    by apply surjective_pairing.
  destruct (uart_getc_waits_for_receiver late_rx_hw _ _ _ _ E)
    as [(v & s & idle & Hr & Hv & Hw & Hs & Hb)|(Hr & _)].
  - exists v, s, idle. repeat split; auto.
  - vm_compute in Hr. discriminate.
Defined.

Lemma wrapping_ms : ms_at wrapping_hw 1 < ms_at wrapping_hw 0.
Proof. vm_compute. reflexivity. Qed.

Lemma delay_ms_returns_on_timer_wrap_witness :
  delay_ms wrapping_hw 1000 1%nat blank
  = (Ret tt,
     advance [EvRead TIMER_VALUE 0; EvRead TIMER_VALUE (2 ^ 32 - 1)] blank).
Proof.
  exact (delay_ms_returns_on_timer_wrap wrapping_hw 1000 1%nat blank
           ltac:(vm_compute; discriminate) wrapping_ms (Nat.le_refl 1)).
Defined.

Lemma uart_receive_bytes_times_out_on_timer_wrap_witness :
  uart_receive_bytes wrapping_hw [7; 7] 2 5000 1%nat blank
  = (Ret (false, [7; 7]),
     advance [EvRead TIMER_VALUE 0; EvRead TIMER_VALUE (2 ^ 32 - 1)] blank).
Proof.
  exact (uart_receive_bytes_times_out_on_timer_wrap wrapping_hw [7; 7] 2 5000
           1%nat blank ltac:(lia) ltac:(vm_compute; reflexivity) wrapping_ms
           (Nat.le_refl 1)).
Defined.

Lemma delay_ms_waits_witness :
  terminates (delay_ms three_phase_hw 1000) blank (fun _ _ => True).
Proof.
  exact (proj2 (delay_ms_waits three_phase_hw 1000) three_phase_clock_live
           ltac:(lia) blank).
Defined.

Lemma uart_receive_bytes_zero_length_witness :
  uart_receive_bytes idle_hw [7; 7] 0 5000 1%nat blank
  = (Ret (true, [7; 7]), advance [EvRead TIMER_VALUE 0] blank).
Proof.
  exact (uart_receive_bytes_zero_length idle_hw [7; 7] 5000 1%nat blank
           (Nat.le_refl 1)).
Defined.

Lemma uart_receive_bytes_silent_line_witness :
  terminates (uart_receive_bytes three_phase_hw [7; 7] 2 5000) blank
    (fun r w' => r = (false, [7; 7]) /\
                 exists e, w' = advance e blank /\ quiet e).
Proof.
  apply (uart_receive_bytes_silent_line three_phase_hw [7; 7] 2 5000 blank
           three_phase_no_input three_phase_clock_live).
  - cbn. lia.
  - lia.
Defined.

Lemma crc32_calculate_pure_witness :
  let data := index [49; 50; 51; 52; 53; 54; 55; 56; 57] in
  let built := crc32_init_table blank in
  fst (crc32_calculate data 9 blank) = fst (crc32_calculate data 9 built) /\
  0 <= fst (crc32_calculate data 9 blank) < 2 ^ 32 /\
  snd (crc32_calculate data 9 blank) = built /\
  snd (crc32_calculate (fun _ => 0) 3 built) = built.
Proof.
  intros data built.
  destruct (crc32_calculate_pure data (fun _ => 0) 9 3 blank built
              (reset_world_inv _)
              (proj1 (crc32_init_table_inv blank (reset_world_inv _))))
    as (H1 & H2 & _ & _ & _ & _ & H3).
  split; [exact H1|]. split; [exact H2|]. split; [reflexivity|exact H3].
Defined.

Lemma crc32_calculate_detects_byte_change_witness :
  fst (crc32_calculate (index [1; 9; 3]) 3 blank)
  <> fst (crc32_calculate (index [1; 2; 3]) 3 blank).
Proof.
  apply (crc32_calculate_detects_byte_change (index [1; 2; 3]) (index [1; 9; 3])
           3 1 blank (reset_world_inv _)).
  - lia.
  - intros i Hi Hne. assert (i = 0 \/ i = 2) as [-> | ->] by lia; reflexivity.
  - vm_compute. discriminate.
Defined.



Lemma upload_run :
  receive_firmware upload_hw 25%nat blank
  = (Ret true, snd (receive_firmware upload_hw 25%nat blank)).
Proof. vm_compute. reflexivity. Qed.

Lemma receive_firmware_accepts_iff_witness :
  exists e,
    trace (snd (receive_firmware upload_hw 25%nat blank)) = e ++ trace blank /\
    mem (snd (receive_firmware upload_hw 25%nat blank)) = mem blank /\
    let rx := rx_of e in
    let h := header_of_bytes (firstn 20 rx) in
    (true = true <->
     Z.of_nat (List.length rx) = sizeof_header + size h /\
     magic h = BOOT_MAGIC /\ size h <= MAX_APP_SIZE /\
     reflected_crc32 (skipn 20 rx) = crc32 h).
Proof.
  exact (receive_firmware_accepts_iff upload_hw 25%nat blank true _
           (reset_world_inv _) upload_run).
Defined.

Lemma receive_firmware_success_report_witness :
  exists e,
    trace (snd (receive_firmware upload_hw 25%nat blank)) = e ++ trace blank /\
    let h := header_of_bytes (firstn 20 (rx_of e)) in
    tx_of e = prompt_text ++ announce_text h ++ dots ((size h + 127) / 128) ++
              chars (" done" ++ crlf) ++ success_text.
Proof.
  exact (receive_firmware_success_report upload_hw 25%nat blank _
           (reset_world_inv _) upload_run).
Defined.

Lemma silent_run :
  receive_firmware idle_hw 40%nat blank
  = (Ret false, snd (receive_firmware idle_hw 40%nat blank)).
Proof. vm_compute. reflexivity. Qed.

Lemma receive_firmware_failure_report_witness :
  exists e,
    trace (snd (receive_firmware idle_hw 40%nat blank)) = e ++ trace blank /\
    let rx := rx_of e in
    let h := header_of_bytes (firstn 20 rx) in
    let n := Z.of_nat (List.length rx) in
    (n < 20 /\ tx_of e = prompt_text ++ header_timeout_text) \/
    (n = 20 /\ magic h <> BOOT_MAGIC /\
     tx_of e = prompt_text ++ chars "ERROR: Invalid magic - " ++
               hex_text (magic h) ++ chars crlf) \/
    (n = 20 /\ magic h = BOOT_MAGIC /\ size h > MAX_APP_SIZE /\
     tx_of e = prompt_text ++ chars ("ERROR: Firmware too large" ++ crlf)) \/
    (20 <= n < 20 + size h /\ header_ok h = true /\
     tx_of e = prompt_text ++ announce_text h ++ dots ((n - 20) / 128) ++
               data_timeout_text) \/
    (n = 20 + size h /\ header_ok h = true /\
     reflected_crc32 (skipn 20 rx) <> crc32 h /\
     tx_of e = prompt_text ++ announce_text h ++ dots ((size h + 127) / 128) ++
               chars (" done" ++ crlf) ++ crc_mismatch_text).
Proof.
  exact (receive_firmware_failure_report idle_hw 40%nat blank _
           (reset_world_inv _) silent_run).
Defined.

Lemma check_for_update_request_key_witness :
  exists e,
    trace (snd (check_for_update_request key_hw 5%nat blank))
    = e ++ trace blank /\
    ((rx_of e = [] /\ true = false /\
      exists e_prompt e_window e_end v0 v1,
        e = e_end ++ e_window ++ e_prompt /\
        tx_of e_prompt
        = chars ("Press 'U' for update mode (3s timeout)..." ++ crlf) /\
        timed v0 v1 e_window /\
        TIMEOUT_MS <= sub32 (ms_of v1) (ms_of v0)) \/
     (exists c, rx_of e = [c] /\ true = ((c =? 85) || (c =? 117)))).
Proof.
  assert (E : check_for_update_request key_hw 5%nat blank
              = (Ret true, snd (check_for_update_request key_hw 5%nat blank)))
    by (vm_compute; reflexivity).
  exact (check_for_update_request_key key_hw 5%nat blank _ _ E).
Defined.

Lemma check_for_update_request_unattended_witness :
  terminates (check_for_update_request three_phase_hw) blank
    (fun b w' => b = false /\ mem w' = mem blank).
Proof.
  exact (check_for_update_request_unattended three_phase_hw blank
           three_phase_no_input three_phase_tx_live three_phase_clock_live).
Defined.


Lemma size24_valid : resident_verdict image_size24 APP_START_ADDR = Valid.
Proof. vm_compute. reflexivity. Qed.

Lemma bootloader_main_boots_valid_image_witness :
  let w := reset_world image_size24 in
  let run := bootloader_main idle_hw 3%nat w in
  let offer := (banner idle_hw ;; check_for_update_request idle_hw)%fw 3%nat w in
  fst run = Stop (Jumped 0x4014) /\
  mem (snd run) = mem w /\
  exists e,
    trace (snd run) = EvCsrci :: e ++ trace (snd offer) /\ rx_of e = [] /\
    tx_of e = chars ("Verifying application..." ++ crlf) ++
              boot_text (read_header (mem w) APP_START_ADDR).
Proof.
  intros w run offer.
  assert (Eo : (banner idle_hw ;; check_for_update_request idle_hw)%fw 3%nat w
               = (Ret false, snd offer)) by (vm_compute; reflexivity).
  assert (Er : bootloader_main idle_hw 3%nat w
               = (Stop (Jumped 0x4014), snd run)) by (vm_compute; reflexivity).
  destruct (bootloader_main_boots_valid_image idle_hw w 3%nat (snd offer)
              (reset_world_inv _) size24_valid Eo _ _ Er)
    as [H|(_ & Hm & He)]; [discriminate|].
  split; [vm_compute; reflexivity|]. split; [exact Hm|exact He].
Defined.

Lemma bootloader_main_reaches_application_witness :
  exists F w',
    forall fuel, (F <= fuel)%nat ->
      bootloader_main three_phase_hw fuel (reset_world image_size24)
      = (Stop (Jumped 0x4014), w').
Proof.
  exact (bootloader_main_reaches_application three_phase_hw
           (reset_world image_size24)
           three_phase_no_input three_phase_tx_live three_phase_clock_live
           (reset_world_inv _) size24_valid).
Defined.

Lemma main_never_returns_witness :
  fst (main idle_hw 3%nat (reset_world image_size24)) = Stop (Jumped 0x4014) \/
  fst (main idle_hw 3%nat (reset_world image_size24)) = Stop Hang \/
  fst (main idle_hw 3%nat (reset_world image_size24)) = Stop OutOfFuel.
Proof.
  exact (main_never_returns idle_hw 3%nat (reset_world image_size24) _ _
           (surjective_pairing _)).
Defined.

Lemma update_mode_outcome_witness :
  let run := update_mode upload_hw 25%nat blank in
  fst run = Stop Hang /\
  mem (snd run) = mem blank /\
  exists e, trace (snd run) = e ++ trace blank /\
            firmware_result (rx_of e) = true.
Proof.
  intros run.
  assert (E : update_mode upload_hw 25%nat blank = (Stop Hang, snd run))
    by (vm_compute; reflexivity).
  destruct (update_mode_outcome upload_hw 25%nat blank _ _
              (reset_world_inv _) E) as (Hm & He).
  split; [vm_compute; reflexivity|]. split; [exact Hm|exact He].
Defined.

(** *** Recovery on an upload that starts after the offer window *)

Lemma sawtooth_ms (i : nat) :
  ms_at late_upload_hw i = Z.of_nat (i mod 40) * 1000.
Proof.
  unfold ms_at, ms_of, late_upload_hw, sawtooth, u32. cbn [timer_in].
  pose proof (Nat.mod_upper_bound i 40 ltac:(lia)) as Hb.
  rewrite Z.mod_small by lia.
  replace (Z.of_nat (i mod 40) * 50000000)
    with (Z.of_nat (i mod 40) * 1000 * 50000) by lia.
  apply Z.div_mul. lia.
Qed.

Lemma late_upload_clock_live : clock_live late_upload_hw.
Proof.
  intros n T HT.
  pose proof (Nat.mod_upper_bound n 40 ltac:(lia)) as Hb.
  assert (Hmod : forall j, ((n + 1 + j) mod 40
                            = (n mod 40 + (1 + j)) mod 40)%nat).
  { intros j. rewrite Nat.Div0.add_mod_idemp_l. f_equal. lia. }
  destruct (le_lt_dec (n mod 40) 7) as [Hlow|Hhigh].
  - exists (37 - n mod 40)%nat. intros j Hj.
    rewrite !sawtooth_ms, Hmod, Nat.mod_small by lia.
    unfold sub32, u32. rewrite Z.mod_small by lia. lia.
  - exists (39 - n mod 40)%nat. intros j Hj.
    rewrite !sawtooth_ms, Hmod.
    replace (n mod 40 + (1 + j))%nat
      with ((n mod 40 + 1 + j - 40) + 1 * 40)%nat by lia.
    rewrite Nat.Div0.mod_add, Nat.mod_small by lia.
    rewrite elapsed_after_wrap by lia. lia.
Qed.

Lemma late_upload_tx_live : tx_live late_upload_hw.
Proof.
  intros n. exists 0%nat. cbn [late_upload_hw status_in].
  destruct (n + 0 <? 300)%nat; discriminate.
Qed.

Lemma late_upload_rx_steady : rx_steady late_upload_hw.
Proof.
  intros n Hn. exists 0%nat. cbn [late_upload_hw status_in] in *.
  destruct (Nat.ltb_spec n 300) as [Hlt|Hge]; [now elim Hn|].
  destruct (Nat.ltb_spec (n + 1 + 0) 300); [lia|discriminate].
Qed.


(** The same boot on 25 units of fuel: the first session in the recovery
    loop takes the upload and succeeds, and the loop goes on to prompt
    for the next one. *)
Example bootloader_main_recovery_after_success :
  let run := bootloader_main late_upload_hw 25%nat
               (reset_world image_wrong_magic) in
  fst run = Stop OutOfFuel /\
  occurs (chars "Entering recovery mode...") (text_of (snd run)) = true /\
  occurs (success_text ++
          chars ("Recovery successful! Please reset to boot." ++ crlf) ++
          prompt_text)
         (text_of (snd run)) = true /\
  occurs (chars "Jumping to application...") (text_of (snd run)) = false.
Proof. vm_compute. repeat split; reflexivity. Qed.
